(** * rl4co: the Attention Model decoder ([rl4co/models/zoo/am/decoder.py])

    A shallow embedding of [Decoder.__init__], [Decoder.forward],
    [Decoder._precompute] and [Decoder._get_log_p], together with the part
    of torch, einops and tensordict these four functions rely on.

    - A tensor is a shape and its contiguous row-major storage.
    - A [TensorDict] is a batch size and a finite mapping from names to
      tensors whose leading dimensions are the batch size.
    - Python exceptions are values of [exn]; the body of [forward] is a
      program of a state-and-error monad over the frame of its local
      variables, which also records the calls that were made.
    - The learned or environment-specific collaborators (environment,
      context and dynamic embeddings, attention unit, action selection,
      start-node selection) are fields of [Decoder] and [Imports]. *)

From Stdlib Require Import String ZArith Lia Bool Arith List.
Import ListNotations.

Set Implicit Arguments.

(** ** Python results *)

Inductive exn : Type :=
| AssertionError (msg : string)
| KeyError (key : string)
| RuntimeError (msg : string)
| IndexError
| ValueError
| TypeError
| ZeroDivisionError
| EinopsError
| UnboundLocalError.

(** [OutOfFuel] is not a Python outcome: it marks a run of the [while] loop
    of [forward] that was cut by the bound on the number of iterations. *)
Inductive result (A : Type) : Type :=
| Ok (a : A)
| Raise (e : exn)
| OutOfFuel.

Arguments Ok {A} a.
Arguments Raise {A} e.
Arguments OutOfFuel {A}.

Definition rbind {A B : Type} (r : result A) (k : A -> result B) : result B :=
  match r with
  | Ok a => k a
  | Raise e => Raise e
  | OutOfFuel => OutOfFuel
  end.

Declare Scope result_scope.
Delimit Scope result_scope with result.
Notation "'let?' x ':=' r 'in' k" := (rbind r (fun x => k))
  (at level 10, x pattern, r at level 100, k at level 200) : result_scope.

(** ** Tensors: shape and row-major storage *)

Record ndarray (A : Type) : Type := mkArr { shape : list nat; data : list A }.

Arguments mkArr {A} shape data.

Definition numel (s : list nat) : nat := fold_right Nat.mul 1 s.

Definition ndim {A : Type} (t : ndarray A) : nat := length (shape t).

(** A tensor is well formed when its storage has one cell per index. *)
Definition wf_array {A : Type} (t : ndarray A) : Prop :=
  length (data t) = numel (shape t).

(** [chunk r i l] is the [i]-th block of [r] consecutive cells of [l]. *)
Definition chunk {A : Type} (r i : nat) (l : list A) : list A :=
  firstn r (skipn (i * r) l).

(** The blocks of size [r] of [l] at the positions [idxs], in that order. *)
Definition gather {A : Type} (r : nat) (idxs : list nat) (l : list A) : list A :=
  flat_map (fun i => chunk r i l) idxs.

(** [pairs_major n m f] lists [f i j] for [i < n] (slow) and [j < m] (fast). *)
Definition pairs_major {A : Type} (n m : nat) (f : nat -> nat -> A) : list A :=
  flat_map (fun i => map (fun j => f i j) (seq 0 m)) (seq 0 n).

Definition amap {A B : Type} (f : A -> B) (t : ndarray A) : ndarray B :=
  mkArr (shape t) (map f (data t)).

(** [torch.zeros_like] on storage of one dtype. *)
Definition zeros_like_arr {A : Type} (zero : A) (t : ndarray A) : ndarray A :=
  amap (fun _ => zero) t.

(** [t.unsqueeze(1)] *)
Definition unsqueeze1 {A : Type} (t : ndarray A) : result (ndarray A) :=
  match shape t with
  | [] => Raise IndexError
  | d0 :: rest => Ok (mkArr (d0 :: 1 :: rest) (data t))
  end.

Definition list_nat_eqb (a b : list nat) : bool :=
  if list_eq_dec Nat.eq_dec a b then true else false.

(** [torch.stack(ts, 1)] on tensors of one dtype: a non-empty list of
    tensors of one shape [d0 :: rest] gives [d0 :: T :: rest], where entry
    [(i, j)] is row [i] of the [j]-th tensor. *)
Definition stack1 {A : Type} (ts : list (ndarray A)) : result (ndarray A) :=
  match ts with
  | [] => Raise (RuntimeError "stack expects a non-empty TensorList")
  | t0 :: _ =>
      if forallb (fun t => list_nat_eqb (shape t) (shape t0)) ts then
        match shape t0 with
        | [] => Raise IndexError
        | d0 :: rest =>
            Ok (mkArr (d0 :: length ts :: rest)
                  (flat_map (fun i => flat_map (fun t => chunk (numel rest) i (data t)) ts)
                     (seq 0 d0)))
        end
      else Raise (RuntimeError "stack expects each tensor to be equal size")
  end.

(** [t[:, j]] on a tensor of rank at least 2. *)
Definition select1 {A : Type} (j : nat) (t : ndarray A) : result (ndarray A) :=
  match shape t with
  | d0 :: d1 :: rest =>
      if j <? d1 then
        Ok (mkArr (d0 :: rest)
              (flat_map (fun i => chunk (numel rest) (i * d1 + j) (data t)) (seq 0 d0)))
      else Raise IndexError
  | _ => Raise IndexError
  end.

(** [einops.rearrange(t, "b s l -> (s b) l")]: the input must have exactly
    three axes; row [s * B + b] of the output is entry [(b, s)] of the
    input (einops transposes to [(s, b, l)] and reshapes). *)
Definition rearrange_bsl_sbl {A : Type} (t : ndarray A) : result (ndarray A) :=
  match shape t with
  | [b; s; l] =>
      Ok (mkArr [s * b; l]
            (gather l (pairs_major s b (fun si bi => bi * s + si)) (data t)))
  | _ => Raise EinopsError
  end.

(** ** Broadcasting addition *)

(** Shapes are compared from the last axis; a missing axis counts as 1. *)
Fixpoint broadcast_rev (a b : list nat) : option (list nat) :=
  match a, b with
  | [], _ => Some b
  | _, [] => Some a
  | x :: a', y :: b' =>
      match broadcast_rev a' b' with
      | None => None
      | Some r =>
          if x =? y then Some (x :: r)
          else if x =? 1 then Some (y :: r)
          else if y =? 1 then Some (x :: r)
          else None
      end
  end.

Definition broadcast_shapes (a b : list nat) : option (list nat) :=
  option_map (@rev nat) (broadcast_rev (rev a) (rev b)).

(** The multi-index of the flat position [k] in a tensor of shape [s],
    last axis first. *)
Fixpoint unravel_rev (rs : list nat) (k : nat) : list nat :=
  match rs with
  | [] => []
  | d :: rs' => (k mod d) :: unravel_rev rs' (k / d)
  end.

(** The flat position, in an operand of reversed shape [rs], of the cell
    that is broadcast to the reversed multi-index [ri]. *)
Fixpoint ravel_rev (rs ri : list nat) : nat :=
  match rs, ri with
  | d :: rs', i :: ri' => (if d =? 1 then 0 else i) + d * ravel_rev rs' ri'
  | _, _ => 0
  end.

Definition broadcast_cell {A : Type} (dflt : A) (out : list nat) (t : ndarray A) (k : nat) : A :=
  nth (ravel_rev (rev (shape t)) (unravel_rev (rev out) k)) (data t) dflt.

Definition add_arr {A : Type} (plus : A -> A -> A) (dflt : A) (x y : ndarray A)
  : result (ndarray A) :=
  match broadcast_shapes (shape x) (shape y) with
  | None => Raise (RuntimeError "The size of tensor a must match the size of tensor b")
  | Some out =>
      Ok (mkArr out
            (map (fun k => plus (broadcast_cell dflt out x k) (broadcast_cell dflt out y k))
               (seq 0 (numel out))))
  end.

(** ** Scalars

    The float arithmetic of torch is kept abstract: the decoder is
    parametric in the scalar operations it uses. *)

Class ScalarOps (F : Type) : Type := {
  fzero : F;
  fone : F;
  fadd : F -> F -> F;
  fmul : F -> F -> F;
  fdiv : F -> F -> F;
  fexp : F -> F;
  f_of_Z : Z -> F;
  f_to_Z : F -> Z;
  f_nonzero : F -> bool
}.

Section Torch.

Context {F : Type} {SO : ScalarOps F}.

(** ** torch.Tensor: storage tagged with its dtype *)

Inductive Tensor : Type :=
| TBool (t : ndarray bool)
| TLong (t : ndarray Z)
| TFloat (t : ndarray F).

Inductive dtype : Type := DBool | DLong | DFloat.

Definition dtype_of (t : Tensor) : dtype :=
  match t with TBool _ => DBool | TLong _ => DLong | TFloat _ => DFloat end.

Definition tshape (t : Tensor) : list nat :=
  match t with TBool a => shape a | TLong a => shape a | TFloat a => shape a end.

(** Type promotion: bool < long < float. *)
Definition promote (a b : dtype) : dtype :=
  match a, b with
  | DFloat, _ | _, DFloat => DFloat
  | DLong, _ | _, DLong => DLong
  | DBool, DBool => DBool
  end.

Definition result_type (ts : list Tensor) : dtype :=
  fold_right (fun t d => promote (dtype_of t) d) DBool ts.

Definition as_bool (t : Tensor) : ndarray bool :=
  match t with
  | TBool a => a
  | TLong a => amap (fun z => negb (Z.eqb z 0)) a
  | TFloat a => amap f_nonzero a
  end.

Definition as_long (t : Tensor) : ndarray Z :=
  match t with
  | TBool a => amap (fun b : bool => if b then 1%Z else 0%Z) a
  | TLong a => a
  | TFloat a => amap f_to_Z a
  end.

Definition as_float (t : Tensor) : ndarray F :=
  match t with
  | TBool a => amap (fun b : bool => if b then fone else fzero) a
  | TLong a => amap f_of_Z a
  | TFloat a => a
  end.

(** [t.to(d)], used towards the common dtype of several operands. *)
Definition cast (d : dtype) (t : Tensor) : Tensor :=
  match d with
  | DBool => TBool (as_bool t)
  | DLong => TLong (as_long t)
  | DFloat => TFloat (as_float t)
  end.

(** [torch.stack(ts, 1)]: the operands are first converted to their
    common dtype. *)
Definition torch_stack1 (ts : list Tensor) : result Tensor :=
  match result_type ts with
  | DBool => (let? r := stack1 (map as_bool ts) in Ok (TBool r))%result
  | DLong => (let? r := stack1 (map as_long ts) in Ok (TLong r))%result
  | DFloat => (let? r := stack1 (map as_float ts) in Ok (TFloat r))%result
  end.

(** [torch.zeros_like(t)]: same shape and dtype. *)
Definition zeros_like (t : Tensor) : Tensor :=
  match t with
  | TBool a => TBool (zeros_like_arr false a)
  | TLong a => TLong (zeros_like_arr 0%Z a)
  | TFloat a => TFloat (zeros_like_arr fzero a)
  end.

(** [~t] *)
Definition invert (t : Tensor) : result Tensor :=
  match t with
  | TBool a => Ok (TBool (amap negb a))
  | TLong a => Ok (TLong (amap Z.lnot a))
  | TFloat _ => Raise TypeError
  end.

(** [t.all()] as a Python truth value. *)
Definition torch_all (t : Tensor) : bool :=
  forallb (fun b : bool => b) (data (as_bool t)).

(** A tagged tensor is well formed when its storage is. *)
Definition twf (t : Tensor) : Prop :=
  match t with
  | TBool a => wf_array a
  | TLong a => wf_array a
  | TFloat a => wf_array a
  end.

(** Every cell is the zero of the dtype. *)
Definition is_zero_tensor (t : Tensor) : Prop :=
  match t with
  | TBool a => Forall (fun b => b = false) (data a)
  | TLong a => Forall (fun z => z = 0%Z) (data a)
  | TFloat a => Forall (fun x => x = fzero) (data a)
  end.

(** Row [i] of a tensor whose rows have [r] cells, as a vector. *)
Definition trow (r i : nat) (t : Tensor) : Tensor :=
  match t with
  | TBool a => TBool (mkArr [r] (chunk r i (data a)))
  | TLong a => TLong (mkArr [r] (chunk r i (data a)))
  | TFloat a => TFloat (mkArr [r] (chunk r i (data a)))
  end.

Definition tselect1 (j : nat) (t : Tensor) : result Tensor :=
  match t with
  | TBool a => (let? r := select1 j a in Ok (TBool r))%result
  | TLong a => (let? r := select1 j a in Ok (TLong r))%result
  | TFloat a => (let? r := select1 j a in Ok (TFloat r))%result
  end.

Definition trearrange_bsl_sbl (t : Tensor) : result Tensor :=
  match t with
  | TBool a => (let? r := rearrange_bsl_sbl a in Ok (TBool r))%result
  | TLong a => (let? r := rearrange_bsl_sbl a in Ok (TLong r))%result
  | TFloat a => (let? r := rearrange_bsl_sbl a in Ok (TFloat r))%result
  end.

(** [x + y] on float tensors, with broadcasting. *)
Definition torch_add (x y : ndarray F) : result (ndarray F) := add_arr fadd fzero x y.

(** ** nn.Linear without bias *)

Record Linear : Type := mkLinear {
  in_features : nat;
  out_features : nat;
  weight : nat -> nat -> F   (* weight j i, j < out_features, i < in_features *)
}.

(** [nn.Linear(in_features, out_features, bias=False)]; the initial
    weights are drawn at random by torch and are an argument here. *)
Definition nn_Linear (inf outf : nat) (w : nat -> nat -> F) : Linear := mkLinear inf outf w.

Definition fsum (l : list F) : F := fold_left fadd l fzero.

Definition dot (n : nat) (w : nat -> F) (x : list F) : F :=
  fsum (map (fun i => fmul (nth i x fzero) (w i)) (seq 0 n)).

(** [lin(x)]: every vector along the last axis is multiplied by the
    transposed weight matrix; nothing is added. *)
Definition apply_linear (lin : Linear) (x : ndarray F) : result (ndarray F) :=
  match rev (shape x) with
  | [] => Raise (RuntimeError "both arguments to matmul need to be at least 1D")
  | d :: pre =>
      if d =? in_features lin then
        Ok (mkArr (rev pre ++ [out_features lin])
              (flat_map
                 (fun i => map (fun j => dot (in_features lin) (weight lin j) (chunk d i (data x)))
                             (seq 0 (out_features lin)))
                 (seq 0 (numel (rev pre)))))
      else Raise (RuntimeError "mat1 and mat2 shapes cannot be multiplied")
  end.

(** [x.mean(1)] *)
Definition mean1 (x : ndarray F) : result (ndarray F) :=
  match shape x with
  | d0 :: d1 :: rest =>
      let r := numel rest in
      Ok (mkArr (d0 :: rest)
            (pairs_major d0 r
               (fun i j =>
                  fdiv (fsum (map (fun n => nth ((i * d1 + n) * r + j) (data x) fzero) (seq 0 d1)))
                       (f_of_Z (Z.of_nat d1)))))
  | _ => Raise IndexError
  end.

End Torch.

Arguments Tensor F : clear implicits.
Arguments Linear F : clear implicits.

(** [x[..., start : start + len]] *)
Definition narrow_last {A : Type} (start len : nat) (x : ndarray A) : ndarray A :=
  match rev (shape x) with
  | [] => x
  | d :: pre =>
      mkArr (rev pre ++ [len])
        (flat_map (fun i => firstn len (skipn start (chunk d i (data x))))
           (seq 0 (numel (rev pre))))
  end.

(** The sizes of the pieces [torch.chunk] cuts an axis of size [d] into:
    pieces of [ceil (d / chunks)], the last one possibly smaller, and
    possibly fewer than [chunks] of them. *)
Definition chunk_sizes (chunks d : nat) : list nat :=
  let ss := (d + chunks - 1) / chunks in
  if d =? 0 then repeat 0 chunks
  else map (fun c => Nat.min ss (d - c * ss)) (seq 0 ((d + ss - 1) / ss)).

(** [x.chunk(chunks, dim=-1)] *)
Definition torch_chunk_last {A : Type} (chunks : nat) (x : ndarray A) : result (list (ndarray A)) :=
  match rev (shape x) with
  | [] => Raise (RuntimeError "chunk expects at least a 1-dimensional tensor")
  | d :: _ =>
      let ss := (d + chunks - 1) / chunks in
      let sizes := chunk_sizes chunks d in
      Ok (map (fun c => narrow_last (c * ss) (nth c sizes 0) x) (seq 0 (length sizes)))
  end.

(** Python's [(a, b, c) = xs] *)
Definition unpack3 {A : Type} (xs : list A) : result (A * A * A) :=
  match xs with
  | [a; b; c] => Ok (a, b, c)
  | _ => Raise ValueError
  end.

(** ** TensorDict *)

Section TensorDicts.

Context {F : Type} {SO : ScalarOps F}.

Record TensorDict : Type := mkTD {
  batch_size : list nat;
  fields : list (string * Tensor F)
}.

Fixpoint assoc_get (key : string) (l : list (string * Tensor F)) : option (Tensor F) :=
  match l with
  | [] => None
  | (k, v) :: l' => if String.eqb k key then Some v else assoc_get key l'
  end.

Fixpoint assoc_set (key : string) (v : Tensor F) (l : list (string * Tensor F))
  : list (string * Tensor F) :=
  match l with
  | [] => [(key, v)]
  | (k, v') :: l' => if String.eqb k key then (k, v) :: l' else (k, v') :: assoc_set key v l'
  end.

(** [td[key]] *)
Definition td_get (key : string) (td : TensorDict) : result (Tensor F) :=
  match assoc_get key (fields td) with
  | Some v => Ok v
  | None => Raise (KeyError key)
  end.

(** [td.set(key, v)]: the leading dimensions of [v] must be the batch size. *)
Definition td_set (key : string) (v : Tensor F) (td : TensorDict) : result TensorDict :=
  if list_nat_eqb (firstn (length (batch_size td)) (tshape v)) (batch_size td)
  then Ok (mkTD (batch_size td) (assoc_set key v (fields td)))
  else Raise (RuntimeError "batch dimension mismatch").

Fixpoint mapM {A B : Type} (f : A -> result B) (l : list A) : result (list B) :=
  match l with
  | [] => Ok []
  | x :: l' => (let? y := f x in let? ys := mapM f l' in Ok (y :: ys))%result
  end.

(** ** rl4co.utils.ops: [batchify] and [unbatchify] *)

(** Modelled from the spec: [batchify] of [rl4co.utils.ops] is not among
    the sources. The spec has it replicate each instance [num_starts] times
    along the batch dimension, in the starts-major layout that the fold of
    [_get_log_p] has to match: copy [s] of instance [b] is row [s * B + b].
    The storage is therefore repeated [repeats] times. *)
Definition batchify_arr {A : Type} (repeats : nat) (t : ndarray A) : result (ndarray A) :=
  match shape t with
  | [] => Raise IndexError
  | s0 :: rest => Ok (mkArr (s0 * repeats :: rest) (concat (repeat (data t) repeats)))
  end.

(** Modelled from the spec: [unbatchify] of [rl4co.utils.ops] is not among
    the sources. It separates the expansion dimension, giving the shape
    [batch_size, num_starts, ...] announced at line 147 of the decoder:
    entry [(b, s)] of the result is row [s * B + b] of the operand, the
    inverse of the starts-major fold. A batch that [repeats] does not
    divide is a shape mismatch. *)
Definition unbatchify_arr {A : Type} (repeats : nat) (t : ndarray A) : result (ndarray A) :=
  match shape t with
  | [] => Raise IndexError
  | s0 :: rest =>
      if s0 mod repeats =? 0 then
        let b := s0 / repeats in
        Ok (mkArr (b :: repeats :: rest)
              (gather (numel rest) (pairs_major b repeats (fun bi si => si * b + bi)) (data t)))
      else Raise (RuntimeError "shape is invalid for input of this size")
  end.

Definition lift_arr (f : forall A : Type, ndarray A -> result (ndarray A)) (t : Tensor F)
  : result (Tensor F) :=
  match t with
  | TBool a => (let? r := f bool a in Ok (TBool r))%result
  | TLong a => (let? r := f Z a in Ok (TLong r))%result
  | TFloat a => (let? r := f F a in Ok (TFloat r))%result
  end.

Definition batchify_shape (repeats : nat) (s : list nat) : result (list nat) :=
  match s with
  | [] => Raise IndexError
  | s0 :: rest => Ok (s0 * repeats :: rest)
  end.

Definition unbatchify_shape (repeats : nat) (s : list nat) : result (list nat) :=
  match s with
  | [] => Raise IndexError
  | s0 :: rest =>
      if s0 mod repeats =? 0 then Ok (s0 / repeats :: repeats :: rest)
      else Raise (RuntimeError "shape is invalid for input of this size")
  end.

Definition map_fields (f : Tensor F -> result (Tensor F)) (l : list (string * Tensor F))
  : result (list (string * Tensor F)) :=
  mapM (fun kv => (let? v := f (snd kv) in Ok (fst kv, v))%result) l.

(** Modelled from the spec: on an instance-batch state, [batchify] and
    [unbatchify] act on the batch size and on every field alike. *)
Definition batchify_td_single (repeats : nat) (td : TensorDict) : result TensorDict :=
  (let? bs := batchify_shape repeats (batch_size td) in
   let? fs := map_fields (lift_arr (fun A => @batchify_arr A repeats)) (fields td) in
   Ok (mkTD bs fs))%result.

Definition unbatchify_td_single (repeats : nat) (td : TensorDict) : result TensorDict :=
  (let? bs := unbatchify_shape repeats (batch_size td) in
   let? fs := map_fields (lift_arr (fun A => @unbatchify_arr A repeats)) (fields td) in
   Ok (mkTD bs fs))%result.

(** Modelled from the spec: lines 126 and 147 of the decoder state that
    [batchify] and [unbatchify] have no effect if [num_starts] is 0. *)
Definition batchify {A : Type} (x : ndarray A) (num_starts : Z) : result (ndarray A) :=
  if (0 <? num_starts)%Z then batchify_arr (Z.to_nat num_starts) x else Ok x.

Definition unbatchify {A : Type} (x : ndarray A) (num_starts : Z) : result (ndarray A) :=
  if (0 <? num_starts)%Z then unbatchify_arr (Z.to_nat num_starts) x else Ok x.

Definition batchify_td (td : TensorDict) (num_starts : Z) : result TensorDict :=
  if (0 <? num_starts)%Z then batchify_td_single (Z.to_nat num_starts) td else Ok td.

Definition unbatchify_td (td : TensorDict) (num_starts : Z) : result TensorDict :=
  if (0 <? num_starts)%Z then unbatchify_td_single (Z.to_nat num_starts) td else Ok td.

(** ** The decoder and its collaborators *)

Record PrecomputedCache : Type := mkCache {
  node_embeddings : ndarray F;
  graph_context : ndarray F;
  glimpse_key : ndarray F;
  glimpse_val : ndarray F;
  logit_key : ndarray F
}.

(** The environment: [env.name], [env.step(td)["next"]] and
    [env.get_reward(td, actions)]. *)
Record Env : Type := mkEnv {
  env_name : string;
  env_step_next : TensorDict -> result TensorDict;
  env_get_reward : TensorDict -> ndarray Z -> result (Tensor F)
}.

Definition ContextEmbedding : Type := ndarray F -> TensorDict -> result (ndarray F).
Definition DynamicEmbedding : Type := TensorDict -> result (ndarray F * ndarray F * ndarray F).
Definition LogitAttention : Type :=
  ndarray F -> ndarray F -> ndarray F -> ndarray F -> Tensor F -> option F -> result (ndarray F).

(** The names [forward] uses from other modules of the repository. *)
Record Imports : Type := mkImports {
  env_context_embedding : string -> nat -> ContextEmbedding;
  env_dynamic_embedding : string -> nat -> DynamicEmbedding;
  new_LogitAttention : nat -> nat -> LogitAttention;
  decode_probs : ndarray F -> Tensor F -> string -> result (ndarray Z);
  select_start_nodes : TensorDict -> Z -> Env -> result (ndarray Z)
}.

Record Decoder : Type := mkDecoder {
  env : Env;
  embedding_dim : nat;
  num_heads : nat;
  context : ContextEmbedding;
  dynamic_embedding : DynamicEmbedding;
  project_node_embeddings : Linear F;
  project_fixed_context : Linear F;
  logit_attention : LogitAttention
}.

(** [Decoder.__init__] (lines 33-58). The initial weights of the two
    linear layers are the arguments [w_node] and [w_context]. *)
Definition Decoder_init (imp : Imports) (e : Env) (embedding_dim num_heads : nat)
    (w_node w_context : nat -> nat -> F) : result Decoder :=
  if num_heads =? 0 then Raise ZeroDivisionError
  else if negb (embedding_dim mod num_heads =? 0) then Raise (AssertionError "")
  else
    Ok (mkDecoder e embedding_dim num_heads
          (env_context_embedding imp (env_name e) embedding_dim)
          (env_dynamic_embedding imp (env_name e) embedding_dim)
          (nn_Linear embedding_dim (3 * embedding_dim) w_node)
          (nn_Linear embedding_dim embedding_dim w_context)
          (new_LogitAttention imp embedding_dim num_heads)).

(** [Decoder._precompute] (lines 118-142) *)
Definition _precompute (self : Decoder) (embeddings : ndarray F) (num_starts : Z)
  : result PrecomputedCache :=
  (let? projected := apply_linear (project_node_embeddings self) embeddings in
   let? chunks := torch_chunk_last 3 projected in
   let? (glimpse_key_fixed, glimpse_val_fixed, logit_key_fixed) := unpack3 chunks in
   let? mean := mean1 embeddings in
   let? fixed_context := apply_linear (project_fixed_context self) mean in
   let? batched := batchify fixed_context num_starts in
   let? graph_context := unbatchify batched num_starts in
   Ok (mkCache embeddings graph_context glimpse_key_fixed glimpse_val_fixed logit_key_fixed))%result.

End TensorDicts.

Arguments TensorDict F : clear implicits.
Arguments PrecomputedCache F : clear implicits.
Arguments Env F : clear implicits.
Arguments Imports F : clear implicits.
Arguments Decoder F : clear implicits.

(** ** The frame of [forward] and its monad *)

(** The calls [forward] makes, in the order it makes them. *)
Inductive event : Type :=
| EvPrecompute
| EvSelectStartNodes
| EvBatchify
| EvEnvStep
| EvGetLogP
| EvDecodeProbs
| EvStack
| EvGetReward.

Definition event_eq_dec (a b : event) : {a = b} + {a <> b}.
Proof. decide equality. Defined.

Section Forward.

Context {F : Type} {SO : ScalarOps F}.

(** The local variables [td], [cached_embeds], [outputs] and [actions] of
    [forward], and the trace of the calls made so far. *)
Record frame : Type := mkFrame {
  f_td : TensorDict F;
  f_cached : option (PrecomputedCache F);
  f_outputs : list (Tensor F);
  f_actions : list (ndarray Z);
  f_trace : list event
}.

Definition M (A : Type) : Type := frame -> result A * frame.

Definition ret {A : Type} (a : A) : M A := fun fr => (Ok a, fr).

Definition bind {A B : Type} (m : M A) (k : A -> M B) : M B :=
  fun fr =>
    match m fr with
    | (Ok a, fr') => k a fr'
    | (Raise e, fr') => (Raise e, fr')
    | (OutOfFuel, fr') => (OutOfFuel, fr')
    end.

Definition lift {A : Type} (r : result A) : M A := fun fr => (r, fr).

Definition log (e : event) : M unit :=
  fun fr => (Ok tt, mkFrame (f_td fr) (f_cached fr) (f_outputs fr) (f_actions fr)
                      (f_trace fr ++ [e])).

Definition read_td : M (TensorDict F) := fun fr => (Ok (f_td fr), fr).

Definition write_td (td : TensorDict F) : M unit :=
  fun fr => (Ok tt, mkFrame td (f_cached fr) (f_outputs fr) (f_actions fr) (f_trace fr)).

Definition read_cached : M (PrecomputedCache F) :=
  fun fr => match f_cached fr with
            | Some c => (Ok c, fr)
            | None => (Raise UnboundLocalError, fr)
            end.

Definition write_cached (c : PrecomputedCache F) : M unit :=
  fun fr => (Ok tt, mkFrame (f_td fr) (Some c) (f_outputs fr) (f_actions fr) (f_trace fr)).

(** [outputs.append(log_p)] and [actions.append(action)] *)
Definition append_output (log_p : Tensor F) : M unit :=
  fun fr => (Ok tt, mkFrame (f_td fr) (f_cached fr) (f_outputs fr ++ [log_p]) (f_actions fr)
                      (f_trace fr)).

Definition append_action (action : ndarray Z) : M unit :=
  fun fr => (Ok tt, mkFrame (f_td fr) (f_cached fr) (f_outputs fr) (f_actions fr ++ [action])
                      (f_trace fr)).

Definition read_outputs : M (list (Tensor F)) := fun fr => (Ok (f_outputs fr), fr).
Definition read_actions : M (list (ndarray Z)) := fun fr => (Ok (f_actions fr), fr).

Declare Scope frame_scope.
Delimit Scope frame_scope with frame.
Notation "x <- m ;; k" := (bind m (fun x => k))
  (at level 61, m at next level, right associativity) : frame_scope.
Notation "' pat <- m ;; k" := (bind m (fun x => match x with pat => k end))
  (at level 61, pat pattern, m at next level, right associativity) : frame_scope.
Notation "m ;; k" := (bind m (fun _ => k))
  (at level 61, right associativity) : frame_scope.

Local Open Scope frame_scope.

(** A call that is recorded in the trace before it is performed. *)
Definition call {A : Type} (e : event) (r : result A) : M A := log e ;; lift r.

(** ** [Decoder._get_log_p] (lines 144-176)

    The method receives the cache and the state of its caller by
    reference: it runs in the caller's frame, which it could write to. *)

(** Lines 145-170: the scores and the mask before the fold. *)
Definition _get_log_p_scores (self : Decoder F) (cached : PrecomputedCache F)
    (td : TensorDict F) (softmax_temp : option F) (num_starts : Z)
  : M (ndarray F * Tensor F) :=
  td_unbatch <- lift (unbatchify_td td num_starts) ;;
  step_context <- lift (context self (node_embeddings cached) td_unbatch) ;;
  glimpse_q <- lift (torch_add step_context (graph_context cached)) ;;
  glimpse_q <- (if ndim glimpse_q =? 2 then lift (unsqueeze1 glimpse_q) else ret glimpse_q) ;;
  '(glimpse_key_dynamic, glimpse_val_dynamic, logit_key_dynamic) <-
    lift (dynamic_embedding self td_unbatch) ;;
  glimpse_k <- lift (torch_add (glimpse_key cached) glimpse_key_dynamic) ;;
  glimpse_v <- lift (torch_add (glimpse_val cached) glimpse_val_dynamic) ;;
  logit_k <- lift (torch_add (logit_key cached) logit_key_dynamic) ;;
  action_mask <- lift (td_get "action_mask" td_unbatch) ;;
  mask <- lift (invert action_mask) ;;
  log_p <- lift (logit_attention self glimpse_q glimpse_k glimpse_v logit_k mask softmax_temp) ;;
  ret (log_p, mask).

(** Lines 172-176: the fold of the starts into the batch. *)
Definition _get_log_p (self : Decoder F) (cached : PrecomputedCache F)
    (td : TensorDict F) (softmax_temp : option F) (num_starts : Z)
  : M (ndarray F * Tensor F) :=
  '(log_p, mask) <- _get_log_p_scores self cached td softmax_temp num_starts ;;
  log_p <- (if (1 <? num_starts)%Z then lift (rearrange_bsl_sbl log_p) else ret log_p) ;;
  mask <- (if (1 <? num_starts)%Z then lift (trearrange_bsl_sbl mask) else ret mask) ;;
  ret (log_p, mask).

(** ** [Decoder.forward] (lines 60-116) *)

(** Python's [sub in s] on strings. *)
Definition py_in (sub s : string) : bool :=
  match index 0 sub s with Some _ => true | None => false end.

(** Line 70 *)
Definition normalize_num_starts (num_starts : option Z) : Z :=
  match num_starts with None => 0%Z | Some n => n end.

(** Lines 84-96: the first action of every rollout. *)
Definition multistart_seed (imp : Imports F) (self : Decoder F) (num_starts : Z) : M unit :=
  td <- read_td ;;
  action <- call EvSelectStartNodes (select_start_nodes imp td num_starts (env self)) ;;
  td <- call EvBatchify (batchify_td td num_starts) ;;
  write_td td ;;
  td <- lift (td_set "action" (TLong action) td) ;;
  write_td td ;;
  td <- call EvEnvStep (env_step_next (env self) td) ;;
  write_td td ;;
  action_mask <- lift (td_get "action_mask" td) ;;
  append_output (zeros_like action_mask) ;;
  append_action action.

(** Line 99: [not td["done"].all()] *)
Definition loop_condition : M bool :=
  td <- read_td ;;
  done <- lift (td_get "done" td) ;;
  ret (negb (torch_all done)).

(** Lines 100-110: one iteration. *)
Definition loop_body (imp : Imports F) (self : Decoder F) (decode_type : string)
    (softmax_temp : option F) (num_starts : Z) : M unit :=
  cached_embeds <- read_cached ;;
  td <- read_td ;;
  log EvGetLogP ;;
  '(log_p, mask) <- _get_log_p self cached_embeds td softmax_temp num_starts ;;
  action <- call EvDecodeProbs (decode_probs imp (amap fexp log_p) mask decode_type) ;;
  td <- lift (td_set "action" (TLong action) td) ;;
  write_td td ;;
  td <- call EvEnvStep (env_step_next (env self) td) ;;
  write_td td ;;
  append_output (TFloat log_p) ;;
  append_action action.

(** Lines 99-110: the loop, cut after [fuel] iterations. *)
Fixpoint main_loop (imp : Imports F) (self : Decoder F) (decode_type : string)
    (softmax_temp : option F) (num_starts : Z) (fuel : nat) : M unit :=
  continue <- loop_condition ;;
  if continue : bool then
    match fuel with
    | O => lift OutOfFuel
    | S fuel' =>
        loop_body imp self decode_type softmax_temp num_starts ;;
        main_loop imp self decode_type softmax_temp num_starts fuel'
    end
  else ret tt.

(** Lines 112-116 *)
Definition finish (self : Decoder F) (calc_reward : bool)
  : M (Tensor F * ndarray Z * TensorDict F) :=
  outputs <- read_outputs ;;
  actions <- read_actions ;;
  log EvStack ;;
  outputs <- lift (torch_stack1 outputs) ;;
  actions <- lift (stack1 actions) ;;
  (if calc_reward then
     td <- read_td ;;
     reward <- call EvGetReward (env_get_reward (env self) td actions) ;;
     td <- lift (td_set "reward" reward td) ;;
     write_td td
   else ret tt) ;;
  td <- read_td ;;
  ret (outputs, actions, td).

Definition forward_body (imp : Imports F) (self : Decoder F) (fuel : nat)
    (embeddings : ndarray F) (decode_type : string) (softmax_temp : option F)
    (num_starts : option Z) (calc_reward : bool)
  : M (Tensor F * ndarray Z * TensorDict F) :=
  let num_starts := normalize_num_starts num_starts in
  (if py_in "multistart" decode_type && (num_starts <=? 1)%Z
   then lift (Raise (AssertionError "Multi-start decoding requires `num_starts` > 1"))
   else ret tt) ;;
  cached_embeds <- call EvPrecompute (_precompute self embeddings num_starts) ;;
  write_cached cached_embeds ;;
  (if (1 <? num_starts)%Z || py_in "multistart" decode_type
   then multistart_seed imp self num_starts
   else ret tt) ;;
  main_loop imp self decode_type softmax_temp num_starts fuel ;;
  finish self calc_reward.

(** The frame at the entry of [forward]. *)
Definition init_frame (td : TensorDict F) : frame := mkFrame td None [] [] [].

Definition forward (imp : Imports F) (self : Decoder F) (fuel : nat)
    (td : TensorDict F) (embeddings : ndarray F) (decode_type : string)
    (softmax_temp : option F) (num_starts : option Z) (calc_reward : bool)
  : result (Tensor F * ndarray Z * TensorDict F) * frame :=
  forward_body imp self fuel embeddings decode_type softmax_temp num_starts calc_reward
    (init_frame td).

(** The number of iterations of the main loop a trace records. *)
Definition loop_iterations (tr : list event) : nat := count_occ event_eq_dec tr EvGetLogP.

End Forward.

(** ** A toy instance

    Integer scalars and a small routing environment on which the decoder
    can be run: every node may be visited once, and an instance is done
    when none is left. *)

Module Toy.

#[export] Instance Z_scalars : ScalarOps Z := {|
  fzero := 0%Z;
  fone := 1%Z;
  fadd := Z.add;
  fmul := Z.mul;
  fdiv := Z.div;
  fexp := fun z => z;
  f_of_Z := fun z => z;
  f_to_Z := fun z => z;
  f_nonzero := fun z => negb (Z.eqb z 0)
|}.

Definition last_dim (s : list nat) : nat := last s 1.

(** Visiting node [action] of every row removes it from the legal nodes:
    cell [k] of the mask is node [k mod n] of row [k / n]. *)
Definition step (td : TensorDict Z) : result (TensorDict Z) :=
  (let? am := td_get "action_mask" td in
   let? act := td_get "action" td in
   match am, act with
   | TBool m, TLong a =>
       let n := last_dim (shape m) in
       let m' :=
         mkArr (shape m)
           (map (fun k => nth k (data m) false
                          && negb (Z.eqb (Z.of_nat (k mod n)) (nth (k / n) (data a) 0%Z)))
              (seq 0 (numel (shape m)))) in
       let done :=
         mkArr (batch_size td)
           (map (fun r => forallb negb (chunk n r (data m')))
              (seq 0 (numel (batch_size td)))) in
       Ok (mkTD (batch_size td)
             (assoc_set "done" (TBool done) (assoc_set "action_mask" (TBool m') (fields td))))
   | _, _ => Raise TypeError
   end)%result.

Definition get_reward (td : TensorDict Z) (actions : ndarray Z) : result (Tensor Z) :=
  Ok (TFloat (mkArr (batch_size td) (repeat 0%Z (numel (batch_size td))))).

Definition toy_env : Env Z := mkEnv "toy" step get_reward.

(** The step context is zero, of shape batch size followed by the width. *)
Definition toy_context (dim : nat) : ContextEmbedding :=
  fun _ td => Ok (mkArr (batch_size td ++ [dim]) (repeat 0%Z (numel (batch_size td) * dim))).

(** A static environment: the three corrections are the number 0. *)
Definition toy_dynamic : DynamicEmbedding :=
  fun _ => Ok (mkArr [] [0%Z], mkArr [] [0%Z], mkArr [] [0%Z]).

(** Scores of the shape of the mask: forbidden nodes are far below 0. *)
Definition toy_attention : LogitAttention :=
  fun _ _ _ _ mask _ =>
    Ok (mkArr (tshape mask)
          (map (fun k => if nth k (data (as_bool mask)) false then (-1000)%Z else 0%Z)
             (seq 0 (numel (tshape mask))))).

Fixpoint first_false (l : list bool) : nat :=
  match l with
  | [] => 0
  | b :: l' => if b then S (first_false l') else 0
  end.

(** Greedy selection: the first node that is not forbidden, row by row. *)
Definition toy_decode_probs (probs : ndarray Z) (mask : Tensor Z) (decode_type : string)
  : result (ndarray Z) :=
  let n := last_dim (tshape mask) in
  let rows := numel (removelast (tshape mask)) in
  Ok (mkArr [rows]
        (map (fun r => Z.of_nat (first_false (chunk n r (data (as_bool mask))))) (seq 0 rows))).

(** Rollout [s] of every instance starts at node [s]. *)
Definition toy_select_start_nodes (td : TensorDict Z) (num_starts : Z) (e : Env Z)
  : result (ndarray Z) :=
  let b := hd 0 (batch_size td) in
  let k := Z.to_nat num_starts in
  Ok (mkArr [k * b] (pairs_major k b (fun s _ => Z.of_nat s))).

Definition toy_imports : Imports Z :=
  mkImports (fun _ dim => toy_context dim) (fun _ _ => toy_dynamic) (fun _ _ => toy_attention)
    toy_decode_probs toy_select_start_nodes.

(** [Decoder(toy_env, embedding_dim=2, num_heads=1)] with weights
    [w j i = j + i + 1] and [w j i = j - i]. *)
Definition toy_decoder : Decoder Z :=
  mkDecoder toy_env 2 1 (toy_context 2) toy_dynamic
    (nn_Linear 2 6 (fun j i => Z.of_nat (j + i + 1)))
    (nn_Linear 2 2 (fun j i => (Z.of_nat j - Z.of_nat i)%Z))
    toy_attention.

(** Two instances of three nodes each, all nodes legal, none done. *)
Definition toy_td : TensorDict Z :=
  mkTD [2] [("action_mask"%string, TBool (mkArr [2; 3] (repeat true 6)));
            ("done"%string, TBool (mkArr [2] [false; false]))].

Definition toy_embeddings : ndarray Z :=
  mkArr [2; 3; 2] [1; 2; 3; 4; 5; 6; 7; 8; 9; 10; 11; 12]%Z.

(** The cache of the two instances for [num_starts] starts. *)
Definition toy_cache (num_starts : Z) : PrecomputedCache Z :=
  match _precompute toy_decoder toy_embeddings num_starts with
  | Ok c => c
  | _ => mkCache toy_embeddings toy_embeddings toy_embeddings toy_embeddings toy_embeddings
  end.

(** The frame at the entry of the main loop after seeding three starts. *)
Definition toy_frame_starts : frame :=
  snd (multistart_seed toy_imports toy_decoder 3
         (mkFrame toy_td (Some (toy_cache 3)) [] [] [EvPrecompute])).

(** The two instances once every node was visited. *)
Definition toy_td_done : TensorDict Z :=
  mkTD [2] [("action_mask"%string, TBool (mkArr [2; 3] (repeat false 6)));
            ("done"%string, TBool (mkArr [2] [true; true]))].

(** The two instances before the environment was reset: no [done] flag. *)
Definition toy_td_unset : TensorDict Z :=
  mkTD [2] [("action_mask"%string, TBool (mkArr [2; 3] (repeat true 6)))].

(** One instance of two nodes with no legal node left, not yet flagged
    as done. *)
Definition toy_td_spent : TensorDict Z :=
  mkTD [1] [("action_mask"%string, TBool (mkArr [1; 2] [false; false]));
            ("done"%string, TBool (mkArr [1] [false]))].

(** Embeddings of width 3 for the two instances. *)
Definition toy_embeddings_wide : ndarray Z := mkArr [2; 3; 3] (repeat 1%Z 18).

(** Embeddings of the one instance of two nodes. *)
Definition toy_embeddings_spent : ndarray Z := mkArr [1; 2; 2] [1; 2; 3; 4]%Z.

End Toy.

(** ** Vocabulary of the statements *)

Section Vocabulary.

Context {F : Type} {SO : ScalarOps F}.

(** A computation that leaves the frame as it found it, whatever its
    outcome. *)
Definition readonly {A : Type} (m : M A) : Prop :=
  forall fr : @frame F, snd (m fr) = fr.

(** A computation whose outcome does not depend on the frame and that
    leaves it as it found it. *)
Definition frame_free {A : Type} (m : M A) : Prop :=
  exists r, forall fr : @frame F, m fr = (r, fr).

(** A relation between the frame before and after a computation that
    holds whatever the outcome. *)
Definition respects (R : @frame F -> @frame F -> Prop) {A : Type} (m : M A) : Prop :=
  forall fr, R fr (snd (m fr)).

(** The cache is the same before and after. *)
Definition same_cache (fr fr' : @frame F) : Prop := f_cached fr' = f_cached fr.

(** The trace grew by events that satisfy [P]. *)
Definition trace_grows (P : event -> Prop) (fr fr' : @frame F) : Prop :=
  exists evs, f_trace fr' = f_trace fr ++ evs /\ Forall P evs.

(** The events of a decode without seeding. *)
Definition not_seeding (e : event) : Prop := e <> EvSelectStartNodes /\ e <> EvBatchify.

(** The frame once the call [e] is recorded. *)
Definition logged (e : event) (fr : @frame F) : frame :=
  mkFrame (f_td fr) (f_cached fr) (f_outputs fr) (f_actions fr) (f_trace fr ++ [e]).

(** The frame after an iteration that scored [log_p], selected [action]
    and moved to the state [td']. *)
Definition after_iteration (fr : @frame F) (log_p : ndarray F) (action : ndarray Z)
    (td' : TensorDict F) : frame :=
  mkFrame td' (f_cached fr) (f_outputs fr ++ [TFloat log_p]) (f_actions fr ++ [action])
    (f_trace fr ++ [EvGetLogP; EvDecodeProbs; EvEnvStep]).

(** One iteration that ends well: [action] is selected from the scores
    and the mask of the current state, written into it and applied. *)
Definition iteration (imp : Imports F) (self : Decoder F) (decode_type : string)
    (softmax_temp : option F) (num_starts : Z)
    (fr : frame) (log_p : ndarray F) (action : ndarray Z) (fr' : frame) : Prop :=
  exists cached mask td_action td',
    f_cached fr = Some cached /\
    _get_log_p self cached (f_td fr) softmax_temp num_starts fr = (Ok (log_p, mask), fr) /\
    decode_probs imp (amap fexp log_p) mask decode_type = Ok action /\
    td_set "action" (TLong action) (f_td fr) = Ok td_action /\
    env_step_next (env self) td_action = Ok td' /\
    fr' = after_iteration fr log_p action td'.

(** [loop_run fr steps fr']: from [fr] the loop makes the iterations
    [steps], each with its scores and its action, and stops in [fr'] with
    every instance done. *)
Inductive loop_run (imp : Imports F) (self : Decoder F) (decode_type : string)
    (softmax_temp : option F) (num_starts : Z)
  : frame -> list (ndarray F * ndarray Z) -> frame -> Prop :=
| run_done (fr : frame) :
    loop_condition fr = (Ok false, fr) ->
    loop_run imp self decode_type softmax_temp num_starts fr [] fr
| run_step (fr fr1 fr' : frame) (log_p : ndarray F) (action : ndarray Z)
      (steps : list (ndarray F * ndarray Z)) :
    loop_condition fr = (Ok true, fr) ->
    iteration imp self decode_type softmax_temp num_starts fr log_p action fr1 ->
    loop_run imp self decode_type softmax_temp num_starts fr1 steps fr' ->
    loop_run imp self decode_type softmax_temp num_starts fr ((log_p, action) :: steps) fr'.

(** [reaches fr fr']: some iterations of the main loop lead from [fr]
    to [fr']. *)
Inductive reaches (imp : Imports F) (self : Decoder F) (dt : string) (temp : option F) (n : Z)
  : @frame F -> @frame F -> Prop :=
| reaches_here (fr : frame) : reaches imp self dt temp n fr fr
| reaches_next (fr fr1 fr' : frame) (lp : ndarray F) (action : ndarray Z) :
    iteration imp self dt temp n fr lp action fr1 ->
    reaches imp self dt temp n fr1 fr' ->
    reaches imp self dt temp n fr fr'.

(** The collaborators return well-formed tensors. *)
Record returns_wf (imp : Imports F) (self : Decoder F) : Prop := {
  wf_attention : forall q k v lk m t lp,
    logit_attention self q k v lk m t = Ok lp -> wf_array lp;
  wf_decode : forall p m dt a, decode_probs imp p m dt = Ok a -> wf_array a;
  wf_select : forall td ns e a, select_start_nodes imp td ns e = Ok a -> wf_array a;
  wf_step : forall td td' am,
    env_step_next (env self) td = Ok td' -> td_get "action_mask" td' = Ok am -> twf am
}.

(** The attention unit scores every cell of the mask; the environment
    keeps the batch size and the shape and dtype of the action mask;
    actions are vectors. *)
Record keeps_shapes (imp : Imports F) (self : Decoder F) : Prop := {
  shape_attention : forall q k v lk m t lp,
    logit_attention self q k v lk m t = Ok lp -> shape lp = tshape m;
  shape_step : forall td td',
    env_step_next (env self) td = Ok td' ->
    batch_size td' = batch_size td /\
    forall am, td_get "action_mask" td = Ok am ->
      exists am', td_get "action_mask" td' = Ok am' /\ tshape am' = tshape am /\
                  dtype_of am' = dtype_of am;
  shape_decode : forall p m dt a, decode_probs imp p m dt = Ok a -> ndim a = 1;
  shape_select : forall td ns e a, select_start_nodes imp td ns e = Ok a -> ndim a = 1
}.

(** The frame of [forward] once [_precompute] returned [c]. *)
Definition after_precompute (td : TensorDict F) (c : PrecomputedCache F) : @frame F :=
  mkFrame td (Some c) [] [] [EvPrecompute].

(** Line 83 *)
Definition seeding (decode_type : string) (num_starts : Z) : bool :=
  (1 <? num_starts)%Z || py_in "multistart" decode_type.

(** The shape of the scores and of the mask that [_get_log_p] returns
    for a state of [R] rows and [N] nodes. *)
Definition scores_shape (num_starts : Z) (R N : nat) : list nat :=
  if (num_starts =? 1)%Z then [R; 1; N] else [R; N].

(** A state of [R] rows whose action mask has [N] nodes per row. *)
Definition state_ok (R N : nat) (td : TensorDict F) : Prop :=
  batch_size td = [R] /\
  exists am, td_get "action_mask" td = Ok am /\ tshape am = [R; N] /\ dtype_of am = DBool.

(** One start per rollout, [k] for each of [B] instances, pairwise
    distinct within an instance; rollout [s] of instance [b] is entry
    [s * B + b], the layout of the expanded batch. *)
Definition distinct_starts (B k : nat) (action : ndarray Z) : Prop :=
  shape action = [k * B] /\
  forall b s1 s2, b < B -> s1 < k -> s2 < k -> s1 <> s2 ->
    nth (s1 * B + b) (data action) 0%Z <> nth (s2 * B + b) (data action) 0%Z.

(** Modelled from the spec: [select_start_nodes] of [rl4co.utils.ops] is
    not among the sources. The spec has this seeding policy map a state,
    [num_starts] and the environment to the initial actions, one distinct
    candidate per rollout of every instance. *)
Definition seeding_policy_ok (imp : Imports F) : Prop :=
  forall td n e action B,
    batch_size td = [B] ->
    select_start_nodes imp td n e = Ok action ->
    distinct_starts B (Z.to_nat n) action.

(** The number of calls of [select_start_nodes] a frame records. *)
Definition selections (fr : @frame F) : nat :=
  count_occ event_eq_dec (f_trace fr) EvSelectStartNodes.

(** No start node was selected in between. *)
Definition same_selections (fr fr' : @frame F) : Prop := selections fr' = selections fr.

End Vocabulary.

Arguments readonly F {A} m.
Arguments frame_free F {A} m.
Arguments same_cache : clear implicits.
Arguments trace_grows : clear implicits.
Arguments same_selections : clear implicits.

(** The calls of a completed [forward], in order: [_precompute]; with
    seeding the selection of the start nodes, [batchify] and the
    transition of the seed action; per iteration [_get_log_p],
    [decode_probs] and the transition; the stacking; the reward. *)
Definition forward_calls (seeded : bool) (iterations : nat) (calc_reward : bool) : list event :=
  [EvPrecompute]
  ++ (if seeded then [EvSelectStartNodes; EvBatchify; EvEnvStep] else [])
  ++ concat (repeat [EvGetLogP; EvDecodeProbs; EvEnvStep] iterations)
  ++ [EvStack]
  ++ (if calc_reward then [EvGetReward] else []).

(** * Properties *)

(** ** Blocks of a list *)

Section Blocks.

Context {A : Type}.

Lemma firstn_add (a b : nat) (l : list A) :
  firstn (a + b) l = firstn a l ++ firstn b (skipn a l).
Proof.
  revert l; induction a as [|a IH]; intros l; simpl.
  - reflexivity.
  - destruct l as [|x l]; simpl.
    + now rewrite firstn_nil.
    + now rewrite IH.
Qed.

Lemma length_chunk (r i : nat) (l : list A) :
  (i + 1) * r <= length l -> length (chunk r i l) = r.
Proof.
  intros H. unfold chunk. rewrite length_firstn, length_skipn. lia.
Qed.

Lemma nth_chunk (r i j : nat) (l : list A) (d : A) :
  j < r -> nth j (chunk r i l) d = nth (i * r + j) l d.
Proof.
  intros H. unfold chunk. rewrite nth_firstn.
  destruct (j <? r) eqn:E.
  - apply nth_skipn.
  - apply Nat.ltb_ge in E. lia.
Qed.

Lemma chunk_app_first (r : nat) (x y : list A) :
  length x = r -> chunk r 0 (x ++ y) = x.
Proof.
  intros H. unfold chunk. simpl. rewrite firstn_app, H, Nat.sub_diag. simpl.
  rewrite app_nil_r. apply firstn_all2. lia.
Qed.

Lemma chunk_app_next (r i : nat) (x y : list A) :
  length x = r -> chunk r (S i) (x ++ y) = chunk r i y.
Proof.
  intros H. unfold chunk. f_equal.
  rewrite skipn_app, H.
  replace (S i * r - r) with (i * r) by lia.
  rewrite skipn_all2 by lia. reflexivity.
Qed.

(** In a concatenation of blocks of one length, the [j]-th block is the
    [j]-th summand. *)
Lemma chunk_flat_map {B : Type} (f : B -> list A) (r : nat) (idxs : list B) (j : nat) (d : B) :
  Forall (fun i => length (f i) = r) idxs ->
  j < length idxs ->
  chunk r j (flat_map f idxs) = f (nth j idxs d).
Proof.
  intros Hall. revert j. induction Hall as [|x l Hx Hl IH]; intros j Hj; simpl in *.
  - lia.
  - destruct j as [|j].
    + now apply chunk_app_first.
    + rewrite chunk_app_next by assumption. apply IH. lia.
Qed.

Lemma chunk_chunk (r t i j : nat) (l : list A) :
  j < t -> chunk r j (chunk (t * r) i l) = chunk r (i * t + j) l.
Proof.
  intros Hj. unfold chunk.
  rewrite skipn_firstn_comm, firstn_firstn, skipn_skipn.
  replace (Nat.min r (t * r - j * r)) with r by nia.
  f_equal. f_equal. nia.
Qed.

(** The first [n] blocks, put side by side, are a prefix of the list. *)
Lemma gather_seq_firstn (r n : nat) (l : list A) :
  gather r (seq 0 n) l = firstn (n * r) l.
Proof.
  unfold gather. induction n as [|n IH].
  - reflexivity.
  - rewrite seq_S, flat_map_app, IH. simpl. rewrite app_nil_r.
    replace (r + n * r) with (n * r + r) by lia.
    now rewrite firstn_add.
Qed.

Lemma gather_seq_all (r n : nat) (l : list A) :
  length l = n * r -> gather r (seq 0 n) l = l.
Proof.
  intros H. rewrite gather_seq_firstn. apply firstn_all2. lia.
Qed.

Lemma length_pairs_major {B : Type} (n m : nat) (f : nat -> nat -> B) :
  length (pairs_major n m f) = n * m.
Proof.
  unfold pairs_major. induction n as [|n IH].
  - reflexivity.
  - rewrite seq_S, flat_map_app, length_app, IH. simpl.
    rewrite app_nil_r, length_map, length_seq. lia.
Qed.

End Blocks.

Lemma pairs_major_S {B : Type} (n m : nat) (f : nat -> nat -> B) :
  pairs_major (S n) m f = pairs_major n m f ++ map (fun j => f n j) (seq 0 m).
Proof.
  unfold pairs_major. rewrite seq_S, flat_map_app. simpl. now rewrite app_nil_r.
Qed.

Lemma nth_pairs_major {B : Type} (n m : nat) (f : nat -> nat -> B) (i j : nat) (d : B) :
  i < n -> j < m -> nth (i * m + j) (pairs_major n m f) d = f i j.
Proof.
  intros Hi Hj. induction n as [|n IH].
  - lia.
  - rewrite pairs_major_S.
    destruct (Nat.eq_dec i n) as [->|Hne].
    + rewrite app_nth2; rewrite length_pairs_major; [|lia].
      replace (n * m + j - n * m) with j by lia.
      rewrite nth_indep with (d' := f n 0) by (rewrite length_map, length_seq; lia).
      rewrite (map_nth (fun j => f n j)), seq_nth by lia. reflexivity.
    + rewrite app_nth1 by (rewrite length_pairs_major; nia).
      apply IH. lia.
Qed.

Lemma map_add_seq (a s m : nat) : map (fun j => a + j) (seq s m) = seq (a + s) m.
Proof.
  revert s. induction m as [|m IH]; intros s; simpl.
  - reflexivity.
  - f_equal. rewrite IH. f_equal. lia.
Qed.

Lemma pairs_major_row_major (n m : nat) :
  pairs_major n m (fun i j => i * m + j) = seq 0 (n * m).
Proof.
  induction n as [|n IH].
  - reflexivity.
  - rewrite pairs_major_S, IH.
    replace (S n * m) with (n * m + m) by lia.
    rewrite seq_app. f_equal. simpl.
    rewrite map_add_seq. f_equal. lia.
Qed.

Lemma map_pairs_major {B C : Type} (g : B -> C) (n m : nat) (f : nat -> nat -> B) :
  map g (pairs_major n m f) = pairs_major n m (fun i j => g (f i j)).
Proof.
  unfold pairs_major. rewrite !flat_map_concat_map, concat_map, map_map. f_equal.
  apply map_ext. intros i. now rewrite map_map.
Qed.

Lemma pairs_major_ext {B : Type} (n m : nat) (f g : nat -> nat -> B) :
  (forall i j, i < n -> j < m -> f i j = g i j) ->
  pairs_major n m f = pairs_major n m g.
Proof.
  intros H. unfold pairs_major. rewrite !flat_map_concat_map. f_equal.
  apply map_ext_in. intros i Hi. apply in_seq in Hi.
  apply map_ext_in. intros j Hj. apply in_seq in Hj. apply H; lia.
Qed.

Lemma Forall_pairs_major {B : Type} (P : B -> Prop) (n m : nat) (f : nat -> nat -> B) :
  (forall i j, i < n -> j < m -> P (f i j)) -> Forall P (pairs_major n m f).
Proof.
  intros H. unfold pairs_major. apply Forall_flat_map, Forall_forall.
  intros i Hi. apply in_seq in Hi. apply Forall_map, Forall_forall.
  intros j Hj. apply in_seq in Hj. apply H; lia.
Qed.

Section Gather.

Context {A : Type}.

Lemma chunk_gather (r : nat) (idxs : list nat) (l : list A) (j : nat) :
  Forall (fun i => (i + 1) * r <= length l) idxs ->
  j < length idxs ->
  chunk r j (gather r idxs l) = chunk r (nth j idxs 0) l.
Proof.
  intros Hall Hj. unfold gather.
  rewrite chunk_flat_map with (r := r) (d := 0); [reflexivity| |assumption].
  eapply Forall_impl; [|exact Hall]. intros i Hi. now apply length_chunk.
Qed.

Lemma length_gather (r : nat) (idxs : list nat) (l : list A) :
  Forall (fun i => (i + 1) * r <= length l) idxs ->
  length (gather r idxs l) = length idxs * r.
Proof.
  intros Hall. unfold gather. induction Hall as [|i idxs Hi _ IH]; simpl.
  - reflexivity.
  - rewrite length_app, IH, length_chunk by assumption. lia.
Qed.

(** Gathering from a gathered list composes the two index lists. *)
Lemma gather_gather (r : nat) (idxs1 idxs2 : list nat) (l : list A) :
  Forall (fun i => (i + 1) * r <= length l) idxs1 ->
  Forall (fun j => j < length idxs1) idxs2 ->
  gather r idxs2 (gather r idxs1 l) = gather r (map (fun j => nth j idxs1 0) idxs2) l.
Proof.
  intros H1 H2. unfold gather at 1 3. rewrite flat_map_concat_map, flat_map_concat_map, map_map.
  f_equal. apply map_ext_in. intros j Hj.
  rewrite Forall_forall in H2. now apply chunk_gather; [|apply H2].
Qed.

End Gather.

(** ** The fold of the starts into the batch *)

Section Fold.

Context {A : Type}.

Lemma rearrange_bsl_sbl_rows (t : ndarray A) (B S L : nat) :
  shape t = [B; S; L] -> wf_array t ->
  exists u, rearrange_bsl_sbl t = Ok u /\ shape u = [S * B; L] /\ wf_array u /\
    forall b s, b < B -> s < S ->
      chunk L (s * B + b) (data u) = chunk L (b * S + s) (data t).
Proof.
  intros Hs Hwf. unfold rearrange_bsl_sbl. rewrite Hs.
  unfold wf_array in Hwf. rewrite Hs in Hwf. simpl in Hwf.
  assert (Hidx : Forall (fun i => (i + 1) * L <= length (data t))
                   (pairs_major S B (fun si bi => bi * S + si))).
  { apply Forall_pairs_major. intros i j Hi Hj. rewrite Hwf.
    assert (j * S + i + 1 <= B * S) by nia.
    rewrite Nat.mul_1_r, Nat.mul_assoc. now apply Nat.mul_le_mono_r. }
  eexists. split; [reflexivity|]. simpl. repeat split.
  - unfold wf_array. simpl. rewrite length_gather by assumption.
    rewrite length_pairs_major. lia.
  - intros b s Hb Hs'. rewrite chunk_gather by (rewrite ?length_pairs_major; auto; nia).
    now rewrite nth_pairs_major.
Qed.

(** Modelled layout of [unbatchify]: entry [(b, s)] is row [s * B + b]. *)
Lemma unbatchify_arr_rows (t : ndarray A) (k R : nat) (rest : list nat) :
  shape t = R :: rest -> wf_array t -> R mod k = 0 -> 0 < k ->
  exists u, unbatchify_arr k t = Ok u /\ shape u = R / k :: k :: rest /\ wf_array u /\
    forall b s, b < R / k -> s < k ->
      chunk (numel rest) (b * k + s) (data u) = chunk (numel rest) (s * (R / k) + b) (data t).
Proof.
  intros Hs Hwf Hmod Hk. unfold unbatchify_arr. rewrite Hs, Hmod. simpl.
  unfold wf_array in Hwf. rewrite Hs in Hwf. simpl in Hwf.
  assert (HR : R = k * (R / k)).
  { apply Nat.Div0.div_exact. assumption. }
  set (B := R / k) in *.
  assert (Hidx : Forall (fun i => (i + 1) * numel rest <= length (data t))
                   (pairs_major B k (fun bi si => si * B + bi))).
  { apply Forall_pairs_major. intros i j Hi Hj. rewrite Hwf.
    assert (j * B + i + 1 <= R) by nia.
    now apply Nat.mul_le_mono_r. }
  eexists. split; [reflexivity|]. simpl. repeat split.
  - unfold wf_array. simpl. rewrite length_gather by assumption.
    rewrite length_pairs_major. nia.
  - intros b s Hb Hs'. rewrite chunk_gather by (rewrite ?length_pairs_major; auto; nia).
    now rewrite nth_pairs_major.
Qed.

(** Folding an unbatchified tensor gives the storage back. *)
Lemma fold_unbatchify_data (t u : ndarray A) (k R N : nat) :
  shape t = [R; N] -> wf_array t -> 0 < k ->
  unbatchify_arr k t = Ok u ->
  exists v, rearrange_bsl_sbl u = Ok v /\ v = t.
Proof.
  intros Hs Hwf Hk Hu. unfold unbatchify_arr in Hu. rewrite Hs in Hu.
  destruct (R mod k =? 0) eqn:Hmod; [|discriminate].
  apply Nat.eqb_eq in Hmod. injection Hu as <-.
  unfold rearrange_bsl_sbl. simpl.
  assert (HR : R = k * (R / k)) by (now apply Nat.Div0.div_exact).
  generalize dependent (R / k). intros B HR.
  unfold wf_array in Hwf. rewrite Hs in Hwf. simpl in Hwf.
  rewrite Nat.mul_1_r in *.
  assert (Hlen : length (data t) = k * B * N) by (rewrite Hwf, HR; reflexivity).
  eexists. split; [reflexivity|].
  destruct t as [sh d]. simpl in *. subst sh. f_equal.
  - f_equal. lia.
  - rewrite gather_gather.
    + rewrite map_pairs_major.
      rewrite pairs_major_ext with (g := fun i j => i * B + j).
      * rewrite pairs_major_row_major. now apply gather_seq_all.
      * intros i j Hi Hj. now rewrite nth_pairs_major.
    + apply Forall_pairs_major. intros i j Hi Hj. rewrite Hlen.
      apply Nat.mul_le_mono_r. nia.
    + apply Forall_pairs_major. intros i j Hi Hj. rewrite length_pairs_major. nia.
Qed.

End Fold.

(** ** Reasoning on results and on the frame monad *)

Lemma rbind_ok_inv {A B : Type} (r : result A) (k : A -> result B) (b : B) :
  rbind r k = Ok b -> exists a, r = Ok a /\ k a = Ok b.
Proof. destruct r; simpl; intros H; try discriminate. eauto. Qed.

Section MonadFacts.

Context {F : Type} {SO : ScalarOps F}.

Lemma bind_ok_inv {A B : Type} (m : M A) (k : A -> M B) (fr fr' : @frame F) (b : B) :
  bind m k fr = (Ok b, fr') ->
  exists a fr1, m fr = (Ok a, fr1) /\ k a fr1 = (Ok b, fr').
Proof.
  unfold bind. destruct (m fr) as [[a|e|] fr1]; intros H; try discriminate. eauto.
Qed.

Lemma lift_ok_inv {A : Type} (r : result A) (fr fr' : @frame F) (a : A) :
  lift r fr = (Ok a, fr') -> r = Ok a /\ fr' = fr.
Proof. unfold lift. intros H. injection H as -> ->. auto. Qed.

Lemma ret_ok_inv {A : Type} (x a : A) (fr fr' : @frame F) :
  ret x fr = (Ok a, fr') -> a = x /\ fr' = fr.
Proof. unfold ret. intros H. injection H as -> ->. auto. Qed.

Lemma bind_ok {A B : Type} (m : M A) (k : A -> M B) (fr fr1 : @frame F) (a : A) :
  m fr = (Ok a, fr1) -> bind m k fr = k a fr1.
Proof. unfold bind. now intros ->. Qed.

Lemma readonly_ret {A : Type} (a : A) : readonly F (ret a).
Proof. intros fr. reflexivity. Qed.

Lemma readonly_lift {A : Type} (r : result A) : readonly F (lift r).
Proof. intros fr. reflexivity. Qed.

Lemma readonly_read_td : readonly F read_td.
Proof. intros fr. reflexivity. Qed.

Lemma readonly_read_cached : readonly F read_cached.
Proof. intros fr. unfold read_cached. now destruct (f_cached fr). Qed.

Lemma readonly_bind {A B : Type} (m : M A) (k : A -> M B) :
  readonly F m -> (forall a, readonly F (k a)) -> readonly F (bind m k).
Proof.
  intros Hm Hk fr. unfold bind. specialize (Hm fr).
  destruct (m fr) as [[a|e|] fr1]; simpl in *; subst; auto. apply Hk.
Qed.

Lemma readonly_if {A : Type} (b : bool) (m1 m2 : M A) :
  readonly F m1 -> readonly F m2 -> readonly F (if b then m1 else m2).
Proof. now destruct b. Qed.

End MonadFacts.

Create HintDb frame_ro.

#[local] Hint Resolve readonly_ret readonly_lift readonly_read_td readonly_read_cached
  readonly_if : frame_ro.

(** Splits a hypothesis stating that a monadic program ended well into
    one hypothesis per statement. *)
Lemma prim_ok_inv {A S : Type} (a b : A) (s s' : S) :
  (Ok a, s) = (Ok b, s') -> b = a /\ s' = s.
Proof. intros H. injection H as -> ->. auto. Qed.

Ltac inv_prim H :=
  apply prim_ok_inv in H;
  let Hv := fresh "Hv" in
  let Hf := fresh "Hf" in
  destruct H as (Hv & Hf); try subst.

Ltac inv_ok H :=
  lazymatch type of H with
  | bind _ _ _ = (Ok _, _) =>
      let a := fresh "x" in
      let fr := fresh "fr" in
      let H1 := fresh "Hstep" in
      apply bind_ok_inv in H; destruct H as (a & fr & H1 & H);
      inv_ok H1; inv_ok H
  | lift _ _ = (Ok _, _) =>
      let E := fresh "E" in
      apply lift_ok_inv in H; destruct H as (E & ->)
  | ret _ _ = (Ok _, _) =>
      let E := fresh "E" in
      apply ret_ok_inv in H; destruct H as (E & ->); try subst
  | read_td _ = (Ok _, _) =>
      unfold read_td in H; injection H as <- <-
  | read_cached ?fr = (Ok _, _) =>
      let E := fresh "Ecached" in
      unfold read_cached in H; destruct (f_cached fr) eqn:E; [|discriminate];
      injection H as <- <-
  | log _ _ = (Ok _, _) => unfold log in H; inv_prim H
  | write_td _ _ = (Ok _, _) => unfold write_td in H; inv_prim H
  | write_cached _ _ = (Ok _, _) => unfold write_cached in H; inv_prim H
  | append_output _ _ = (Ok _, _) => unfold append_output in H; inv_prim H
  | append_action _ _ = (Ok _, _) => unfold append_action in H; inv_prim H
  | read_outputs _ = (Ok _, _) => unfold read_outputs in H; inv_prim H
  | read_actions _ = (Ok _, _) => unfold read_actions in H; inv_prim H
  | (match ?x with _ => _ end) _ = (Ok _, _) =>
      let E := fresh "Ecase" in
      destruct x eqn:E; inv_ok H
  | _ => idtac
  end.

Section GetLogP.

Context {F : Type} {SO : ScalarOps F}.

Lemma readonly_get_log_p_scores (self : Decoder F) (cached : PrecomputedCache F)
    (td : TensorDict F) (softmax_temp : option F) (num_starts : Z) :
  readonly F (_get_log_p_scores self cached td softmax_temp num_starts).
Proof.
  unfold _get_log_p_scores.
  repeat first [ apply readonly_bind; [auto with frame_ro|intros ?]
               | match goal with |- readonly F (match ?x with _ => _ end) => destruct x end
               | solve [auto with frame_ro] ].
Qed.

Lemma readonly_get_log_p (self : Decoder F) (cached : PrecomputedCache F)
    (td : TensorDict F) (softmax_temp : option F) (num_starts : Z) :
  readonly F (_get_log_p self cached td softmax_temp num_starts).
Proof.
  unfold _get_log_p.
  apply readonly_bind; [apply readonly_get_log_p_scores|intros [lp m]].
  repeat first [ apply readonly_bind; [auto with frame_ro|intros ?]
               | solve [auto with frame_ro] ].
Qed.

Lemma frame_free_lift {A : Type} (r : result A) : frame_free F (lift r).
Proof. exists r. reflexivity. Qed.

Lemma frame_free_ret {A : Type} (a : A) : frame_free F (ret a).
Proof. exists (Ok a). reflexivity. Qed.

Lemma frame_free_bind {A B : Type} (m : M A) (k : A -> M B) :
  frame_free F m -> (forall a, frame_free F (k a)) -> frame_free F (bind m k).
Proof.
  intros (r & Hr) Hk. destruct r as [a|e|].
  - destruct (Hk a) as (r' & Hr'). exists r'. intros fr. unfold bind. now rewrite Hr, Hr'.
  - exists (Raise e). intros fr. unfold bind. now rewrite Hr.
  - exists OutOfFuel. intros fr. unfold bind. now rewrite Hr.
Qed.

Lemma frame_free_get_log_p (self : Decoder F) (cached : PrecomputedCache F)
    (td : TensorDict F) (softmax_temp : option F) (num_starts : Z) :
  frame_free F (_get_log_p self cached td softmax_temp num_starts).
Proof.
  unfold _get_log_p, _get_log_p_scores.
  repeat first [ apply frame_free_bind; [|intros ?]
               | apply frame_free_lift
               | apply frame_free_ret
               | match goal with |- frame_free F (match ?x with _ => _ end) => destruct x end ].
Qed.

(** [_get_log_p] returns the same in every frame. *)
Lemma get_log_p_any_frame (self : Decoder F) (cached : PrecomputedCache F)
    (td : TensorDict F) (softmax_temp : option F) (num_starts : Z)
    (fr fr' fr2 : frame) (r : result (ndarray F * Tensor F)) :
  _get_log_p self cached td softmax_temp num_starts fr = (r, fr') ->
  _get_log_p self cached td softmax_temp num_starts fr2 = (r, fr2).
Proof.
  destruct (frame_free_get_log_p self cached td softmax_temp num_starts) as (r0 & Hr0).
  rewrite !Hr0. intros H. now injection H as ->.
Qed.

End GetLogP.

(** ** Fields of a state under [batchify] and [unbatchify] *)

Section Fields.

Context {F : Type} {SO : ScalarOps F}.

Lemma map_fields_get (f : Tensor F -> result (Tensor F)) (l l' : list (string * Tensor F))
    (key : string) :
  map_fields f l = Ok l' ->
  match assoc_get key l with
  | Some v => exists v', f v = Ok v' /\ assoc_get key l' = Some v'
  | None => assoc_get key l' = None
  end.
Proof.
  revert l'. induction l as [|[k v] l IH]; intros l' H; simpl in *.
  - injection H as <-. reflexivity.
  - unfold map_fields in H. simpl in H.
    apply rbind_ok_inv in H. destruct H as (kv' & H1 & H).
    apply rbind_ok_inv in H1. destruct H1 as (v' & Hv & H1). injection H1 as <-.
    apply rbind_ok_inv in H. destruct H as (ys & Hys & H). injection H as <-.
    simpl. destruct (String.eqb k key).
    + eauto.
    + apply IH. exact Hys.
Qed.

Lemma td_get_unbatchify_td_single (k : nat) (td td' : TensorDict F) (key : string) (v : Tensor F) :
  unbatchify_td_single k td = Ok td' ->
  td_get key td = Ok v ->
  exists v', lift_arr (fun A => @unbatchify_arr A k) v = Ok v' /\ td_get key td' = Ok v'.
Proof.
  unfold unbatchify_td_single, td_get. intros H Hv.
  apply rbind_ok_inv in H. destruct H as (bs & _ & H).
  apply rbind_ok_inv in H. destruct H as (fs & Hfs & H). injection H as <-. simpl.
  pose proof (map_fields_get _ _ key Hfs) as Hget.
  destruct (assoc_get key (fields td)) as [v0|]; [|discriminate].
  injection Hv as ->. destruct Hget as (v' & Hv' & ->). eauto.
Qed.

Lemma td_get_batchify_td_single (k : nat) (td td' : TensorDict F) (key : string) (v : Tensor F) :
  batchify_td_single k td = Ok td' ->
  td_get key td = Ok v ->
  exists v', lift_arr (fun A => @batchify_arr A k) v = Ok v' /\ td_get key td' = Ok v'.
Proof.
  unfold batchify_td_single, td_get. intros H Hv.
  apply rbind_ok_inv in H. destruct H as (bs & _ & H).
  apply rbind_ok_inv in H. destruct H as (fs & Hfs & H). injection H as <-. simpl.
  pose proof (map_fields_get _ _ key Hfs) as Hget.
  destruct (assoc_get key (fields td)) as [v0|]; [|discriminate].
  injection Hv as ->. destruct Hget as (v' & Hv' & ->). eauto.
Qed.

Lemma assoc_get_set_same (key : string) (v : Tensor F) (l : list (string * Tensor F)) :
  assoc_get key (assoc_set key v l) = Some v.
Proof.
  induction l as [|[k v0] l IH]; simpl.
  - now rewrite String.eqb_refl.
  - destruct (String.eqb k key) eqn:E; simpl; rewrite E; auto.
Qed.

Lemma assoc_get_set_other (key key' : string) (v : Tensor F) (l : list (string * Tensor F)) :
  key <> key' -> assoc_get key' (assoc_set key v l) = assoc_get key' l.
Proof.
  intros Hne. induction l as [|[k v0] l IH]; simpl.
  - destruct (String.eqb key key') eqn:E; [|reflexivity].
    apply String.eqb_eq in E. contradiction.
  - destruct (String.eqb k key) eqn:E; simpl.
    + apply String.eqb_eq in E. subst k.
      destruct (String.eqb key key') eqn:E'; [|reflexivity].
      apply String.eqb_eq in E'. contradiction.
    + destruct (String.eqb k key'); auto.
Qed.

Lemma td_set_ok_inv (key : string) (v : Tensor F) (td td' : TensorDict F) :
  td_set key v td = Ok td' ->
  firstn (length (batch_size td)) (tshape v) = batch_size td /\
  td' = mkTD (batch_size td) (assoc_set key v (fields td)).
Proof.
  unfold td_set, list_nat_eqb.
  destruct (list_eq_dec _ _ _) as [E|]; intros H; [|discriminate].
  injection H as <-. auto.
Qed.

Lemma td_get_set_other (key key' : string) (v : Tensor F) (td td' : TensorDict F) :
  key <> key' -> td_set key v td = Ok td' -> td_get key' td' = td_get key' td.
Proof.
  intros Hne H. apply td_set_ok_inv in H. destruct H as (_ & ->).
  unfold td_get. simpl. now rewrite assoc_get_set_other.
Qed.

Lemma amap_gather {A B : Type} (f : A -> B) (r : nat) (idxs : list nat) (l : list A) :
  gather r idxs (map f l) = map f (gather r idxs l).
Proof.
  unfold gather. rewrite !flat_map_concat_map, concat_map, map_map. f_equal.
  apply map_ext. intros i. unfold chunk. now rewrite skipn_map, firstn_map.
Qed.

Lemma rearrange_amap {A B : Type} (f : A -> B) (t u : ndarray A) :
  rearrange_bsl_sbl t = Ok u -> rearrange_bsl_sbl (amap f t) = Ok (amap f u).
Proof.
  unfold rearrange_bsl_sbl, amap. simpl.
  destruct (shape t) as [|b [|s [|l [|? ?]]]]; intros H; try discriminate.
  injection H as <-. simpl. now rewrite amap_gather.
Qed.

Lemma pairs_major_one {B : Type} (n : nat) (f : nat -> nat -> B) :
  pairs_major n 1 f = map (fun i => f i 0) (seq 0 n).
Proof.
  unfold pairs_major.
  induction (seq 0 n) as [|i l IH]; simpl; [reflexivity|]. now f_equal.
Qed.

(** Separating one start changes the shape and keeps the storage. *)
Lemma unbatchify_arr_one {A : Type} (t u : ndarray A) (R N : nat) :
  shape t = [R; N] -> wf_array t -> unbatchify_arr 1 t = Ok u ->
  shape u = [R; 1; N] /\ data u = data t.
Proof.
  intros Hs Hwf. unfold unbatchify_arr. rewrite Hs.
  rewrite Nat.mod_1_r, Nat.div_1_r. intros H. injection H as <-. simpl. split; [reflexivity|].
  rewrite pairs_major_one.
  rewrite map_ext with (g := fun i => i) by (intros; lia).
  rewrite map_id. apply gather_seq_all.
  unfold wf_array in Hwf. rewrite Hs in Hwf. simpl in Hwf. lia.
Qed.

End Fields.

(** ** The scoring step *)

Section Scoring.

Context {F : Type} {SO : ScalarOps F}.

Lemma get_log_p_scores_inv (self : Decoder F) (cached : PrecomputedCache F)
    (td : TensorDict F) (temp : option F) (ns : Z) (fr fr' : frame)
    (lp : ndarray F) (m : Tensor F) :
  _get_log_p_scores self cached td temp ns fr = (Ok (lp, m), fr') ->
  fr' = fr /\
  exists td_unbatch action_mask q k v lk,
    unbatchify_td td ns = Ok td_unbatch /\
    td_get "action_mask" td_unbatch = Ok action_mask /\
    invert action_mask = Ok m /\
    logit_attention self q k v lk m temp = Ok lp.
Proof.
  intros H. split.
  - pose proof (readonly_get_log_p_scores self cached td temp ns fr) as Hro.
    rewrite H in Hro. exact Hro.
  - unfold _get_log_p_scores in H. inv_ok H;
      match goal with E : (_, _) = (_, _) |- _ => injection E as -> -> end; eauto 10.
Qed.

Lemma get_log_p_inv (self : Decoder F) (cached : PrecomputedCache F)
    (td : TensorDict F) (temp : option F) (ns : Z) (fr fr' : frame)
    (lp : ndarray F) (m : Tensor F) :
  _get_log_p self cached td temp ns fr = (Ok (lp, m), fr') ->
  exists lp3 m3,
    _get_log_p_scores self cached td temp ns fr = (Ok (lp3, m3), fr') /\
    if (1 <? ns)%Z
    then rearrange_bsl_sbl lp3 = Ok lp /\ trearrange_bsl_sbl m3 = Ok m
    else lp = lp3 /\ m = m3.
Proof.
  intros H. unfold _get_log_p in H.
  apply bind_ok_inv in H. destruct H as ([lp3 m3] & fr1 & Hs & H).
  exists lp3, m3.
  destruct (1 <? ns)%Z; inv_ok H;
    match goal with E : (_, _) = (_, _) |- _ => injection E as -> -> end; auto.
Qed.

(** C1. The mask [_get_log_p] returns is the elementwise negation of the
    [action_mask] of the state: on the unbatchified view before the fold,
    and cell by cell on the state itself, so that an entry is true exactly
    when the node is forbidden. *)
Theorem get_log_p_mask_negates_action_mask
    (self : Decoder F) (cached : PrecomputedCache F) (td : TensorDict F)
    (temp : option F) (ns : Z) (fr fr' : frame)
    (lp : ndarray F) (m : Tensor F) (a : ndarray bool) (R N : nat) :
  td_get "action_mask" td = Ok (TBool a) ->
  shape a = [R; N] ->
  wf_array a ->
  _get_log_p self cached td temp ns fr = (Ok (lp, m), fr') ->
  exists td_unbatch a_u mb,
    unbatchify_td td ns = Ok td_unbatch /\
    td_get "action_mask" td_unbatch = Ok (TBool a_u) /\
    m = TBool mb /\
    (if (1 <? ns)%Z then rearrange_bsl_sbl (amap negb a_u) = Ok mb else mb = amap negb a_u) /\
    data mb = map negb (data a) /\
    shape mb = (if (ns =? 1)%Z then [R; 1; N] else [R; N]).
Proof.
  intros Hget Hshape Hwf H.
  apply get_log_p_inv in H. destruct H as (lp3 & m3 & Hs & Hfold).
  apply get_log_p_scores_inv in Hs.
  destruct Hs as (_ & td_u & am & q & k & v & lk & Hu & Hget_u & Hinv & _).
  pose proof Hu as Hu0. unfold unbatchify_td in Hu.
  destruct (0 <? ns)%Z eqn:Hpos.
  - (* the view separates the starts *)
    destruct (td_get_unbatchify_td_single _ _ _ Hu Hget) as (am' & Hlift & Hget').
    rewrite Hget_u in Hget'. injection Hget' as <-.
    simpl in Hlift. apply rbind_ok_inv in Hlift. destruct Hlift as (a_u & Ha_u & Hlift).
    injection Hlift as <-. simpl in Hinv. injection Hinv as <-.
    apply Z.ltb_lt in Hpos.
    destruct (1 <? ns)%Z eqn:Hfoldb.
    + destruct Hfold as (_ & Hm). simpl in Hm.
      apply rbind_ok_inv in Hm. destruct Hm as (mb & Hmb & Hm). injection Hm as <-.
      assert (Hk : 0 < Z.to_nat ns) by lia.
      destruct (fold_unbatchify_data Hshape Hwf Hk Ha_u) as (v' & Hv' & ->).
      apply rearrange_amap with (f := negb) in Hv'. rewrite Hv' in Hmb.
      injection Hmb as <-.
      apply Z.ltb_lt in Hfoldb.
      replace (ns =? 1)%Z with false by (symmetry; apply Z.eqb_neq; lia).
      exists td_u, a_u, (amap negb a). auto 10.
    + destruct Hfold as (_ & ->).
      apply Z.ltb_ge in Hfoldb. assert (ns = 1%Z) by lia. subst ns.
      change (Z.to_nat 1) with 1 in Ha_u.
      destruct (unbatchify_arr_one Hshape Hwf Ha_u) as (Hsu & Hdu).
      exists td_u, a_u, (amap negb a_u). simpl. rewrite Hdu. auto 10.
  - (* the view is the state *)
    injection Hu as <-. rewrite Hget in Hget_u. injection Hget_u as <-.
    simpl in Hinv. injection Hinv as <-.
    apply Z.ltb_ge in Hpos.
    replace (1 <? ns)%Z with false in * by (symmetry; apply Z.ltb_ge; lia).
    destruct Hfold as (_ & ->).
    replace (ns =? 1)%Z with false by (symmetry; apply Z.eqb_neq; lia).
    exists td, a, (amap negb a). auto 10.
Qed.

(** C2. When [num_starts > 1], the scores and the mask of shape
    [(batch, starts, nodes)] are returned in shape [(starts * batch, nodes)],
    starts-major: row [s * B + b] of the result is entry [(b, s)] of the
    tensor before the fold. *)
Theorem get_log_p_fold_starts_major
    (self : Decoder F) (cached : PrecomputedCache F) (td : TensorDict F)
    (temp : option F) (ns : Z) (fr fr1 : frame)
    (lp3 : ndarray F) (m3 : Tensor F) (B S L : nat) :
  (1 < ns)%Z ->
  _get_log_p_scores self cached td temp ns fr = (Ok (lp3, m3), fr1) ->
  shape lp3 = [B; S; L] -> wf_array lp3 ->
  tshape m3 = [B; S; L] -> twf m3 ->
  exists lp m,
    _get_log_p self cached td temp ns fr = (Ok (lp, m), fr1) /\
    shape lp = [S * B; L] /\ tshape m = [S * B; L] /\
    forall b s, b < B -> s < S ->
      chunk L (s * B + b) (data lp) = chunk L (b * S + s) (data lp3) /\
      trow L (s * B + b) m = trow L (b * S + s) m3.
Proof.
  intros Hns Hs Hshape Hwf Hmshape Hmwf.
  destruct (rearrange_bsl_sbl_rows Hshape Hwf) as (lp & Hlp & Hlps & _ & Hrows).
  assert (Hm : exists m, trearrange_bsl_sbl m3 = Ok m /\ tshape m = [S * B; L] /\
                 forall b s, b < B -> s < S -> trow L (s * B + b) m = trow L (b * S + s) m3).
  { destruct m3 as [x|x|x]; simpl in *;
      destruct (rearrange_bsl_sbl_rows Hmshape Hmwf) as (u & Hu & Hus & _ & Hur);
      rewrite Hu; simpl; eexists; (split; [reflexivity|]); simpl; (split; [assumption|]);
      intros b s Hb Hs'; now rewrite Hur. }
  destruct Hm as (m & Hm & Hms & Hmrows).
  exists lp, m. split.
  - unfold _get_log_p. erewrite bind_ok by exact Hs.
    apply Z.ltb_lt in Hns. rewrite Hns. unfold bind, lift, ret.
    rewrite Hlp, Hm. reflexivity.
  - repeat split; auto.
Qed.

End Scoring.

(** ** Effects of [forward] on its frame *)

Section Effects.

Context {F : Type} {SO : ScalarOps F}.

Section Preorder.

Variable R : @frame F -> @frame F -> Prop.
Hypothesis R_refl : forall fr, R fr fr.
Hypothesis R_trans : forall a b c, R a b -> R b c -> R a c.

Lemma respects_readonly {A : Type} (m : M A) : readonly F m -> respects R m.
Proof. intros H fr. rewrite H. apply R_refl. Qed.

Lemma respects_bind {A B : Type} (m : M A) (k : A -> M B) :
  respects R m -> (forall a, respects R (k a)) -> respects R (bind m k).
Proof.
  intros Hm Hk fr. unfold bind. specialize (Hm fr).
  destruct (m fr) as [[a|e|] fr1]; simpl in *; auto.
  eapply R_trans; [exact Hm|apply Hk].
Qed.

Lemma respects_call {A : Type} (e : event) (r : result A) :
  respects R (log e) -> respects R (call e r).
Proof.
  intros H. unfold call. apply respects_bind; [assumption|].
  intros _. apply respects_readonly, readonly_lift.
Qed.

Hypothesis R_write_td : forall td, respects R (write_td td).
Hypothesis R_append_output : forall o, respects R (append_output o).
Hypothesis R_append_action : forall a, respects R (append_action a).
Hypothesis R_log_loop :
  respects R (log EvGetLogP) /\ respects R (log EvDecodeProbs) /\ respects R (log EvEnvStep).

Lemma respects_loop_body (imp : Imports F) (self : Decoder F) (dt : string)
    (temp : option F) (ns : Z) :
  respects R (loop_body imp self dt temp ns).
Proof.
  destruct R_log_loop as (H1 & H2 & H3). unfold loop_body.
  apply respects_bind; [apply respects_readonly, readonly_read_cached|intros cached].
  apply respects_bind; [apply respects_readonly, readonly_read_td|intros td].
  apply respects_bind; [assumption|intros _].
  apply respects_bind; [apply respects_readonly, readonly_get_log_p|intros [lp m]].
  apply respects_bind; [now apply respects_call|intros action].
  apply respects_bind; [apply respects_readonly, readonly_lift|intros td'].
  apply respects_bind; [apply R_write_td|intros _].
  apply respects_bind; [now apply respects_call|intros td''].
  apply respects_bind; [apply R_write_td|intros _].
  apply respects_bind; [apply R_append_output|intros _].
  apply R_append_action.
Qed.

Lemma respects_loop_condition : respects R loop_condition.
Proof.
  apply respects_readonly. unfold loop_condition.
  repeat (apply readonly_bind; [auto with frame_ro|intros ?]). auto with frame_ro.
Qed.

Lemma respects_main_loop (imp : Imports F) (self : Decoder F) (dt : string)
    (temp : option F) (ns : Z) (fuel : nat) :
  respects R (main_loop imp self dt temp ns fuel).
Proof.
  induction fuel as [|fuel IH]; simpl;
    (apply respects_bind; [apply respects_loop_condition|intros [|]]);
    try solve [apply respects_readonly; auto with frame_ro].
  apply respects_bind; [apply respects_loop_body|intros _; exact IH].
Qed.

Hypothesis R_log_finish : respects R (log EvStack) /\ respects R (log EvGetReward).

Lemma respects_finish (self : Decoder F) (calc : bool) : respects R (finish self calc).
Proof.
  destruct R_log_finish as (H1 & H2). unfold finish.
  apply respects_bind; [apply respects_readonly; intros fr; reflexivity|intros outs].
  apply respects_bind; [apply respects_readonly; intros fr; reflexivity|intros acts].
  apply respects_bind; [assumption|intros _].
  apply respects_bind; [apply respects_readonly, readonly_lift|intros O].
  apply respects_bind; [apply respects_readonly, readonly_lift|intros A].
  apply respects_bind.
  - destruct calc; [|apply respects_readonly, readonly_ret].
    apply respects_bind; [apply respects_readonly, readonly_read_td|intros td].
    apply respects_bind; [now apply respects_call|intros r].
    apply respects_bind; [apply respects_readonly, readonly_lift|intros td'].
    apply R_write_td.
  - intros _. apply respects_bind; [apply respects_readonly, readonly_read_td|intros td].
    apply respects_readonly, readonly_ret.
Qed.

End Preorder.

Lemma same_cache_refl fr : same_cache F fr fr.
Proof. reflexivity. Qed.

Lemma same_cache_trans a b c : same_cache F a b -> same_cache F b c -> same_cache F a c.
Proof. unfold same_cache. congruence. Qed.

Lemma trace_grows_refl P fr : trace_grows F P fr fr.
Proof. exists []. now rewrite app_nil_r. Qed.

Lemma trace_grows_trans P a b c : trace_grows F P a b -> trace_grows F P b c -> trace_grows F P a c.
Proof.
  intros (e1 & H1 & F1) (e2 & H2 & F2). exists (e1 ++ e2). split.
  - now rewrite H2, H1, app_assoc.
  - now apply Forall_app.
Qed.

Lemma trace_grows_log (P : event -> Prop) (e : event) :
  P e -> respects (trace_grows F P) (log e).
Proof. intros H fr. exists [e]. simpl. auto. Qed.

End Effects.

(** ** The guard, the cache and the default of [num_starts] *)

Section ForwardFacts.

Context {F : Type} {SO : ScalarOps F}.

Lemma call_ok {A : Type} (e : event) (r : result A) (a : A) (fr : @frame F) :
  r = Ok a ->
  call e r fr =
    (Ok a, mkFrame (f_td fr) (f_cached fr) (f_outputs fr) (f_actions fr) (f_trace fr ++ [e])).
Proof. intros ->. reflexivity. Qed.

Lemma same_cache_multistart_seed (imp : Imports F) (self : Decoder F) (ns : Z) :
  respects (same_cache F) (multistart_seed imp self ns).
Proof.
  pose proof (@same_cache_trans F) as Ht.
  unfold multistart_seed, call.
  repeat (apply respects_bind; [exact Ht| |intros ?]); intros fr; reflexivity.
Qed.

Lemma same_cache_after_precompute (imp : Imports F) (self : Decoder F) (dt : string)
    (temp : option F) (ns : Z) (fuel : nat) (calc b : bool) :
  respects (same_cache F)
    (bind (if b then multistart_seed imp self ns else ret tt)
       (fun _ => bind (main_loop imp self dt temp ns fuel) (fun _ => finish self calc))).
Proof.
  pose proof (@same_cache_refl F) as Hr. pose proof (@same_cache_trans F) as Ht.
  assert (Hlog : forall e, respects (same_cache F) (log e)) by (intros e fr; reflexivity).
  apply respects_bind; auto.
  - destruct b; [apply same_cache_multistart_seed|now apply respects_readonly, readonly_ret].
  - intros _. apply respects_bind; auto.
    + apply respects_main_loop;
        [exact Hr|exact Ht|intros ? ?; reflexivity ..|repeat split; intros ?; reflexivity].
    + intros _. apply respects_finish;
        [exact Hr|exact Ht|intros ? ?; reflexivity|repeat split; intros ?; reflexivity].
Qed.

(** C3. With a decode type that contains "multistart" and [num_starts]
    at most 1 after [None] became 0, [forward] raises its assertion error
    and nothing was computed: the cache is unbound, nothing was appended,
    the trace of calls is empty and the state is the one it was given. *)
Theorem forward_multistart_requires_starts
    (imp : Imports F) (self : Decoder F) (fuel : nat) (td : TensorDict F)
    (embeddings : ndarray F) (decode_type : string) (softmax_temp : option F)
    (num_starts : option Z) (calc_reward : bool) :
  py_in "multistart" decode_type = true ->
  (normalize_num_starts num_starts <= 1)%Z ->
  forward imp self fuel td embeddings decode_type softmax_temp num_starts calc_reward =
    (Raise (AssertionError "Multi-start decoding requires `num_starts` > 1"),
     mkFrame td None [] [] []).
Proof.
  intros Hin Hle. unfold forward, forward_body. rewrite Hin.
  apply Z.leb_le in Hle. rewrite Hle. reflexivity.
Qed.

(** C7. [_get_log_p] leaves the frame, hence the cache and the state, as
    it found them whatever its outcome; no number of iterations of the
    main loop changes the cache; and at the end of [forward] the cache is
    the one [_precompute] returned. *)
Theorem cache_is_never_mutated
    (imp : Imports F) (self : Decoder F) (fuel : nat) (td : TensorDict F)
    (embeddings : ndarray F) (decode_type : string) (softmax_temp : option F)
    (num_starts : option Z) (calc_reward : bool) (c : PrecomputedCache F) :
  py_in "multistart" decode_type && (normalize_num_starts num_starts <=? 1)%Z = false ->
  _precompute self embeddings (normalize_num_starts num_starts) = Ok c ->
  (forall cached td' fr,
      snd (_get_log_p self cached td' softmax_temp (normalize_num_starts num_starts) fr) = fr) /\
  (forall k fr,
      f_cached (snd (main_loop imp self decode_type softmax_temp
                       (normalize_num_starts num_starts) k fr)) = f_cached fr) /\
  f_cached (snd (forward imp self fuel td embeddings decode_type softmax_temp num_starts
                   calc_reward)) = Some c.
Proof.
  intros Hguard Hpre. split; [|split].
  - intros cached td' fr. apply readonly_get_log_p.
  - intros k fr.
    apply (@respects_main_loop F SO (same_cache F) (@same_cache_refl F) (@same_cache_trans F));
      [intros ? ?; reflexivity ..|repeat split; intros ?; reflexivity].
  - unfold forward, forward_body. rewrite Hguard.
    erewrite bind_ok by reflexivity.
    erewrite bind_ok by (apply call_ok; exact Hpre).
    erewrite bind_ok by reflexivity.
    rewrite same_cache_after_precompute. reflexivity.
Qed.

Lemma quiet_grows (P : event -> Prop) {A : Type} (m : M A) :
  (forall fr : @frame F, f_trace (snd (m fr)) = f_trace fr) ->
  respects (trace_grows F P) m.
Proof. intros Hm fr. exists []. rewrite Hm, app_nil_r. auto. Qed.

Lemma get_log_p_without_fold (self : Decoder F) (cached : PrecomputedCache F)
    (td : TensorDict F) (temp : option F) (ns : Z) (fr : frame) :
  (ns <= 1)%Z ->
  _get_log_p self cached td temp ns fr = _get_log_p_scores self cached td temp ns fr.
Proof.
  intros Hle. unfold _get_log_p, bind.
  replace (1 <? ns)%Z with false by (symmetry; apply Z.ltb_ge; lia).
  destruct (_get_log_p_scores self cached td temp ns fr) as [[[lp m]|e|] fr1]; reflexivity.
Qed.

(** C10. [forward] with [num_starts=None] is [forward] with
    [num_starts=0]. Unless the decode type contains "multistart", the call
    runs [_precompute], the main loop and the stacking on the state it was
    given: no start node is selected, the state is not batchified, and
    [batchify], [unbatchify] and the fold of [_get_log_p] do nothing. *)
Theorem forward_none_is_zero_starts
    (imp : Imports F) (self : Decoder F) (fuel : nat) (td : TensorDict F)
    (embeddings : ndarray F) (decode_type : string) (softmax_temp : option F)
    (calc_reward : bool) :
  forward imp self fuel td embeddings decode_type softmax_temp None calc_reward =
  forward imp self fuel td embeddings decode_type softmax_temp (Some 0%Z) calc_reward /\
  (py_in "multistart" decode_type = false ->
   forward imp self fuel td embeddings decode_type softmax_temp None calc_reward =
     bind (call EvPrecompute (_precompute self embeddings 0))
       (fun cached =>
          bind (write_cached cached)
            (fun _ => bind (main_loop imp self decode_type softmax_temp 0 fuel)
                        (fun _ => finish self calc_reward)))
       (init_frame td) /\
   Forall not_seeding
     (f_trace (snd (forward imp self fuel td embeddings decode_type softmax_temp None
                      calc_reward))) /\
   (forall cached td' fr,
       _get_log_p self cached td' softmax_temp 0 fr
       = _get_log_p_scores self cached td' softmax_temp 0 fr) /\
   (forall td' : TensorDict F, unbatchify_td td' 0 = Ok td' /\ batchify_td td' 0 = Ok td') /\
   (forall x : ndarray F, unbatchify x 0 = Ok x /\ batchify x 0 = Ok x)).
Proof.
  split; [reflexivity|]. intros Hin.
  assert (Heq : forward imp self fuel td embeddings decode_type softmax_temp None calc_reward =
     bind (call EvPrecompute (_precompute self embeddings 0))
       (fun cached =>
          bind (write_cached cached)
            (fun _ => bind (main_loop imp self decode_type softmax_temp 0 fuel)
                        (fun _ => finish self calc_reward)))
       (init_frame td)).
  { unfold forward, forward_body. simpl normalize_num_starts. rewrite Hin. simpl.
    erewrite bind_ok by reflexivity. reflexivity. }
  split; [exact Heq|]. split; [|split; [|split]].
  - rewrite Heq.
    pose proof (@trace_grows_refl F not_seeding) as Hr.
    pose proof (@trace_grows_trans F not_seeding) as Ht.
    assert (Hlog : forall e, not_seeding e -> respects (trace_grows F not_seeding) (log e))
      by (intros e He; now apply trace_grows_log).
    assert (Hall : respects (trace_grows F not_seeding)
              (bind (call EvPrecompute (_precompute self embeddings 0))
                 (fun cached =>
                    bind (write_cached cached)
                      (fun _ => bind (main_loop imp self decode_type softmax_temp 0 fuel)
                                  (fun _ => finish self calc_reward))))).
    { apply respects_bind; [exact Ht| |intros c].
      - apply respects_call; [exact Hr|exact Ht|]. apply Hlog. split; discriminate.
      - apply respects_bind; [exact Ht|apply quiet_grows; reflexivity|intros _].
        apply respects_bind; [exact Ht| |intros _].
        + apply respects_main_loop;
            [exact Hr|exact Ht|intros; apply quiet_grows; reflexivity ..|];
            repeat split; apply Hlog; split; discriminate.
        + apply respects_finish;
            [exact Hr|exact Ht|intros; apply quiet_grows; reflexivity|];
            repeat split; apply Hlog; split; discriminate. }
    destruct (Hall (init_frame td)) as (evs & Hevs & Hfor).
    rewrite Hevs. exact Hfor.
  - intros cached td' fr. apply get_log_p_without_fold. lia.
  - intros td'. split; reflexivity.
  - intros x. split; reflexivity.
Qed.

End ForwardFacts.

(** ** Stacking *)

Lemma flat_map_ext_in {A B : Type} (f g : A -> list B) (l : list A) :
  (forall x, In x l -> f x = g x) -> flat_map f l = flat_map g l.
Proof.
  intros H. rewrite !flat_map_concat_map. f_equal. now apply map_ext_in.
Qed.

Lemma list_nat_eqb_eq (a b : list nat) : list_nat_eqb a b = true <-> a = b.
Proof.
  unfold list_nat_eqb. destruct (list_eq_dec Nat.eq_dec a b); split; auto; discriminate.
Qed.

Section Stack.

Context {A : Type}.

Lemma stack1_ok_inv (ts : list (ndarray A)) (O : ndarray A) :
  stack1 ts = Ok O ->
  exists t0 ts' d0 rest,
    ts = t0 :: ts' /\ shape t0 = d0 :: rest /\
    Forall (fun t => shape t = d0 :: rest) ts /\
    O = mkArr (d0 :: length ts :: rest)
          (flat_map (fun i => flat_map (fun t => chunk (numel rest) i (data t)) ts) (seq 0 d0)).
Proof.
  unfold stack1. destruct ts as [|t0 ts']; [discriminate|].
  destruct (forallb _ _) eqn:Hall; [|discriminate].
  destruct (shape t0) as [|d0 rest] eqn:Hs; [discriminate|].
  intros H. injection H as <-. exists t0, ts', d0, rest. repeat split; auto.
  rewrite forallb_forall in Hall. apply Forall_forall. intros t Ht.
  apply Hall in Ht. now apply list_nat_eqb_eq in Ht.
Qed.

(** Entry [j] along dimension 1 of a stack is its [j]-th operand. *)
Lemma select1_stack1 (ts : list (ndarray A)) (O : ndarray A) (j : nat) (dflt : ndarray A) :
  stack1 ts = Ok O -> Forall wf_array ts -> j < length ts ->
  select1 j O = Ok (nth j ts dflt).
Proof.
  intros HO Hwf Hj.
  destruct (stack1_ok_inv _ HO) as (t0 & ts' & d0 & rest & Hts & Hs0 & Hshapes & ->).
  set (r := numel rest). set (T := length ts) in *.
  assert (Hlen : forall t, In t ts -> length (data t) = d0 * r).
  { intros t Ht. rewrite Forall_forall in Hwf, Hshapes.
    specialize (Hwf t Ht). unfold wf_array in Hwf. now rewrite (Hshapes t Ht) in Hwf. }
  assert (Hin : In (nth j ts dflt) ts) by (apply nth_In; exact Hj).
  unfold select1. simpl. fold T. fold r.
  apply Nat.ltb_lt in Hj. rewrite Hj. apply Nat.ltb_lt in Hj.
  f_equal. destruct (nth j ts dflt) as [sh d] eqn:Hnth.
  rewrite Forall_forall in Hshapes. pose proof (Hshapes _ Hin) as Hsh. simpl in Hsh.
  subst sh. f_equal.
  rewrite flat_map_ext_in with (g := fun i => chunk r i d).
  - change (gather r (seq 0 d0) d = d). apply gather_seq_all.
    specialize (Hlen _ Hin). exact Hlen.
  - intros i Hi. apply in_seq in Hi.
    rewrite <- chunk_chunk by exact Hj.
    rewrite chunk_flat_map with (r := T * r) (d := 0).
    + rewrite seq_nth by lia. simpl.
      rewrite chunk_flat_map with (r := r) (d := dflt); [now rewrite Hnth| |exact Hj].
      apply Forall_forall. intros t Ht. apply length_chunk. rewrite (Hlen t Ht). nia.
    + apply Forall_forall. intros i' Hi'. apply in_seq in Hi'.
      rewrite length_flat_map. unfold T.
      clear -Hlen Hi'. induction ts as [|t l IH]; simpl; [reflexivity|].
      rewrite length_chunk.
      * rewrite IH; [lia|]. intros t' Ht'. apply Hlen. now right.
      * rewrite (Hlen t) by now left. nia.
    + rewrite length_seq. lia.
Qed.

End Stack.

Section TaggedStack.

Context {F : Type} {SO : ScalarOps F}.

Lemma shape_as_bool (t : Tensor F) : shape (as_bool t) = tshape t.
Proof. now destruct t. Qed.

Lemma shape_as_long (t : Tensor F) : shape (as_long t) = tshape t.
Proof. now destruct t. Qed.

Lemma shape_as_float (t : Tensor F) : shape (as_float t) = tshape t.
Proof. now destruct t. Qed.

Lemma wf_amap {A B : Type} (f : A -> B) (t : ndarray A) : wf_array t -> wf_array (amap f t).
Proof. unfold wf_array, amap. simpl. now rewrite length_map. Qed.

Lemma twf_cast (d : dtype) (t : Tensor F) : twf t -> twf (cast d t).
Proof. destruct d, t; simpl; auto using wf_amap. Qed.

Lemma tshape_cast (d : dtype) (t : Tensor F) : tshape (cast d t) = tshape t.
Proof. now destruct d, t. Qed.

Lemma twf_zeros_like (t : Tensor F) : twf t -> twf (zeros_like t).
Proof. destruct t; simpl; apply wf_amap. Qed.

Lemma tshape_zeros_like (t : Tensor F) : tshape (zeros_like t) = tshape t.
Proof. now destruct t. Qed.

(** Zeros of a boolean tensor stay zeros in every dtype. *)
Lemma is_zero_cast_zeros_like (d : dtype) (t : Tensor F) :
  dtype_of t = DBool -> is_zero_tensor (cast d (zeros_like t)).
Proof.
  destruct t as [a|a|a]; try discriminate. intros _.
  destruct d; simpl; rewrite ?map_map; apply Forall_map, Forall_forall; intros x _;
    reflexivity.
Qed.

Lemma torch_stack1_ok_inv (ts : list (Tensor F)) (O : Tensor F) :
  torch_stack1 ts = Ok O ->
  dtype_of O = result_type ts /\
  exists t0 ts' d0 rest,
    ts = t0 :: ts' /\ Forall (fun t => tshape t = d0 :: rest) ts /\
    tshape O = d0 :: length ts :: rest.
Proof.
  unfold torch_stack1. intros H.
  destruct (result_type ts); apply rbind_ok_inv in H; destruct H as (r & Hr & H);
    injection H as <-; (split; [reflexivity|]);
    destruct (stack1_ok_inv _ Hr) as (t0 & ts' & d0 & rest & Hts & _ & Hsh & ->);
    (destruct ts as [|u us]; [discriminate|]);
    exists u, us, d0, rest; simpl; rewrite ?length_map in *;
    (repeat split; auto);
    apply Forall_map in Hsh; (eapply Forall_impl; [|exact Hsh]); intros t Ht;
    simpl in Ht; now rewrite ?shape_as_bool, ?shape_as_long, ?shape_as_float in Ht.
Qed.

(** Entry [j] along dimension 1 of a stack is its [j]-th operand in the
    common dtype. *)
Lemma tselect1_torch_stack1 (ts : list (Tensor F)) (O : Tensor F) (j : nat) (dflt : Tensor F) :
  torch_stack1 ts = Ok O -> Forall twf ts -> j < length ts ->
  tselect1 j O = Ok (cast (result_type ts) (nth j ts dflt)).
Proof.
  unfold torch_stack1, cast. intros H Hwf Hj.
  destruct (result_type ts); apply rbind_ok_inv in H; destruct H as (r & Hr & H);
    injection H as <-; simpl.
  - erewrite select1_stack1 with (dflt := as_bool dflt); eauto.
    + simpl. now rewrite map_nth.
    + apply Forall_map. eapply Forall_impl; [|exact Hwf].
      intros t Ht. destruct t; simpl in *; auto using wf_amap.
    + now rewrite length_map.
  - erewrite select1_stack1 with (dflt := as_long dflt); eauto.
    + simpl. now rewrite map_nth.
    + apply Forall_map. eapply Forall_impl; [|exact Hwf].
      intros t Ht. destruct t; simpl in *; auto using wf_amap.
    + now rewrite length_map.
  - erewrite select1_stack1 with (dflt := as_float dflt); eauto.
    + simpl. now rewrite map_nth.
    + apply Forall_map. eapply Forall_impl; [|exact Hwf].
      intros t Ht. destruct t; simpl in *; auto using wf_amap.
    + now rewrite length_map.
Qed.

End TaggedStack.

(** ** Runs of the main loop *)

Section Loop.

Context {F : Type} {SO : ScalarOps F}.

Variable imp : Imports F.
Variable self : Decoder F.
Variable decode_type : string.
Variable softmax_temp : option F.
Variable num_starts : Z.

Lemma loop_condition_frame (fr fr' : frame) (r : result bool) :
  loop_condition fr = (r, fr') -> fr' = fr.
Proof.
  intros H. pose proof (@respects_loop_condition F SO (fun a b => b = a)) as Hr.
  specialize (Hr (fun _ => eq_refl) fr). rewrite H in Hr. exact Hr.
Qed.

Lemma loop_body_ok_inv (fr fr' : frame) :
  loop_body imp self decode_type softmax_temp num_starts fr = (Ok tt, fr') ->
  exists log_p action, iteration imp self decode_type softmax_temp num_starts fr log_p action fr'.
Proof.
  unfold loop_body, call. intros H.
  apply bind_ok_inv in H. destruct H as (cached & fr0 & Hc & H).
  unfold read_cached in Hc. destruct (f_cached fr) as [c|] eqn:Hcached; [|discriminate].
  apply prim_ok_inv in Hc. destruct Hc as (-> & ->).
  apply bind_ok_inv in H. destruct H as (td & fr0 & Htd & H). inv_ok Htd.
  apply bind_ok_inv in H. destruct H as ([] & fr1 & H1 & H).
  assert (Hfr1 : fr1 = logged EvGetLogP fr) by (unfold log in H1; now injection H1 as <-).
  clear H1.
  apply bind_ok_inv in H. destruct H as ([lp m] & fr2 & Hg & H).
  pose proof (readonly_get_log_p self c (f_td fr) softmax_temp num_starts fr1) as Hro.
  rewrite Hg in Hro. simpl in Hro. subst fr2.
  inv_ok H. simpl in *.
  exists lp. eexists. unfold iteration. exists c, m. do 2 eexists.
  split; [exact Hcached|].
  split; [eapply get_log_p_any_frame; exact Hg|].
  split; [eassumption|]. split; [eassumption|]. split; [eassumption|].
  unfold after_iteration. simpl. now rewrite <- !app_assoc.
Qed.

Lemma main_loop_run (fuel : nat) (fr fr' : frame) :
  main_loop imp self decode_type softmax_temp num_starts fuel fr = (Ok tt, fr') ->
  exists steps, loop_run imp self decode_type softmax_temp num_starts fr steps fr' /\ length steps <= fuel.
Proof.
  revert fr. induction fuel as [|fuel IH]; intros fr H; simpl in H.
  - apply bind_ok_inv in H. destruct H as (b & fr1 & Hc & H).
    pose proof (loop_condition_frame _ Hc) as ->.
    destruct b; [discriminate|]. apply ret_ok_inv in H. destruct H as (_ & ->).
    exists []. split; [now apply run_done|simpl; lia].
  - apply bind_ok_inv in H. destruct H as (b & fr1 & Hc & H).
    pose proof (loop_condition_frame _ Hc) as ->.
    destruct b.
    + apply bind_ok_inv in H. destruct H as ([] & fr2 & Hb & H).
      apply loop_body_ok_inv in Hb. destruct Hb as (lp & action & Hit).
      apply IH in H. destruct H as (steps & Hrun & Hlen).
      exists ((lp, action) :: steps). split; [|simpl; lia].
      eapply run_step; eauto.
    + apply ret_ok_inv in H. destruct H as (_ & ->).
      exists []. split; [now apply run_done|simpl; lia].
Qed.

(** A run is reproduced by the loop as soon as the bound on the
    iterations is at least its length. *)
Lemma loop_run_main_loop (fr fr' : frame) (steps : list (ndarray F * ndarray Z)) (fuel : nat) :
  loop_run imp self decode_type softmax_temp num_starts fr steps fr' -> length steps <= fuel ->
  main_loop imp self decode_type softmax_temp num_starts fuel fr = (Ok tt, fr').
Proof.
  intros Hrun. revert fuel. induction Hrun as [fr Hc|fr fr1 fr' lp action steps Hc Hit Hrun IH];
    intros fuel Hfuel.
  - destruct fuel; simpl; erewrite bind_ok by exact Hc; reflexivity.
  - destruct fuel as [|fuel]; [simpl in Hfuel; lia|]. simpl.
    erewrite bind_ok by exact Hc.
    destruct Hit as (cached & m & td_a & td' & Hcached & Hg & Hd & Hset & Hstep & ->).
    assert (Hbody : loop_body imp self decode_type softmax_temp num_starts fr
                    = (Ok tt, after_iteration fr lp action td')).
    { unfold loop_body, call.
      erewrite bind_ok by (unfold read_cached; rewrite Hcached; reflexivity).
      erewrite bind_ok by reflexivity.
      erewrite bind_ok by reflexivity.
      erewrite bind_ok by (eapply get_log_p_any_frame; exact Hg).
      unfold bind, log, lift, read_td, write_td, append_output, append_action. simpl.
      rewrite Hd, Hset, Hstep. unfold after_iteration. simpl. now rewrite <- !app_assoc. }
    erewrite bind_ok by exact Hbody. apply IH. simpl in Hfuel. lia.
Qed.

(** What a run appends to the frame. *)
Lemma loop_run_frame (fr fr' : frame) (steps : list (ndarray F * ndarray Z)) :
  loop_run imp self decode_type softmax_temp num_starts fr steps fr' ->
  f_cached fr' = f_cached fr /\
  f_outputs fr' = f_outputs fr ++ map (fun s => TFloat (fst s)) steps /\
  f_actions fr' = f_actions fr ++ map snd steps /\
  loop_iterations (f_trace fr') = loop_iterations (f_trace fr) + length steps.
Proof.
  induction 1 as [fr Hc|fr fr1 fr' lp action steps Hc Hit Hrun IH].
  - simpl. rewrite !app_nil_r. auto.
  - destruct Hit as (cached & m & td_a & td' & _ & _ & _ & _ & _ & ->).
    destruct IH as (H1 & H2 & H3 & H4). simpl in *.
    rewrite H1, H2, H3, H4, <- !app_assoc. repeat split; auto.
    unfold loop_iterations. rewrite count_occ_app. simpl. lia.
Qed.


(** Lines 84-96, when they end well. *)
Lemma multistart_seed_ok_inv (fr fr' : frame) :
  multistart_seed imp self num_starts fr = (Ok tt, fr') ->
  exists action td_b td_a td_s action_mask,
    select_start_nodes imp (f_td fr) num_starts (env self) = Ok action /\
    batchify_td (f_td fr) num_starts = Ok td_b /\
    td_set "action" (TLong action) td_b = Ok td_a /\
    env_step_next (env self) td_a = Ok td_s /\
    td_get "action_mask" td_s = Ok action_mask /\
    fr' = mkFrame td_s (f_cached fr) (f_outputs fr ++ [zeros_like action_mask])
            (f_actions fr ++ [action])
            (f_trace fr ++ [EvSelectStartNodes; EvBatchify; EvEnvStep]).
Proof.
  unfold multistart_seed, call. intros H. inv_ok H. simpl in *.
  do 5 eexists. repeat (split; [eassumption|]).
  now rewrite <- !app_assoc.
Qed.

End Loop.

(** ** What the collaborators are relied on for *)

Section Contracts.

Context {F : Type} {SO : ScalarOps F}.

Lemma forward_ok_inv (imp : Imports F) (self : Decoder F) (fuel : nat) (td : TensorDict F)
    (embeddings : ndarray F) (dt : string) (temp : option F) (ns : option Z) (calc : bool)
    (O : Tensor F) (A : ndarray Z) (td' : TensorDict F) (fr' : frame) :
  forward imp self fuel td embeddings dt temp ns calc = (Ok (O, A, td'), fr') ->
  let n := normalize_num_starts ns in
  exists c fr2 fr3 steps,
    py_in "multistart" dt && (n <=? 1)%Z = false /\
    _precompute self embeddings n = Ok c /\
    (if seeding dt n
     then multistart_seed imp self n (after_precompute td c) = (Ok tt, fr2)
     else fr2 = after_precompute td c) /\
    loop_run imp self dt temp n fr2 steps fr3 /\ length steps <= fuel /\
    torch_stack1 (f_outputs fr3) = Ok O /\
    stack1 (f_actions fr3) = Ok A /\
    f_trace fr' = f_trace fr3 ++ (if calc then [EvStack; EvGetReward] else [EvStack]).
Proof.
  intros H n. unfold forward, forward_body in H. fold n in H.
  destruct (py_in "multistart" dt && (n <=? 1)%Z) eqn:Hguard.
  { discriminate. }
  erewrite bind_ok in H by reflexivity.
  apply bind_ok_inv in H. destruct H as (c & fr1 & Hc & H).
  unfold call in Hc. inv_ok Hc.
  apply bind_ok_inv in H. destruct H as ([] & fr1 & Hw & H). inv_ok Hw.
  apply bind_ok_inv in H. destruct H as ([] & fr2 & Hseed & H).
  apply bind_ok_inv in H. destruct H as ([] & fr3 & Hloop & H).
  apply main_loop_run in Hloop. destruct Hloop as (steps & Hrun & Hlen).
  exists c, fr2, fr3, steps. split; [reflexivity|]. split; [assumption|].
  split.
  { unfold seeding. destruct ((1 <? n)%Z || py_in "multistart" dt).
    - exact Hseed.
    - apply ret_ok_inv in Hseed. now destruct Hseed as (_ & ->). }
  split; [assumption|]. split; [assumption|].
  unfold finish, call in H. destruct calc; inv_ok H; simpl in *;
    match goal with E : (_, _, _) = (_, _, _) |- _ => injection E as -> -> -> end;
    repeat split; auto; now rewrite <- ?app_assoc.
Qed.

End Contracts.

(** ** The stacked trajectory *)

Section Trajectory.

Context {F : Type} {SO : ScalarOps F}.

Variable imp : Imports F.
Variable self : Decoder F.
Hypothesis collaborators_wf : returns_wf imp self.

Lemma rearrange_wf {A : Type} (t u : ndarray A) :
  rearrange_bsl_sbl t = Ok u -> wf_array t -> wf_array u.
Proof.
  intros H Hwf. pose proof H as H'. unfold rearrange_bsl_sbl in H'.
  destruct (shape t) as [|b [|s [|l [|? ?]]]] eqn:Hs; try discriminate.
  destruct (rearrange_bsl_sbl_rows Hs Hwf) as (u' & Hu' & _ & Hwf' & _).
  rewrite H in Hu'. now injection Hu' as <-.
Qed.

Lemma iteration_wf (dt : string) (temp : option F) (n : Z) (fr fr' : frame)
    (lp : ndarray F) (action : ndarray Z) :
  iteration imp self dt temp n fr lp action fr' -> wf_array lp /\ wf_array action.
Proof.
  intros (cached & m & td_a & td' & _ & Hg & Hd & _). split.
  - apply get_log_p_inv in Hg. destruct Hg as (lp3 & m3 & Hs & Hfold).
    apply get_log_p_scores_inv in Hs.
    destruct Hs as (_ & td_u & am & q & k & v & lk & _ & _ & _ & Hatt).
    apply (wf_attention collaborators_wf) in Hatt.
    destruct (1 <? n)%Z.
    + destruct Hfold as (Hr & _). eapply rearrange_wf; eauto.
    + now destruct Hfold as (-> & _).
  - eapply (wf_decode collaborators_wf); eauto.
Qed.

Lemma loop_run_wf (dt : string) (temp : option F) (n : Z) (fr fr' : frame)
    (steps : list (ndarray F * ndarray Z)) :
  loop_run imp self dt temp n fr steps fr' ->
  Forall (fun s => wf_array (fst s) /\ wf_array (snd s)) steps.
Proof.
  induction 1 as [|fr fr1 fr' lp action steps Hc Hit Hrun IH]; constructor; auto.
  simpl. eapply iteration_wf; eauto.
Qed.

Lemma result_type_float (ts : list (Tensor F)) (x : ndarray F) :
  In (TFloat x) ts -> result_type ts = DFloat.
Proof.
  induction ts as [|t ts IH]; simpl; [contradiction|].
  intros [->|Hin]; [reflexivity|].
  rewrite (IH Hin). now destruct (dtype_of t).
Qed.

(** C9, amended. A completed [forward] returns the log-probabilities and
    the actions stacked along dimension 1 in the order of the steps. Their
    length there is the number of iterations of the main loop, plus one
    when the seeding branch was entered; after that first entry, entry [j]
    holds the scores and the action that the [j]-th iteration selected and
    applied, and with seeding entry 0 of the actions is the seed action. *)
Theorem forward_trajectory_is_the_trace
    (fuel : nat) (td : TensorDict F) (embeddings : ndarray F) (dt : string)
    (temp : option F) (ns : option Z) (calc : bool)
    (O : Tensor F) (A : ndarray Z) (td' : TensorDict F) (fr' : frame) :
  forward imp self fuel td embeddings dt temp ns calc = (Ok (O, A, td'), fr') ->
  let n := normalize_num_starts ns in
  let k := if seeding dt n then 1 else 0 in
  exists (c : PrecomputedCache F) (steps : list (ndarray F * ndarray Z)) (fr2 fr3 : frame),
    _precompute self embeddings n = Ok c /\
    (if seeding dt n
     then multistart_seed imp self n (after_precompute td c) = (Ok tt, fr2)
     else fr2 = after_precompute td c) /\
    loop_run imp self dt temp n fr2 steps fr3 /\
    loop_iterations (f_trace fr') = length steps /\
    nth 1 (tshape O) 0 = k + length steps /\
    nth 1 (shape A) 0 = k + length steps /\
    (forall j dflt, j < length steps ->
       tselect1 (k + j) O = Ok (TFloat (fst (nth j steps dflt))) /\
       select1 (k + j) A = Ok (snd (nth j steps dflt))) /\
    (seeding dt n = true ->
     exists action, select_start_nodes imp td n (env self) = Ok action /\
                    select1 0 A = Ok action).
Proof.
  intros H n k. apply forward_ok_inv in H. fold n in H.
  destruct H as (c & fr2 & fr3 & steps & Hguard & Hpre & Hseed & Hrun & Hfuel & HO & HA & Htr).
  exists c, steps, fr2, fr3. split; [exact Hpre|]. split; [exact Hseed|].
  split; [exact Hrun|].
  pose proof (loop_run_frame Hrun) as (Hcache & Houts & Hacts & Hiter).
  pose proof (loop_run_wf Hrun) as Hwf.
  (* the frame at the entry of the loop *)
  assert (Hentry : loop_iterations (f_trace fr2) = 0 /\
                   length (f_outputs fr2) = k /\ length (f_actions fr2) = k /\
                   Forall twf (f_outputs fr2) /\ Forall wf_array (f_actions fr2) /\
                   (seeding dt n = true ->
                    exists action, select_start_nodes imp td n (env self) = Ok action /\
                                   f_actions fr2 = [action])).
  { subst k. destruct (seeding dt n).
    - apply multistart_seed_ok_inv in Hseed.
      destruct Hseed as (action & td_b & td_a & td_s & am & Hsel & _ & _ & Hstep & Ham & ->).
      simpl. repeat split; auto.
      + constructor; [|constructor]. apply twf_zeros_like.
        eapply (wf_step collaborators_wf); eauto.
      + constructor; [|constructor]. eapply (wf_select collaborators_wf); eauto.
      + intros _. eauto.
    - subst fr2. simpl. repeat split; auto. discriminate. }
  destruct Hentry as (Hit0 & Hlo & Hla & Hwfo & Hwfa & Hseedact).
  clearbody k.
  assert (Hwfouts : Forall twf (f_outputs fr3)).
  { rewrite Houts. apply Forall_app. split; [assumption|].
    apply Forall_map. eapply Forall_impl; [|exact Hwf]. intros s Hs. apply Hs. }
  assert (Hwfacts : Forall wf_array (f_actions fr3)).
  { rewrite Hacts. apply Forall_app. split; [assumption|].
    apply Forall_map. eapply Forall_impl; [|exact Hwf]. intros s Hs. apply Hs. }
  assert (Hlen_o : length (f_outputs fr3) = k + length steps)
    by (rewrite Houts, length_app, length_map; lia).
  assert (Hlen_a : length (f_actions fr3) = k + length steps)
    by (rewrite Hacts, length_app, length_map; lia).
  split; [|split; [|split; [|split]]].
  - rewrite Htr. unfold loop_iterations in *. rewrite count_occ_app, Hiter, Hit0.
    destruct calc; simpl; lia.
  - destruct (torch_stack1_ok_inv _ HO) as (_ & t0 & ts' & d0 & rest & _ & _ & ->).
    simpl. exact Hlen_o.
  - destruct (stack1_ok_inv _ HA) as (t0 & ts' & d0 & rest & _ & _ & _ & ->).
    simpl. exact Hlen_a.
  - intros j dflt Hj. split.
    + rewrite tselect1_torch_stack1 with (ts := f_outputs fr3) (dflt := TFloat (fst dflt));
        [|assumption|assumption|lia].
      assert (Hnth : nth (k + j) (f_outputs fr3) (TFloat (fst dflt))
                     = TFloat (fst (nth j steps dflt))).
      { rewrite Houts, app_nth2 by lia.
        replace (k + j - length (f_outputs fr2)) with j by lia.
        now rewrite (map_nth (fun s => TFloat (fst s))). }
      rewrite Hnth. erewrite result_type_float; [reflexivity|].
      rewrite <- Hnth. apply nth_In. lia.
    + rewrite select1_stack1 with (ts := f_actions fr3) (dflt := snd dflt);
        [|assumption|assumption|lia].
      rewrite Hacts, app_nth2 by lia.
      replace (k + j - length (f_actions fr2)) with j by lia.
      now rewrite (map_nth snd).
  - intros Hs. destruct (Hseedact Hs) as (action & Hsel & Ha2).
    exists action. split; [assumption|].
    assert (0 < k) by (rewrite <- Hla, Ha2; simpl; lia).
    rewrite select1_stack1 with (ts := f_actions fr3) (dflt := action);
      [|assumption|assumption|lia].
    now rewrite Hacts, Ha2.
Qed.

End Trajectory.

(** ** Shapes along a decode *)

Section Shapes.

Context {F : Type} {SO : ScalarOps F}.

Lemma invert_shape (t m : Tensor F) : invert t = Ok m -> tshape m = tshape t.
Proof. destruct t; simpl; intros H; try discriminate; now injection H as <-. Qed.

Lemma unbatchify_arr_shape {A : Type} (k : nat) (t u : ndarray A) (R : nat) (rest : list nat) :
  unbatchify_arr k t = Ok u -> shape t = R :: rest ->
  R mod k = 0 /\ shape u = R / k :: k :: rest.
Proof.
  unfold unbatchify_arr. intros H Hs. rewrite Hs in H.
  destruct (R mod k =? 0) eqn:E; [|discriminate].
  apply Nat.eqb_eq in E. injection H as <-. auto.
Qed.

Lemma batchify_arr_shape {A : Type} (k : nat) (t u : ndarray A) (R : nat) (rest : list nat) :
  batchify_arr k t = Ok u -> shape t = R :: rest -> shape u = R * k :: rest.
Proof.
  unfold batchify_arr. intros H Hs. rewrite Hs in H. now injection H as <-.
Qed.

Lemma lift_unbatchify_shape (k : nat) (v v' : Tensor F) (R : nat) (rest : list nat) :
  lift_arr (fun A => @unbatchify_arr A k) v = Ok v' -> tshape v = R :: rest ->
  R mod k = 0 /\ tshape v' = R / k :: k :: rest /\ dtype_of v' = dtype_of v.
Proof.
  destruct v; simpl; intros H Hs; apply rbind_ok_inv in H; destruct H as (u & Hu & H);
    injection H as <-; simpl;
    destruct (unbatchify_arr_shape _ _ Hu Hs); auto.
Qed.

Lemma lift_batchify_shape (k : nat) (v v' : Tensor F) (R : nat) (rest : list nat) :
  lift_arr (fun A => @batchify_arr A k) v = Ok v' -> tshape v = R :: rest ->
  tshape v' = R * k :: rest /\ dtype_of v' = dtype_of v.
Proof.
  destruct v; simpl; intros H Hs; apply rbind_ok_inv in H; destruct H as (u & Hu & H);
    injection H as <-; simpl; split; auto; eapply batchify_arr_shape; eauto.
Qed.

Lemma rearrange_shape {A : Type} (t u : ndarray A) :
  rearrange_bsl_sbl t = Ok u ->
  exists b s l, shape t = [b; s; l] /\ shape u = [s * b; l].
Proof.
  unfold rearrange_bsl_sbl.
  destruct (shape t) as [|b [|s [|l [|? ?]]]]; intros H; try discriminate.
  injection H as <-. eauto.
Qed.

Lemma trearrange_shape (t u : Tensor F) :
  trearrange_bsl_sbl t = Ok u ->
  exists b s l, tshape t = [b; s; l] /\ tshape u = [s * b; l].
Proof.
  destruct t; simpl; intros H; apply rbind_ok_inv in H; destruct H as (r & Hr & H);
    injection H as <-; simpl; eapply rearrange_shape; eauto.
Qed.

Variable imp : Imports F.
Variable self : Decoder F.
Hypothesis collaborators_shapes : keeps_shapes imp self.

Lemma get_log_p_shapes (cached : PrecomputedCache F) (td : TensorDict F)
    (temp : option F) (n : Z) (fr fr' : frame)
    (lp : ndarray F) (m : Tensor F) (R N : nat) :
  state_ok R N td ->
  _get_log_p self cached td temp n fr = (Ok (lp, m), fr') ->
  shape lp = scores_shape n R N /\ tshape m = scores_shape n R N.
Proof.
  intros (Hbs & am & Hget & Hsh & _) H.
  apply get_log_p_inv in H. destruct H as (lp3 & m3 & Hs & Hfold).
  apply get_log_p_scores_inv in Hs.
  destruct Hs as (_ & td_u & am_u & q & k & v & lk & Hu & Hget_u & Hinv & Hatt).
  apply (shape_attention collaborators_shapes) in Hatt.
  apply invert_shape in Hinv. rewrite Hinv in Hatt.
  unfold unbatchify_td in Hu. unfold scores_shape.
  destruct (0 <? n)%Z eqn:Hpos.
  - apply Z.ltb_lt in Hpos.
    destruct (td_get_unbatchify_td_single _ _ _ Hu Hget) as (am' & Hlift & Hget').
    rewrite Hget_u in Hget'. injection Hget' as <-.
    destruct (lift_unbatchify_shape _ _ Hlift Hsh) as (Hmod & Hshu & _).
    destruct (1 <? n)%Z eqn:Hfoldb.
    + apply Z.ltb_lt in Hfoldb.
      replace (n =? 1)%Z with false by (symmetry; apply Z.eqb_neq; lia).
      destruct Hfold as (Hlp & Hm).
      assert (HR : Z.to_nat n * (R / Z.to_nat n) = R).
      { symmetry. now apply Nat.Div0.div_exact. }
      apply rearrange_shape in Hlp. destruct Hlp as (b & s & l & Hlp3 & ->).
      apply trearrange_shape in Hm. destruct Hm as (b' & s' & l' & Hm3 & ->).
      rewrite Hatt, Hshu in Hlp3. rewrite Hinv, Hshu in Hm3.
      injection Hlp3 as <- <- <-. injection Hm3 as <- <- <-.
      now rewrite HR.
    + apply Z.ltb_ge in Hfoldb. assert (n = 1%Z) by lia. subst n. simpl.
      destruct Hfold as (-> & ->). change (Z.to_nat 1) with 1 in Hshu.
      rewrite Nat.div_1_r in Hshu. now rewrite Hatt, Hinv, Hshu.
  - apply Z.ltb_ge in Hpos.
    replace (n =? 1)%Z with false by (symmetry; apply Z.eqb_neq; lia).
    replace (1 <? n)%Z with false in Hfold by (symmetry; apply Z.ltb_ge; lia).
    destruct Hfold as (-> & ->). injection Hu as <-.
    rewrite Hget in Hget_u. injection Hget_u as <-.
    now rewrite Hatt, Hinv, Hsh.
Qed.

Lemma state_ok_step (R N : nat) (td td_a td' : TensorDict F) (action : Tensor F) :
  state_ok R N td ->
  td_set "action" action td = Ok td_a ->
  env_step_next (env self) td_a = Ok td' ->
  state_ok R N td'.
Proof.
  intros (Hbs & am & Hget & Hsh & Hdt) Hset Hstep.
  assert (Hget_a : td_get "action_mask" td_a = Ok am).
  { rewrite <- Hget. eapply td_get_set_other; [|exact Hset]. discriminate. }
  apply td_set_ok_inv in Hset. destruct Hset as (_ & ->).
  destruct (shape_step collaborators_shapes _ Hstep) as (Hbs' & Ham).
  destruct (Ham _ Hget_a) as (am' & Hget' & Hsh' & Hdt').
  split; [simpl in Hbs'; congruence|].
  exists am'. repeat split; congruence.
Qed.

Lemma vector_shape (R : nat) (td td_a : TensorDict F) (action : ndarray Z) :
  batch_size td = [R] -> ndim action = 1 ->
  td_set "action" (TLong action) td = Ok td_a ->
  shape action = [R].
Proof.
  intros Hbs Hnd Hset. apply td_set_ok_inv in Hset. destruct Hset as (Hpre & _).
  rewrite Hbs in Hpre. simpl in Hpre. unfold ndim in Hnd.
  destruct (shape action) as [|d [|? ?]]; try discriminate. exact Hpre.
Qed.

Lemma iteration_shapes (dt : string) (temp : option F) (n : Z) (fr fr' : frame)
    (lp : ndarray F) (action : ndarray Z) (R N : nat) :
  state_ok R N (f_td fr) ->
  iteration imp self dt temp n fr lp action fr' ->
  state_ok R N (f_td fr') /\ shape lp = scores_shape n R N /\ shape action = [R].
Proof.
  intros Hok (cached & m & td_a & td' & _ & Hg & Hd & Hset & Hstep & ->). simpl.
  split; [eapply state_ok_step; eauto|]. split.
  - eapply get_log_p_shapes in Hg; [apply Hg|exact Hok].
  - eapply vector_shape; eauto; [apply Hok|].
    eapply (shape_decode collaborators_shapes); eauto.
Qed.

Lemma loop_run_shapes (dt : string) (temp : option F) (n : Z) (fr fr' : frame)
    (steps : list (ndarray F * ndarray Z)) (R N : nat) :
  loop_run imp self dt temp n fr steps fr' ->
  state_ok R N (f_td fr) ->
  state_ok R N (f_td fr') /\
  Forall (fun s => shape (fst s) = scores_shape n R N /\ shape (snd s) = [R]) steps.
Proof.
  induction 1 as [|fr fr1 fr' lp action steps Hc Hit Hrun IH]; intros Hok.
  - auto.
  - destruct (iteration_shapes Hok Hit) as (Hok1 & Hlp & Hact).
    destruct (IH Hok1) as (Hok' & Hall). auto.
Qed.

End Shapes.

(** ** The precompute stage *)

Section Precompute.

Context {F : Type} {SO : ScalarOps F}.

Lemma chunk_sizes_three (D : nat) : chunk_sizes 3 (3 * D) = [D; D; D].
Proof.
  unfold chunk_sizes. destruct (Nat.eq_dec D 0) as [->|HD].
  - reflexivity.
  - replace (3 * D =? 0) with false by (symmetry; apply Nat.eqb_neq; lia).
    assert (Hss : (3 * D + 3 - 1) / 3 = D).
    { symmetry. apply Nat.div_unique with (r := 2); lia. }
    rewrite Hss.
    assert (Hn : (3 * D + D - 1) / D = 3).
    { symmetry. apply Nat.div_unique with (r := D - 1); lia. }
    rewrite Hn. cbn [seq map]. f_equal; [lia|f_equal; [lia|f_equal; lia]].
Qed.

Lemma numel_app (a b : list nat) : numel (a ++ b) = numel a * numel b.
Proof. induction a as [|x a IH]; simpl; [lia|]. rewrite IH. lia. Qed.

Lemma length_flat_map_const {A B : Type} (f : A -> list B) (r : nat) (l : list A) :
  Forall (fun i => length (f i) = r) l -> length (flat_map f l) = length l * r.
Proof.
  induction 1 as [|x l Hx _ IH]; simpl; [reflexivity|].
  rewrite length_app, Hx, IH. lia.
Qed.

(** The rows of a projected tensor. *)
Lemma apply_linear_rows (lin : Linear F) (x : ndarray F) (pre : list nat) :
  shape x = pre ++ [in_features lin] ->
  exists y, apply_linear lin x = Ok y /\
    shape y = pre ++ [out_features lin] /\ wf_array y /\
    forall i, i < numel pre ->
      chunk (out_features lin) i (data y) =
      map (fun j => dot (in_features lin) (weight lin j) (chunk (in_features lin) i (data x)))
        (seq 0 (out_features lin)).
Proof.
  intros Hs. unfold apply_linear. rewrite Hs, rev_app_distr. simpl.
  rewrite Nat.eqb_refl, rev_involutive. eexists. split; [reflexivity|]. simpl.
  assert (Hrows : Forall (fun i => length
             (map (fun j => dot (in_features lin) (weight lin j)
                              (chunk (in_features lin) i (data x)))
                (seq 0 (out_features lin))) = out_features lin) (seq 0 (numel pre))).
  { apply Forall_forall. intros i _. now rewrite length_map, length_seq. }
  split; [reflexivity|]. split.
  - unfold wf_array. simpl.
    rewrite length_flat_map_const with (r := out_features lin) by exact Hrows.
    rewrite length_seq, numel_app. simpl. lia.
  - intros i Hi. rewrite chunk_flat_map with (r := out_features lin) (d := 0);
      [|exact Hrows|now rewrite length_seq].
    now rewrite seq_nth.
Qed.

(** The rows of a slice of the last axis. *)
Lemma narrow_last_rows {A : Type} (start len d : nat) (x : ndarray A) (pre : list nat) :
  shape x = pre ++ [d] -> wf_array x -> start + len <= d ->
  shape (narrow_last start len x) = pre ++ [len] /\
  wf_array (narrow_last start len x) /\
  forall i, i < numel pre ->
    chunk len i (data (narrow_last start len x)) = firstn len (skipn start (chunk d i (data x))).
Proof.
  intros Hs Hwf Hle. unfold narrow_last. rewrite Hs, rev_app_distr. simpl.
  rewrite rev_involutive.
  unfold wf_array in Hwf. rewrite Hs, numel_app in Hwf. simpl in Hwf.
  assert (Hrows : Forall (fun i => length (firstn len (skipn start (chunk d i (data x)))) = len)
                    (seq 0 (numel pre))).
  { apply Forall_forall. intros i Hi. apply in_seq in Hi.
    rewrite length_firstn, length_skipn, length_chunk; [lia|]. rewrite Hwf. nia. }
  split; [reflexivity|]. split.
  - unfold wf_array. simpl.
    rewrite length_flat_map_const with (r := len) by exact Hrows.
    rewrite length_seq, numel_app. simpl. lia.
  - intros i Hi. rewrite chunk_flat_map with (r := len) (d := 0);
      [|exact Hrows|now rewrite length_seq].
    now rewrite seq_nth.
Qed.

Lemma mean1_rows (x : ndarray F) (B N D : nat) :
  shape x = [B; N; D] ->
  exists y, mean1 x = Ok y /\ shape y = [B; D] /\ wf_array y /\
    forall b, b < B ->
      chunk D b (data y) =
      map (fun j => fdiv (fsum (map (fun n => nth ((b * N + n) * D + j) (data x) fzero)
                                    (seq 0 N)))
                         (f_of_Z (Z.of_nat N)))
        (seq 0 D).
Proof.
  intros Hs. unfold mean1. rewrite Hs. eexists. split; [reflexivity|].
  cbn [shape data numel fold_right]. rewrite Nat.mul_1_r.
  split; [reflexivity|]. split.
  - unfold wf_array. cbn [shape data numel fold_right].
    rewrite length_pairs_major. lia.
  - intros b Hb. unfold pairs_major.
    rewrite chunk_flat_map with (r := D) (d := 0).
    + now rewrite seq_nth.
    + apply Forall_forall. intros i _. now rewrite length_map, length_seq.
    + now rewrite length_seq.
Qed.

Lemma chunk_concat_repeat {A : Type} (d : list A) (k s : nat) :
  s < k -> chunk (length d) s (concat (repeat d k)) = d.
Proof.
  revert s. induction k as [|k IH]; intros s Hs; [lia|]. simpl.
  destruct s as [|s].
  - now apply chunk_app_first.
  - rewrite chunk_app_next by reflexivity. apply IH. lia.
Qed.

(** Modelled layout of [batchify]: copy [s] of row [b] is row [s * R + b]. *)
Lemma batchify_arr_rows {A : Type} (k : nat) (t : ndarray A) (R : nat) (rest : list nat) :
  shape t = R :: rest -> wf_array t ->
  exists u, batchify_arr k t = Ok u /\ shape u = R * k :: rest /\ wf_array u /\
    forall s b, s < k -> b < R ->
      chunk (numel rest) (s * R + b) (data u) = chunk (numel rest) b (data t).
Proof.
  intros Hs Hwf. unfold batchify_arr. rewrite Hs. eexists. split; [reflexivity|].
  unfold wf_array in Hwf. rewrite Hs in Hwf. simpl in Hwf.
  cbn [shape data]. split; [reflexivity|]. split.
  - unfold wf_array. cbn [shape data]. rewrite length_concat.
    rewrite map_repeat. simpl.
    assert (Hsum : forall n x, list_sum (repeat x n) = n * x).
    { induction n as [|n IH]; intros x; simpl; [reflexivity|]. now rewrite IH. }
    rewrite Hsum, Hwf. lia.
  - intros s b Hs' Hb. rewrite <- chunk_chunk by exact Hb.
    replace (R * numel rest) with (length (data t)) by (rewrite Hwf; reflexivity).
    now rewrite chunk_concat_repeat.
Qed.

(** The graph context of every rollout is the one of its instance. *)
Lemma graph_context_replicated (ctx : ndarray F) (B D : nat) (n : Z) :
  shape ctx = [B; D] -> wf_array ctx ->
  exists gc,
    rbind (batchify ctx n) (fun batched => unbatchify batched n) = Ok gc /\
    shape gc = (if (0 <? n)%Z then [B; Z.to_nat n; D] else [B; D]) /\
    forall b s, b < B -> s < (if (0 <? n)%Z then Z.to_nat n else 1) ->
      chunk D (if (0 <? n)%Z then b * Z.to_nat n + s else b) (data gc) = chunk D b (data ctx).
Proof.
  intros Hs Hwf. unfold batchify, unbatchify.
  destruct (0 <? n)%Z eqn:Hpos.
  - apply Z.ltb_lt in Hpos. set (k := Z.to_nat n). assert (Hk : 0 < k) by (unfold k; lia).
    destruct (batchify_arr_rows k Hs Hwf) as (u & Hu & Hus & Huwf & Hurows).
    assert (Hmod : (B * k) mod k = 0) by (apply Nat.Div0.mod_mul).
    destruct (unbatchify_arr_rows Hus Huwf Hmod Hk) as (gc & Hgc & Hgcs & _ & Hgcrows).
    rewrite Nat.div_mul in Hgcs, Hgcrows by lia.
    exists gc. simpl. rewrite Hu. simpl. split; [exact Hgc|]. split; [exact Hgcs|].
    intros b s Hb Hs'. simpl in Hgcrows, Hurows. rewrite Nat.mul_1_r in *.
    rewrite Hgcrows, Hurows by assumption. reflexivity.
  - exists ctx. simpl. auto.
Qed.

Lemma three_pieces {A : Type} (D : nat) (row : list A) :
  length row = 3 * D ->
  firstn D (skipn (0 * D) row) ++ firstn D (skipn (1 * D) row)
    ++ firstn D (skipn (2 * D) row) = row.
Proof.
  intros Hlen. rewrite <- (firstn_all2 (n := D + (D + D)) row) at 4 by lia.
  rewrite !firstn_add, skipn_skipn.
  replace (0 * D) with 0 by lia. replace (1 * D) with D by lia.
  replace (2 * D) with (D + D) by lia. reflexivity.
Qed.

Lemma precompute_rows
    (w_node w_context : nat -> nat -> F) (D : nat)
    (self : Decoder F) (embeddings : ndarray F) (B N : nat) (num_starts : Z) :
  project_node_embeddings self = nn_Linear D (3 * D) w_node ->
  project_fixed_context self = nn_Linear D D w_context ->
  shape embeddings = [B; N; D] ->
  exists c,
    _precompute self embeddings num_starts = Ok c /\
    node_embeddings c = embeddings /\
    shape (glimpse_key c) = [B; N; D] /\
    shape (glimpse_val c) = [B; N; D] /\
    shape (logit_key c) = [B; N; D] /\
    (forall i, i < B * N ->
       chunk D i (data (glimpse_key c)) ++ chunk D i (data (glimpse_val c))
         ++ chunk D i (data (logit_key c))
       = map (fun j => dot D (w_node j) (chunk D i (data embeddings))) (seq 0 (3 * D))) /\
    shape (graph_context c)
      = (if (0 <? num_starts)%Z then [B; Z.to_nat num_starts; D] else [B; D]) /\
    (forall b s, b < B -> s < (if (0 <? num_starts)%Z then Z.to_nat num_starts else 1) ->
       chunk D (if (0 <? num_starts)%Z then b * Z.to_nat num_starts + s else b)
         (data (graph_context c))
       = map (fun j =>
                dot D (w_context j)
                  (map (fun d =>
                          fdiv (fsum (map (fun n => nth ((b * N + n) * D + d) (data embeddings)
                                                      fzero) (seq 0 N)))
                               (f_of_Z (Z.of_nat N)))
                     (seq 0 D)))
           (seq 0 D)).
Proof.
  intros Hnode Hcontext Hs.
  unfold _precompute. rewrite Hnode, Hcontext.
  (* the projection of the nodes *)
  destruct (@apply_linear_rows (nn_Linear D (3 * D) w_node) embeddings [B; N] Hs)
    as (proj & Hproj & Hprojs & Hprojwf & Hprojrows).
  rewrite Hproj. cbn [rbind in_features out_features nn_Linear weight] in *.
  unfold torch_chunk_last. rewrite Hprojs. cbn [rev app].
  rewrite chunk_sizes_three. cbn [length seq map nth unpack3 rbind].
  assert (Hss : (3 * D + 3 - 1) / 3 = D).
  { symmetry. apply Nat.div_unique with (r := 2); lia. }
  rewrite Hss.
  destruct (@narrow_last_rows F (0 * D) D (3 * D) proj [B; N] Hprojs Hprojwf ltac:(lia))
    as (Hk1 & _ & Hr1).
  destruct (@narrow_last_rows F (1 * D) D (3 * D) proj [B; N] Hprojs Hprojwf ltac:(lia))
    as (Hk2 & _ & Hr2).
  destruct (@narrow_last_rows F (2 * D) D (3 * D) proj [B; N] Hprojs Hprojwf ltac:(lia))
    as (Hk3 & _ & Hr3).
  (* the graph context *)
  edestruct mean1_rows as (mean & Hmean & Hmeans & Hmeanwf & Hmeanrows); [exact Hs|].
  rewrite Hmean. cbn [rbind].
  destruct (@apply_linear_rows (nn_Linear D D w_context) mean [B] Hmeans)
    as (ctx & Hctx & Hctxs & Hctxwf & Hctxrows).
  rewrite Hctx. cbn [rbind in_features out_features nn_Linear weight] in *.
  edestruct graph_context_replicated with (n := num_starts) as (gc & Hgc & Hgcs & Hgcrows);
    [exact Hctxs|exact Hctxwf|].
  unfold rbind in Hgc.
  destruct (batchify ctx num_starts) as [batched| |]; try discriminate.
  cbn [rbind]. rewrite Hgc. cbn [rbind].
  eexists. split; [reflexivity|].
  cbn [node_embeddings glimpse_key glimpse_val logit_key graph_context].
  split; [reflexivity|]. split; [exact Hk1|]. split; [exact Hk2|]. split; [exact Hk3|].
  split; [|split; [exact Hgcs|]].
  - intros i Hi.
    assert (Hi' : i < numel [B; N]) by (simpl; lia).
    rewrite Hr1, Hr2, Hr3, <- Hprojrows by exact Hi'.
    set (row := chunk (3 * D) i (data proj)).
    assert (Hlen : length row = 3 * D).
    { unfold row. apply length_chunk. unfold wf_array in Hprojwf.
      rewrite Hprojwf, Hprojs. simpl. nia. }
    now apply three_pieces.
  - intros b s Hb Hs'. rewrite Hgcrows by assumption.
    assert (Hb' : b < numel [B]) by (simpl; lia).
    rewrite Hctxrows by exact Hb'. now rewrite Hmeanrows.
Qed.


Lemma Decoder_init_layers (imp : Imports F) (e : Env F) (D H : nat)
    (w_node w_context : nat -> nat -> F) (self : Decoder F) :
  Decoder_init imp e D H w_node w_context = Ok self ->
  project_node_embeddings self = nn_Linear D (3 * D) w_node /\
  project_fixed_context self = nn_Linear D D w_context /\
  embedding_dim self = D /\ D mod H = 0.
Proof.
  unfold Decoder_init. destruct (H =? 0); [discriminate|].
  destruct (D mod H =? 0) eqn:E; [|discriminate]. simpl.
  intros Hinit. injection Hinit as <-. apply Nat.eqb_eq in E. auto.
Qed.


End Precompute.

(** ** The seeding step *)

Section Seeding.

Context {F : Type} {SO : ScalarOps F}.

Variable imp : Imports F.
Variable self : Decoder F.
Hypothesis collaborators_shapes : keeps_shapes imp self.

Lemma batchify_td_single_batch (k : nat) (td td_b : TensorDict F) (B : nat) :
  batchify_td_single k td = Ok td_b -> batch_size td = [B] -> batch_size td_b = [B * k].
Proof.
  unfold batchify_td_single. intros H Hbs. rewrite Hbs in H. simpl in H.
  apply rbind_ok_inv in H. destruct H as (fs & _ & H). now injection H as <-.
Qed.

Lemma trow_batchify (k : nat) (v v' : Tensor F) (B : nat) (rest : list nat) :
  lift_arr (fun A => @batchify_arr A k) v = Ok v' ->
  tshape v = B :: rest -> twf v ->
  forall s b, s < k -> b < B ->
    trow (numel rest) (s * B + b) v' = trow (numel rest) b v.
Proof.
  intros H Hs Hwf s b Hs' Hb.
  destruct v as [a|a|a]; simpl in *;
    destruct (batchify_arr_rows k Hs Hwf) as (u & Hu & _ & _ & Hrows);
    rewrite Hu in H; injection H as <-; simpl; now rewrite Hrows.
Qed.

(** C5. After the seeding step for [k > 1] starts on a state of [B]
    instances, the state has [k * B] rows, where row [s * B + b] is copy
    [s] of instance [b]; the action recorded as step 0 is the one the
    seeding policy returned, and the [k] starts of every instance are
    pairwise distinct. *)
Theorem seeding_expands_batch_with_distinct_starts
    (n : Z) (fr fr' : frame) (B : nat) :
  seeding_policy_ok imp ->
  (1 < n)%Z ->
  batch_size (f_td fr) = [B] ->
  multistart_seed imp self n fr = (Ok tt, fr') ->
  let k := Z.to_nat n in
  batch_size (f_td fr') = [k * B] /\
  (exists action,
     select_start_nodes imp (f_td fr) n (env self) = Ok action /\
     f_actions fr' = f_actions fr ++ [action] /\
     distinct_starts B k action) /\
  (exists td_b,
     batchify_td (f_td fr) n = Ok td_b /\
     batch_size td_b = [k * B] /\
     forall key v rest, td_get key (f_td fr) = Ok v -> tshape v = B :: rest -> twf v ->
       exists v', td_get key td_b = Ok v' /\
         forall s b, s < k -> b < B ->
           trow (numel rest) (s * B + b) v' = trow (numel rest) b v).
Proof.
  intros Hpolicy Hn Hbs Hseed k.
  apply multistart_seed_ok_inv in Hseed.
  destruct Hseed as (action & td_b & td_a & td_s & am & Hsel & Hb & Hset & Hstep & Ham & ->).
  simpl. pose proof Hb as Hb0. unfold batchify_td in Hb.
  replace (0 <? n)%Z with true in Hb by (symmetry; apply Z.ltb_lt; lia).
  fold k in Hb.
  pose proof (batchify_td_single_batch _ _ Hb Hbs) as Hbs_b.
  rewrite Nat.mul_comm in Hbs_b.
  split; [|split].
  - destruct (shape_step collaborators_shapes _ Hstep) as (Hbs_s & _).
    apply td_set_ok_inv in Hset. destruct Hset as (_ & ->). simpl in Hbs_s. congruence.
  - exists action. repeat split; auto; now apply (Hpolicy _ _ _ _ _ Hbs Hsel).
  - exists td_b. repeat split; auto.
    intros key v rest Hget Hshape Hwf.
    destruct (td_get_batchify_td_single _ _ _ Hb Hget) as (v' & Hlift & Hget').
    exists v'. split; [exact Hget'|]. now apply trow_batchify.
Qed.

End Seeding.

(** ** The whole decode *)

Section Decode.

Context {F : Type} {SO : ScalarOps F}.

Lemma stack1_ok {A : Type} (ts : list (ndarray A)) (d0 : nat) (rest : list nat) :
  ts <> [] -> Forall (fun t => shape t = d0 :: rest) ts ->
  exists O, stack1 ts = Ok O.
Proof.
  intros Hne Hall. unfold stack1. destruct ts as [|t0 ts']; [contradiction|].
  assert (H0 : shape t0 = d0 :: rest) by (now inversion Hall).
  replace (forallb (fun t => list_nat_eqb (shape t) (shape t0)) (t0 :: ts')) with true.
  - rewrite H0. eauto.
  - symmetry. apply forallb_forall. intros t Ht. rewrite Forall_forall in Hall.
    apply list_nat_eqb_eq. rewrite H0. now apply Hall.
Qed.

Lemma torch_stack1_ok (ts : list (Tensor F)) (d0 : nat) (rest : list nat) :
  ts <> [] -> Forall (fun t => tshape t = d0 :: rest) ts ->
  exists O, torch_stack1 ts = Ok O.
Proof.
  intros Hne Hall. unfold torch_stack1.
  destruct (result_type ts).
  - destruct (@stack1_ok bool (map as_bool ts) d0 rest) as (O & ->).
    + destruct ts; [contradiction|discriminate].
    + apply Forall_map. eapply Forall_impl; [|exact Hall].
      intros t Ht. now rewrite shape_as_bool.
    + simpl. eauto.
  - destruct (@stack1_ok Z (map as_long ts) d0 rest) as (O & ->).
    + destruct ts; [contradiction|discriminate].
    + apply Forall_map. eapply Forall_impl; [|exact Hall].
      intros t Ht. now rewrite shape_as_long.
    + simpl. eauto.
  - destruct (@stack1_ok F (map as_float ts) d0 rest) as (O & ->).
    + destruct ts; [contradiction|discriminate].
    + apply Forall_map. eapply Forall_impl; [|exact Hall].
      intros t Ht. now rewrite shape_as_float.
    + simpl. eauto.
Qed.

Variable imp : Imports F.
Variable self : Decoder F.

Lemma forward_phases (fuel : nat) (td : TensorDict F) (embeddings : ndarray F) (dt : string)
    (temp : option F) (ns : option Z) (calc : bool) (c : PrecomputedCache F)
    (fr2 fr3 : frame) :
  let n := normalize_num_starts ns in
  py_in "multistart" dt && (n <=? 1)%Z = false ->
  _precompute self embeddings n = Ok c ->
  (if seeding dt n
   then multistart_seed imp self n (after_precompute td c) = (Ok tt, fr2)
   else fr2 = after_precompute td c) ->
  main_loop imp self dt temp n fuel fr2 = (Ok tt, fr3) ->
  forward imp self fuel td embeddings dt temp ns calc = finish self calc fr3.
Proof.
  intros n Hguard Hpre Hseed Hloop. unfold forward, forward_body. fold n.
  rewrite Hguard.
  erewrite bind_ok by reflexivity.
  erewrite bind_ok by (apply call_ok; exact Hpre).
  erewrite bind_ok by reflexivity.
  unfold seeding in Hseed. change (init_frame td) with (mkFrame td None [] [] []). simpl.
  fold (after_precompute td c).
  destruct ((1 <? n)%Z || py_in "multistart" dt).
  - erewrite bind_ok by exact Hseed. erewrite bind_ok by exact Hloop. reflexivity.
  - subst fr2. erewrite bind_ok by reflexivity. erewrite bind_ok by exact Hloop. reflexivity.
Qed.

Lemma finish_without_reward (fr : frame) (O : Tensor F) (A : ndarray Z) :
  torch_stack1 (f_outputs fr) = Ok O -> stack1 (f_actions fr) = Ok A ->
  finish self false fr = (Ok (O, A, f_td fr), logged EvStack fr).
Proof.
  intros HO HA. unfold finish, bind, read_outputs, read_actions, log, lift, ret, read_td.
  simpl. rewrite HO, HA. reflexivity.
Qed.

Hypothesis collaborators_shapes : keeps_shapes imp self.

Lemma multistart_seed_state (n : Z) (fr fr' : frame) (B N : nat) :
  (0 < n)%Z ->
  state_ok B N (f_td fr) ->
  multistart_seed imp self n fr = (Ok tt, fr') ->
  let R := B * Z.to_nat n in
  state_ok R N (f_td fr') /\
  exists action am,
    select_start_nodes imp (f_td fr) n (env self) = Ok action /\
    td_get "action_mask" (f_td fr') = Ok am /\
    tshape am = [R; N] /\ dtype_of am = DBool /\
    shape action = [R] /\
    f_outputs fr' = f_outputs fr ++ [zeros_like am] /\
    f_actions fr' = f_actions fr ++ [action] /\
    f_cached fr' = f_cached fr /\
    f_trace fr' = f_trace fr ++ [EvSelectStartNodes; EvBatchify; EvEnvStep].
Proof.
  intros Hn (Hbs & am0 & Hget0 & Hsh0 & Hdt0) Hseed R.
  apply multistart_seed_ok_inv in Hseed.
  destruct Hseed as (action & td_b & td_a & td_s & am & Hsel & Hb & Hset & Hstep & Ham & ->).
  simpl. unfold batchify_td in Hb.
  replace (0 <? n)%Z with true in Hb by (symmetry; apply Z.ltb_lt; lia).
  pose proof (batchify_td_single_batch _ _ Hb Hbs) as Hbs_b. fold R in Hbs_b.
  destruct (td_get_batchify_td_single _ _ _ Hb Hget0) as (am_b & Hlift & Hget_b).
  destruct (lift_batchify_shape _ _ Hlift Hsh0) as (Hsh_b & Hdt_b). fold R in Hsh_b.
  assert (Hok_b : state_ok R N td_b).
  { split; [exact Hbs_b|]. exists am_b. repeat split; congruence. }
  assert (Hok_s : state_ok R N td_s) by (eapply state_ok_step; eauto).
  split; [exact Hok_s|].
  destruct Hok_s as (_ & am' & Hget' & Hsh' & Hdt').
  rewrite Ham in Hget'. injection Hget' as <-.
  exists action, am. repeat split; auto.
  eapply vector_shape; eauto. eapply (shape_select collaborators_shapes); eauto.
Qed.

End Decode.

Section DecodeClaims.

Context {F : Type} {SO : ScalarOps F}.

Variable imp : Imports F.
Variable self : Decoder F.
Hypothesis collaborators_wf : returns_wf imp self.
Hypothesis collaborators_shapes : keeps_shapes imp self.

Lemma reaches_cache (dt : string) (temp : option F) (n : Z) (fr fr' : frame) :
  reaches imp self dt temp n fr fr' -> f_cached fr' = f_cached fr.
Proof.
  induction 1 as [|fr fr1 fr' lp action Hit _ IH]; [reflexivity|].
  rewrite IH. destruct Hit as (cached & m & td_a & td' & _ & _ & _ & _ & _ & ->).
  reflexivity.
Qed.

Lemma reaches_state_ok (dt : string) (temp : option F) (n : Z) (fr fr' : frame) (R N : nat) :
  reaches imp self dt temp n fr fr' -> state_ok R N (f_td fr) -> state_ok R N (f_td fr').
Proof.
  induction 1 as [|fr fr1 fr' lp action Hit _ IH]; intros Hok; [assumption|].
  apply IH. eapply iteration_shapes; eauto.
Qed.

(** C4. When the seeding branch is entered, entry 0 of the returned
    trajectory is the seed action together with log-probabilities that are
    all zero. They are recorded after the seed action was applied as a
    transition of the environment on the replicated state, and stacking
    them with the scores and actions of the main loop succeeds and keeps
    them. *)
Theorem seed_is_step_zero_of_the_trajectory
    (fuel : nat) (td : TensorDict F) (embeddings : ndarray F) (dt : string)
    (temp : option F) (n : Z) (c : PrecomputedCache F) (fr2 fr3 : frame)
    (steps : list (ndarray F * ndarray Z)) (B N : nat) :
  (1 < n)%Z ->
  state_ok B N td ->
  _precompute self embeddings n = Ok c ->
  multistart_seed imp self n (after_precompute td c) = (Ok tt, fr2) ->
  loop_run imp self dt temp n fr2 steps fr3 ->
  length steps <= fuel ->
  exists action td_b td_a am O A,
    select_start_nodes imp td n (env self) = Ok action /\
    batchify_td td n = Ok td_b /\
    td_set "action" (TLong action) td_b = Ok td_a /\
    env_step_next (env self) td_a = Ok (f_td fr2) /\
    td_get "action_mask" (f_td fr2) = Ok am /\
    f_outputs fr2 = [zeros_like am] /\
    f_actions fr2 = [action] /\
    torch_stack1 (f_outputs fr3) = Ok O /\
    stack1 (f_actions fr3) = Ok A /\
    forward imp self fuel td embeddings dt temp (Some n) false
      = (Ok (O, A, f_td fr3), logged EvStack fr3) /\
    (forall O' A' td' fr',
        forward imp self fuel td embeddings dt temp (Some n) true = (Ok (O', A', td'), fr') ->
        O' = O /\ A' = A) /\
    (exists z, tselect1 0 O = Ok z /\ is_zero_tensor z /\ tshape z = tshape am) /\
    select1 0 A = Ok action.
Proof.
  intros Hn Hok Hpre Hseed Hrun Hfuel.
  pose proof Hseed as Hseed'.
  apply multistart_seed_ok_inv in Hseed'.
  destruct Hseed' as (action & td_b & td_a & td_s & am & Hsel & Hb & Hset & Hstep & Ham & Hfr2).
  simpl in Hsel, Hb, Hfr2.
  assert (Hpos : (0 < n)%Z) by lia.
  destruct (@multistart_seed_state F SO imp self collaborators_shapes n
              (after_precompute td c) fr2 B N Hpos Hok Hseed)
    as (Hok2 & action' & am' & _ & Ham' & Hsh & Hdt & Hsha & _ & Ha2 & _).
  assert (Htd2 : f_td fr2 = td_s) by (now rewrite Hfr2).
  rewrite Htd2 in Ham'. rewrite Ham in Ham'. injection Ham' as <-.
  assert (Hact2 : f_actions fr2 = [action]) by (now rewrite Hfr2).
  assert (Hout2 : f_outputs fr2 = [zeros_like am]) by (now rewrite Hfr2).
  assert (Hsha' : shape action = [B * Z.to_nat n]).
  { rewrite Hact2 in Ha2. simpl in Ha2. injection Ha2 as <-. exact Hsha. }
  set (R := B * Z.to_nat n) in *.
  destruct (loop_run_shapes collaborators_shapes Hrun Hok2) as (Hok3 & Hshapes).
  pose proof (loop_run_frame Hrun) as (_ & Houts & Hacts & _).
  pose proof (loop_run_wf collaborators_wf Hrun) as Hwf.
  assert (Hss : scores_shape n R N = [R; N]).
  { unfold scores_shape. replace (n =? 1)%Z with false; [reflexivity|].
    symmetry. apply Z.eqb_neq. lia. }
  rewrite Hout2 in Houts. rewrite Hact2 in Hacts.
  destruct (@torch_stack1_ok F SO (f_outputs fr3) R [N]) as (O & HO).
  { rewrite Houts. discriminate. }
  { rewrite Houts. constructor; [now rewrite tshape_zeros_like|].
    apply Forall_map. eapply Forall_impl; [|exact Hshapes].
    intros s (Hs & _). simpl. now rewrite Hs, Hss. }
  destruct (@stack1_ok Z (f_actions fr3) R []) as (A & HA).
  { rewrite Hacts. discriminate. }
  { rewrite Hacts. constructor; [exact Hsha'|].
    apply Forall_map. eapply Forall_impl; [|exact Hshapes]. intros s (_ & Hs). exact Hs. }
  assert (Hguard : py_in "multistart" dt && (normalize_num_starts (Some n) <=? 1)%Z = false).
  { simpl. replace (n <=? 1)%Z with false by (symmetry; apply Z.leb_gt; lia).
    apply andb_false_r. }
  assert (Hseeding : seeding dt (normalize_num_starts (Some n)) = true).
  { unfold seeding. simpl. replace (1 <? n)%Z with true by (symmetry; apply Z.ltb_lt; lia).
    reflexivity. }
  assert (Hphases : forall calc,
             forward imp self fuel td embeddings dt temp (Some n) calc = finish self calc fr3).
  { intros calc. eapply forward_phases; eauto.
    - rewrite Hseeding. exact Hseed.
    - eapply loop_run_main_loop; eauto. }
  assert (Hwf_am : twf am).
  { eapply (wf_step collaborators_wf); eauto. }
  assert (Hwfouts : Forall twf (f_outputs fr3)).
  { rewrite Houts. constructor; [now apply twf_zeros_like|].
    apply Forall_map. eapply Forall_impl; [|exact Hwf]. intros s Hs. apply Hs. }
  assert (Hwfacts : Forall wf_array (f_actions fr3)).
  { rewrite Hacts. constructor; [eapply (wf_select collaborators_wf); eauto|].
    apply Forall_map. eapply Forall_impl; [|exact Hwf]. intros s Hs. apply Hs. }
  exists action, td_b, td_a, am, O, A.
  rewrite Htd2.
  split; [exact Hsel|]. split; [exact Hb|]. split; [exact Hset|]. split; [exact Hstep|].
  split; [exact Ham|]. split; [exact Hout2|]. split; [exact Hact2|].
  split; [exact HO|]. split; [exact HA|].
  split; [rewrite Hphases; now apply finish_without_reward|].
  split; [|split].
  - intros O' A' td' fr' Hfw. rewrite Hphases in Hfw.
    unfold finish, call in Hfw. inv_ok Hfw.
    match goal with E : (_, _, _) = (_, _, _) |- _ => injection E as -> -> -> end.
    simpl in *. split; congruence.
  - exists (cast (result_type (f_outputs fr3)) (zeros_like am)). split; [|split].
    + rewrite tselect1_torch_stack1 with (ts := f_outputs fr3) (dflt := zeros_like am);
        [|assumption|assumption|rewrite Houts; simpl; lia].
      now rewrite Houts.
    + now apply is_zero_cast_zeros_like.
    + now rewrite tshape_cast, tshape_zeros_like.
  - rewrite select1_stack1 with (ts := f_actions fr3) (dflt := action);
      [|assumption|assumption|rewrite Hacts; simpl; lia].
    now rewrite Hacts.
Qed.

(** C6. With [num_starts] 0 or 1 and a decode type that does not contain
    "multistart", the batch dimension of what [_precompute] and every
    [_get_log_p] call of the decode produce is the batch size [B] of the
    instance batch: the five tensors of the cache, the state at every
    iteration, the scores, the mask and the action of every iteration, and
    the stacked trajectory. Nothing is replicated: the graph context has
    [B * D] cells, the scores and the mask [B] times the number of nodes
    (with [num_starts = 1] they carry one more axis, of size 1). *)
Theorem batch_size_is_kept_without_starts
    (e : Env F) (D H : nat) (w_node w_context : nat -> nat -> F)
    (td : TensorDict F) (embeddings : ndarray F) (dt : string) (temp : option F)
    (n : Z) (B N Nodes : nat) :
  Decoder_init imp e D H w_node w_context = Ok self ->
  n = 0%Z \/ n = 1%Z ->
  py_in "multistart" dt = false ->
  shape embeddings = [B; N; D] ->
  state_ok B Nodes td ->
  exists c,
    _precompute self embeddings n = Ok c /\
    hd 0 (shape (node_embeddings c)) = B /\
    hd 0 (shape (graph_context c)) = B /\
    hd 0 (shape (glimpse_key c)) = B /\
    hd 0 (shape (glimpse_val c)) = B /\
    hd 0 (shape (logit_key c)) = B /\
    numel (shape (graph_context c)) = B * D /\
    (forall fr, reaches imp self dt temp n (after_precompute td c) fr ->
       f_cached fr = Some c /\
       batch_size (f_td fr) = [B] /\
       forall lp m fr', _get_log_p self c (f_td fr) temp n fr = (Ok (lp, m), fr') ->
         hd 0 (shape lp) = B /\ hd 0 (tshape m) = B /\
         numel (shape lp) = B * Nodes /\ numel (tshape m) = B * Nodes) /\
    (forall fuel calc O A td' fr',
       forward imp self fuel td embeddings dt temp (Some n) calc = (Ok (O, A, td'), fr') ->
       exists steps fr3,
         loop_run imp self dt temp n (after_precompute td c) steps fr3 /\
         batch_size (f_td fr3) = [B] /\
         Forall (fun s => hd 0 (shape (fst s)) = B /\ numel (shape (fst s)) = B * Nodes /\
                          shape (snd s) = [B]) steps /\
         hd 0 (tshape O) = B /\ hd 0 (shape A) = B).
Proof.
  intros Hinit Hn Hin Hs Hok.
  apply Decoder_init_layers in Hinit. destruct Hinit as (Hnode & Hcontext & _).
  edestruct precompute_rows with (num_starts := n)
    as (c & Hpre & Hemb & Hk & Hv & Hl & _ & Hgc & _); [exact Hnode|exact Hcontext|exact Hs|].
  exists c. split; [exact Hpre|].
  rewrite Hemb, Hs, Hk, Hv, Hl, Hgc.
  assert (Hhd : forall R, hd 0 (scores_shape n R Nodes) = R).
  { intros R. unfold scores_shape. now destruct (n =? 1)%Z. }
  assert (Hcells : forall R, numel (scores_shape n R Nodes) = R * Nodes).
  { intros R. unfold scores_shape, numel. destruct (n =? 1)%Z; simpl; lia. }
  repeat (split; [now destruct (0 <? n)%Z|]).
  split.
  { destruct Hn; subst n; unfold numel; simpl; lia. }
  split.
  - intros fr Hreach.
    assert (Hokfr : state_ok B Nodes (f_td fr)) by (eapply reaches_state_ok; eauto).
    split; [now rewrite (reaches_cache Hreach)|].
    split; [apply Hokfr|].
    intros lp m fr' Hg.
    edestruct get_log_p_shapes as (Hlp & Hm);
      [exact collaborators_shapes|exact Hokfr|exact Hg|].
    now rewrite Hlp, Hm, Hhd, Hcells.
  - intros fuel calc O A td' fr' Hfw.
    apply forward_ok_inv in Hfw. simpl normalize_num_starts in Hfw.
    destruct Hfw as (c' & fr2 & fr3 & steps & _ & Hpre' & Hseed & Hrun & _ & HO & HA & _).
    rewrite Hpre in Hpre'. injection Hpre' as <-.
    assert (Hnoseed : seeding dt n = false).
    { unfold seeding. rewrite Hin. destruct Hn; subst n; reflexivity. }
    rewrite Hnoseed in Hseed. subst fr2.
    destruct (loop_run_shapes collaborators_shapes Hrun Hok) as (Hok3 & Hshapes).
    pose proof (loop_run_frame Hrun) as (_ & Houts & Hacts & _). simpl in Houts, Hacts.
    exists steps, fr3. split; [exact Hrun|]. split; [apply Hok3|]. split.
    { eapply Forall_impl; [|exact Hshapes]. intros s (-> & ->). now rewrite Hhd, Hcells. }
    split.
    + destruct (torch_stack1_ok_inv _ HO) as (_ & t0 & ts' & d0 & rest & Hts & Hall & ->).
      simpl. rewrite Houts in Hts.
      destruct steps as [|[lp a] steps']; [discriminate|].
      simpl in Hts. rewrite Houts in Hall. simpl in Hall.
      inversion Hall as [|? ? Hhead _]. simpl in Hhead.
      inversion Hshapes as [|? ? (Hlp & _) _]. simpl in Hlp.
      rewrite Hlp in Hhead. specialize (Hhd B). rewrite Hhead in Hhd. exact Hhd.
    + destruct (stack1_ok_inv _ HA) as (t0 & ts' & d0 & rest & Hts & _ & Hall & ->).
      simpl. rewrite Hacts in Hts, Hall.
      destruct steps as [|[lp a] steps']; [discriminate|].
      simpl in Hall. inversion Hall as [|? ? Hhead _]. simpl in Hhead.
      inversion Hshapes as [|? ? (_ & Ha) _]. simpl in Ha.
      rewrite Ha in Hhead. now injection Hhead as <-.
Qed.

End DecodeClaims.

(** * Further properties of the decoder *)

(** ** The end of a decode *)

Section Finish.

Context {F : Type} {SO : ScalarOps F}.

Variable imp : Imports F.
Variable self : Decoder F.

Lemma td_get_set_same (key : string) (v : Tensor F) (td td' : TensorDict F) :
  td_set key v td = Ok td' -> td_get key td' = Ok v.
Proof.
  intros H. apply td_set_ok_inv in H. destruct H as (_ & ->).
  unfold td_get. simpl. now rewrite assoc_get_set_same.
Qed.

Lemma td_set_batch_size (key : string) (v : Tensor F) (td td' : TensorDict F) :
  td_set key v td = Ok td' -> batch_size td' = batch_size td.
Proof. intros H. apply td_set_ok_inv in H. now destruct H as (_ & ->). Qed.

Lemma finish_with_reward_inv (fr fr' : frame) (O : Tensor F) (A : ndarray Z)
    (td' : TensorDict F) :
  finish self true fr = (Ok (O, A, td'), fr') ->
  torch_stack1 (f_outputs fr) = Ok O /\ stack1 (f_actions fr) = Ok A /\
  exists reward,
    env_get_reward (env self) (f_td fr) A = Ok reward /\
    td_set "reward" reward (f_td fr) = Ok td' /\
    f_trace fr' = f_trace fr ++ [EvStack; EvGetReward].
Proof.
  unfold finish, call. intros H. inv_ok H. simpl in *.
  match goal with E : (_, _, _) = (_, _, _) |- _ => injection E as -> -> -> end.
  repeat (split; [assumption|]). eexists. repeat (split; [eassumption|]).
  now rewrite <- app_assoc.
Qed.

Lemma finish_without_reward_inv (fr fr' : frame) (O : Tensor F) (A : ndarray Z)
    (td' : TensorDict F) :
  finish self false fr = (Ok (O, A, td'), fr') ->
  torch_stack1 (f_outputs fr) = Ok O /\ stack1 (f_actions fr) = Ok A /\
  td' = f_td fr /\ fr' = logged EvStack fr.
Proof.
  unfold finish. intros H. inv_ok H. simpl in *.
  match goal with E : (_, _, _) = (_, _, _) |- _ => injection E as -> -> -> end.
  auto.
Qed.

(** A completed [forward] is the end of a run of the loop. *)
Lemma forward_ok_finish (fuel : nat) (td : TensorDict F) (embeddings : ndarray F)
    (dt : string) (temp : option F) (ns : option Z) (calc : bool)
    (O : Tensor F) (A : ndarray Z) (td' : TensorDict F) (fr' : frame) :
  forward imp self fuel td embeddings dt temp ns calc = (Ok (O, A, td'), fr') ->
  let n := normalize_num_starts ns in
  exists c fr2 fr3 steps,
    py_in "multistart" dt && (n <=? 1)%Z = false /\
    _precompute self embeddings n = Ok c /\
    (if seeding dt n
     then multistart_seed imp self n (after_precompute td c) = (Ok tt, fr2)
     else fr2 = after_precompute td c) /\
    loop_run imp self dt temp n fr2 steps fr3 /\
    (forall calc', forward imp self fuel td embeddings dt temp ns calc' = finish self calc' fr3).
Proof.
  intros H n. pose proof H as Hinv. apply forward_ok_inv in Hinv. fold n in Hinv.
  destruct Hinv as (c & fr2 & fr3 & steps & Hguard & Hpre & Hseed & Hrun & Hfuel & _).
  exists c, fr2, fr3, steps. repeat (split; [assumption|]).
  intros calc'. eapply forward_phases; eauto.
  eapply loop_run_main_loop; eauto.
Qed.

Lemma loop_run_stops_done (dt : string) (temp : option F) (n : Z) (fr fr' : frame)
    (steps : list (ndarray F * ndarray Z)) :
  loop_run imp self dt temp n fr steps fr' ->
  exists done, td_get "done" (f_td fr') = Ok done /\ torch_all done = true.
Proof.
  induction 1 as [fr Hc|]; [|assumption].
  unfold loop_condition, bind, read_td, lift, ret in Hc.
  destruct (td_get "done" (f_td fr)) as [done| |]; try discriminate.
  exists done. split; [reflexivity|].
  destruct (torch_all done); [reflexivity|discriminate].
Qed.

Lemma loop_run_trace (dt : string) (temp : option F) (n : Z) (fr fr' : frame)
    (steps : list (ndarray F * ndarray Z)) :
  loop_run imp self dt temp n fr steps fr' ->
  f_trace fr' = f_trace fr ++ concat (repeat [EvGetLogP; EvDecodeProbs; EvEnvStep] (length steps)).
Proof.
  induction 1 as [fr Hc|fr fr1 fr' lp action steps Hc Hit Hrun IH].
  - simpl. now rewrite app_nil_r.
  - destruct Hit as (cached & m & td_a & td' & _ & _ & _ & _ & _ & ->).
    rewrite IH. simpl. now rewrite <- app_assoc.
Qed.

Lemma entry_frame (td : TensorDict F) (c : PrecomputedCache F) (dt : string) (n : Z)
    (fr2 : frame) :
  (if seeding dt n
   then multistart_seed imp self n (after_precompute td c) = (Ok tt, fr2)
   else fr2 = after_precompute td c) ->
  let k := if seeding dt n then 1 else 0 in
  length (f_outputs fr2) = k /\ length (f_actions fr2) = k /\
  f_trace fr2 = [EvPrecompute]
                ++ (if seeding dt n then [EvSelectStartNodes; EvBatchify; EvEnvStep] else []).
Proof.
  destruct (seeding dt n); intros H.
  - apply multistart_seed_ok_inv in H.
    destruct H as (action & td_b & td_a & td_s & am & _ & _ & _ & _ & _ & ->). auto.
  - subst fr2. auto.
Qed.

(** X1. [calc_reward] changes nothing in the decode: with it [forward]
    returns the outputs and actions it returns without it, and a state
    that differs from the final state in the field "reward" alone, which
    holds what [env.get_reward] returned for that state and the stacked
    actions; the reward is computed last. *)
Theorem reward_is_added_to_the_decode
    (fuel : nat) (td : TensorDict F) (embeddings : ndarray F) (dt : string)
    (temp : option F) (ns : option Z)
    (O : Tensor F) (A : ndarray Z) (td' : TensorDict F) (fr' : frame) :
  forward imp self fuel td embeddings dt temp ns true = (Ok (O, A, td'), fr') ->
  exists td0 fr0 reward,
    forward imp self fuel td embeddings dt temp ns false = (Ok (O, A, td0), fr0) /\
    env_get_reward (env self) td0 A = Ok reward /\
    td_get "reward" td' = Ok reward /\
    (forall key, key <> "reward"%string -> td_get key td' = td_get key td0) /\
    batch_size td' = batch_size td0 /\
    f_trace fr' = f_trace fr0 ++ [EvGetReward].
Proof.
  intros H. pose proof H as Hf. apply forward_ok_finish in Hf.
  destruct Hf as (c & fr2 & fr3 & steps & _ & _ & _ & _ & Hfin).
  rewrite (Hfin true) in H. apply finish_with_reward_inv in H.
  destruct H as (HO & HA & reward & Hrew & Hset & Htr).
  exists (f_td fr3), (logged EvStack fr3), reward.
  split; [rewrite (Hfin false); now apply finish_without_reward|].
  split; [assumption|]. split; [eapply td_get_set_same; eauto|].
  split; [intros key Hkey; eapply td_get_set_other; eauto|].
  split; [eapply td_set_batch_size; eauto|].
  rewrite Htr. simpl. now rewrite <- app_assoc.
Qed.

(** X2. [forward] returns only once every instance is done: the state
    it returns has a "done" field that is true everywhere, and the
    trajectory has at least one step, of which there are as many for the
    outputs as for the actions. *)
Theorem forward_returns_finished_instances
    (fuel : nat) (td : TensorDict F) (embeddings : ndarray F) (dt : string)
    (temp : option F) (ns : option Z) (calc : bool)
    (O : Tensor F) (A : ndarray Z) (td' : TensorDict F) (fr' : frame) :
  forward imp self fuel td embeddings dt temp ns calc = (Ok (O, A, td'), fr') ->
  (exists done, td_get "done" td' = Ok done /\ torch_all done = true) /\
  1 <= nth 1 (shape A) 0 /\
  nth 1 (tshape O) 0 = nth 1 (shape A) 0.
Proof.
  intros H. pose proof H as Hf. apply forward_ok_finish in Hf.
  destruct Hf as (c & fr2 & fr3 & steps & _ & _ & Hseed & Hrun & Hfin).
  apply entry_frame in Hseed. destruct Hseed as (Hlo & Hla & _).
  destruct (loop_run_stops_done Hrun) as (done & Hdone & Hall).
  rewrite (Hfin calc) in H.
  assert (Hst : torch_stack1 (f_outputs fr3) = Ok O /\ stack1 (f_actions fr3) = Ok A /\
                td_get "done" td' = Ok done).
  { destruct calc.
    - apply finish_with_reward_inv in H.
      destruct H as (HO & HA & reward & _ & Hset & _). repeat split; auto.
      rewrite <- Hdone. eapply td_get_set_other; [|exact Hset]. discriminate.
    - apply finish_without_reward_inv in H. destruct H as (HO & HA & -> & _). auto. }
  destruct Hst as (HO & HA & Hd). split; [eauto|].
  pose proof (loop_run_frame Hrun) as (_ & Houts & Hacts & _).
  destruct (torch_stack1_ok_inv _ HO) as (_ & t0 & ts' & d0 & rest & _ & _ & ->).
  destruct (stack1_ok_inv _ HA) as (a0 & as' & e0 & rest' & Has & _ & _ & ->).
  simpl. rewrite Has. simpl. split; [lia|].
  assert (Hlen : length (f_outputs fr3) = length (f_actions fr3)).
  { rewrite Houts, Hacts, !length_app, !length_map. lia. }
  rewrite Hlen, Has. reflexivity.
Qed.

End Finish.

(** ** The calls of a decode *)

Section Calls.

Context {F : Type} {SO : ScalarOps F}.

Variable imp : Imports F.
Variable self : Decoder F.

(** X3. The calls of a completed [forward]: [_precompute] exactly once
    and first, the seeding calls once when the seeding branch is entered,
    then [_get_log_p], [decode_probs] and [env.step] once per iteration,
    then the stacking and, if asked for, the reward. Every entry of the
    trajectory stands for exactly one transition of the environment. *)
Theorem forward_call_sequence
    (fuel : nat) (td : TensorDict F) (embeddings : ndarray F) (dt : string)
    (temp : option F) (ns : option Z) (calc : bool)
    (O : Tensor F) (A : ndarray Z) (td' : TensorDict F) (fr' : frame) :
  forward imp self fuel td embeddings dt temp ns calc = (Ok (O, A, td'), fr') ->
  let seeded := seeding dt (normalize_num_starts ns) in
  exists T,
    f_trace fr' = forward_calls seeded T calc /\
    nth 1 (shape A) 0 = (if seeded then 1 else 0) + T /\
    count_occ event_eq_dec (f_trace fr') EvEnvStep = nth 1 (shape A) 0 /\
    count_occ event_eq_dec (f_trace fr') EvPrecompute = 1.
Proof.
  intros H seeded. pose proof H as Hinv. apply forward_ok_inv in Hinv.
  destruct Hinv as (c & fr2 & fr3 & steps & _ & _ & Hseed & Hrun & _ & _ & HA & Htr).
  apply entry_frame in Hseed. fold seeded in Hseed. destruct Hseed as (_ & Hla & Htr2).
  pose proof (loop_run_frame Hrun) as (_ & _ & Hacts & _).
  pose proof (loop_run_trace Hrun) as Htr3.
  exists (length steps).
  assert (Htrace : f_trace fr' = forward_calls seeded (length steps) calc).
  { rewrite Htr, Htr3, Htr2. unfold forward_calls.
    destruct calc; rewrite <- !app_assoc; reflexivity. }
  assert (Hlen : nth 1 (shape A) 0 = (if seeded then 1 else 0) + length steps).
  { destruct (stack1_ok_inv _ HA) as (a0 & as' & e0 & rest' & _ & _ & _ & ->).
    simpl. rewrite Hacts, length_app, length_map. lia. }
  split; [exact Htrace|]. split; [exact Hlen|].
  rewrite Htrace, Hlen. unfold forward_calls.
  assert (Hsteps : forall e k,
             count_occ event_eq_dec (concat (repeat [EvGetLogP; EvDecodeProbs; EvEnvStep] k)) e
             = k * count_occ event_eq_dec [EvGetLogP; EvDecodeProbs; EvEnvStep] e).
  { intros e k. induction k as [|k IH]; [reflexivity|].
    cbn [repeat concat]. rewrite count_occ_app, IH. simpl. lia. }
  rewrite !count_occ_app, !Hsteps.
  destruct seeded, calc; simpl; lia.
Qed.

End Calls.

(** ** States the loop cannot start from *)

Section Edges.

Context {F : Type} {SO : ScalarOps F}.

Variable imp : Imports F.
Variable self : Decoder F.

Lemma forward_without_seeding (fuel : nat) (td : TensorDict F) (embeddings : ndarray F)
    (dt : string) (temp : option F) (ns : option Z) (calc : bool) (c : PrecomputedCache F) :
  py_in "multistart" dt = false ->
  (normalize_num_starts ns <= 1)%Z ->
  _precompute self embeddings (normalize_num_starts ns) = Ok c ->
  forward imp self fuel td embeddings dt temp ns calc =
    bind (main_loop imp self dt temp (normalize_num_starts ns) fuel) (fun _ => finish self calc)
      (after_precompute td c).
Proof.
  intros Hin Hle Hpre. unfold forward, forward_body. rewrite Hin.
  replace (1 <? normalize_num_starts ns)%Z with false by (symmetry; apply Z.ltb_ge; lia).
  simpl. erewrite bind_ok by reflexivity.
  erewrite bind_ok by (apply call_ok; exact Hpre).
  erewrite bind_ok by reflexivity.
  erewrite bind_ok by reflexivity. reflexivity.
Qed.

(** X4. Without seeding, a state whose instances are all done already
    (an empty batch is one) makes [forward] raise: the loop body never
    runs, nothing is appended, and [torch.stack] refuses the empty list.
    The environment is not called. *)
Theorem forward_on_finished_state_raises
    (fuel : nat) (td : TensorDict F) (embeddings : ndarray F) (dt : string)
    (temp : option F) (ns : option Z) (calc : bool) (c : PrecomputedCache F)
    (done : Tensor F) :
  py_in "multistart" dt = false ->
  (normalize_num_starts ns <= 1)%Z ->
  _precompute self embeddings (normalize_num_starts ns) = Ok c ->
  td_get "done" td = Ok done ->
  torch_all done = true ->
  forward imp self fuel td embeddings dt temp ns calc =
    (Raise (RuntimeError "stack expects a non-empty TensorList"),
     mkFrame td (Some c) [] [] [EvPrecompute; EvStack]).
Proof.
  intros Hin Hle Hpre Hdone Hall.
  rewrite forward_without_seeding with (c := c) by assumption.
  assert (Hc : loop_condition (after_precompute td c) = (Ok false, after_precompute td c)).
  { unfold loop_condition, bind, read_td, lift, ret. simpl. now rewrite Hdone, Hall. }
  erewrite bind_ok by (destruct fuel; simpl; erewrite bind_ok by exact Hc; reflexivity).
  reflexivity.
Qed.

(** X5. Without seeding, a state that has no "done" field makes
    [forward] raise [KeyError] at the first test of the loop, right after
    [_precompute]: no score is computed and the environment is not
    called. *)
Theorem forward_needs_the_done_flag
    (fuel : nat) (td : TensorDict F) (embeddings : ndarray F) (dt : string)
    (temp : option F) (ns : option Z) (calc : bool) (c : PrecomputedCache F) :
  py_in "multistart" dt = false ->
  (normalize_num_starts ns <= 1)%Z ->
  _precompute self embeddings (normalize_num_starts ns) = Ok c ->
  assoc_get "done" (fields td) = None ->
  forward imp self fuel td embeddings dt temp ns calc =
    (Raise (KeyError "done"), after_precompute td c).
Proof.
  intros Hin Hle Hpre Hdone.
  rewrite forward_without_seeding with (c := c) by assumption.
  destruct fuel; simpl; unfold bind, loop_condition, bind, read_td, lift, td_get; simpl;
    now rewrite Hdone.
Qed.

End Edges.

(** ** Embeddings of another width *)

Section Validation.

Context {F : Type} {SO : ScalarOps F}.

Lemma apply_linear_width (lin : Linear F) (x : ndarray F) (pre : list nat) (d : nat) :
  shape x = pre ++ [d] -> d <> in_features lin ->
  apply_linear lin x = Raise (RuntimeError "mat1 and mat2 shapes cannot be multiplied").
Proof.
  intros Hs Hd. unfold apply_linear. rewrite Hs, rev_app_distr. simpl.
  apply Nat.eqb_neq in Hd. now rewrite Hd.
Qed.

(** X6. A decoder built by [__init__] for width [D] refuses embeddings
    whose last axis is not [D]: the projection of [_precompute] raises,
    and so does [forward], before any start node is selected and before
    the environment is called. *)
Theorem forward_rejects_other_embedding_widths
    (imp : Imports F) (e : Env F) (D H : nat) (w_node w_context : nat -> nat -> F)
    (self : Decoder F) (fuel : nat) (td : TensorDict F) (embeddings : ndarray F)
    (dt : string) (temp : option F) (ns : option Z) (calc : bool)
    (pre : list nat) (d : nat) :
  Decoder_init imp e D H w_node w_context = Ok self ->
  shape embeddings = pre ++ [d] ->
  d <> D ->
  py_in "multistart" dt && (normalize_num_starts ns <=? 1)%Z = false ->
  _precompute self embeddings (normalize_num_starts ns)
    = Raise (RuntimeError "mat1 and mat2 shapes cannot be multiplied") /\
  forward imp self fuel td embeddings dt temp ns calc =
    (Raise (RuntimeError "mat1 and mat2 shapes cannot be multiplied"),
     mkFrame td None [] [] [EvPrecompute]).
Proof.
  intros Hinit Hs Hd Hguard.
  apply Decoder_init_layers in Hinit. destruct Hinit as (Hnode & _).
  assert (Hpre : _precompute self embeddings (normalize_num_starts ns)
                 = Raise (RuntimeError "mat1 and mat2 shapes cannot be multiplied")).
  { unfold _precompute. rewrite apply_linear_width with (pre := pre) (d := d); auto.
    now rewrite Hnode. }
  split; [exact Hpre|].
  unfold forward, forward_body. rewrite Hguard.
  erewrite bind_ok by reflexivity.
  unfold bind, call, bind, log, lift. simpl. now rewrite Hpre.
Qed.

End Validation.

(** ** When start nodes are selected *)

Section Selection.

Context {F : Type} {SO : ScalarOps F}.

Variable imp : Imports F.
Variable self : Decoder F.

Lemma same_selections_refl fr : same_selections F fr fr.
Proof. reflexivity. Qed.

Lemma same_selections_trans a b c :
  same_selections F a b -> same_selections F b c -> same_selections F a c.
Proof. unfold same_selections. congruence. Qed.

Lemma same_selections_log (e : event) :
  e <> EvSelectStartNodes -> respects (same_selections F) (log e).
Proof.
  intros He fr. unfold same_selections, selections. simpl. rewrite count_occ_app. simpl.
  destruct (event_eq_dec e EvSelectStartNodes); [contradiction|lia].
Qed.

Lemma same_selections_loop_and_finish (dt : string) (temp : option F) (n : Z) (fuel : nat) (calc : bool) :
  respects (same_selections F) (bind (main_loop imp self dt temp n fuel) (fun _ => finish self calc)).
Proof.
  apply respects_bind; [exact same_selections_trans| |intros _].
  - apply respects_main_loop;
      [exact same_selections_refl|exact same_selections_trans|intros ? ?; reflexivity ..|];
      repeat split; apply same_selections_log; discriminate.
  - apply respects_finish;
      [exact same_selections_refl|exact same_selections_trans|intros ? ?; reflexivity|];
      repeat split; apply same_selections_log; discriminate.
Qed.

Lemma bind_read_td {A : Type} (k : TensorDict F -> M A) (fr : @frame F) :
  bind read_td k fr = k (f_td fr) fr.
Proof. reflexivity. Qed.

Lemma bind_call {A B : Type} (e : event) (r : result A) (k : A -> M B) (fr : @frame F) :
  bind (call e r) k fr =
    match r with
    | Ok a => k a (logged e fr)
    | Raise x => (Raise x, logged e fr)
    | OutOfFuel => (OutOfFuel, logged e fr)
    end.
Proof. destruct r; reflexivity. Qed.

Lemma multistart_seed_selects_once (n : Z) (fr : frame) :
  selections (snd (multistart_seed imp self n fr)) = S (selections fr).
Proof.
  assert (Hlogged : selections (logged EvSelectStartNodes fr) = S (selections fr)).
  { unfold selections. simpl. rewrite count_occ_app. simpl. lia. }
  unfold multistart_seed. rewrite bind_read_td, bind_call.
  destruct (select_start_nodes imp (f_td fr) n (env self)) as [action| |];
    [|exact Hlogged ..].
  rewrite <- Hlogged.
  match goal with |- context [snd (?m _)] => assert (Hm : respects (same_selections F) m) end.
  { unfold call.
    repeat (apply respects_bind; [exact same_selections_trans| |intros ?]);
      try (apply same_selections_log; discriminate); intros ?; reflexivity. }
  apply Hm.
Qed.

(** X7. Whatever the decode type and the outcome of the call,
    [forward] selects start nodes exactly once when [num_starts > 1] and
    [_precompute] returned, and never otherwise: after the assertion of
    lines 71-73 the test of line 83 is the test [num_starts > 1]. *)
Theorem start_nodes_are_selected_once_with_starts
    (fuel : nat) (td : TensorDict F) (embeddings : ndarray F) (dt : string)
    (temp : option F) (ns : option Z) (calc : bool) :
  selections (snd (forward imp self fuel td embeddings dt temp ns calc))
  = match _precompute self embeddings (normalize_num_starts ns) with
    | Ok _ => if (1 <? normalize_num_starts ns)%Z then 1 else 0
    | _ => 0
    end.
Proof.
  unfold forward, forward_body. set (n := normalize_num_starts ns).
  destruct (py_in "multistart" dt && (n <=? 1)%Z) eqn:Hguard.
  - apply andb_prop in Hguard. destruct Hguard as (_ & Hle). apply Z.leb_le in Hle.
    replace (1 <? n)%Z with false by (symmetry; apply Z.ltb_ge; lia).
    simpl. now destruct (_precompute self embeddings n).
  - erewrite bind_ok by reflexivity. rewrite bind_call.
    destruct (_precompute self embeddings n) as [c| |]; [|reflexivity ..].
    erewrite bind_ok by reflexivity.
    change (mkFrame (f_td (logged EvPrecompute (init_frame td))) (Some c)
              (f_outputs (logged EvPrecompute (init_frame td)))
              (f_actions (logged EvPrecompute (init_frame td)))
              (f_trace (logged EvPrecompute (init_frame td))))
      with (after_precompute td c).
    destruct (1 <? n)%Z eqn:Hn.
    + simpl orb. cbv iota. unfold bind at 1.
      pose proof (multistart_seed_selects_once n (after_precompute td c)) as Hseed.
      change (S (selections (after_precompute td c))) with 1 in Hseed.
      destruct (multistart_seed imp self n (after_precompute td c)) as [[[]|x|] fr2];
        cbn [snd] in Hseed |- *; try exact Hseed.
      rewrite <- Hseed. apply same_selections_loop_and_finish.
    + assert (Hin : py_in "multistart" dt = false).
      { apply Z.ltb_ge in Hn. destruct (py_in "multistart" dt); [|reflexivity].
        simpl in Hguard. apply Z.leb_gt in Hguard. lia. }
      rewrite Hin. simpl orb. cbv iota.
      erewrite bind_ok by reflexivity.
      apply (same_selections_loop_and_finish dt temp n fuel calc (after_precompute td c)).
Qed.

End Selection.

(** ** What the attention unit receives *)

Section Broadcast.

Context {A : Type}.





End Broadcast.

Section AttentionInputs.

Context {F : Type} {SO : ScalarOps F}.

Variable self : Decoder F.

(** X8. The query that [_get_log_p] hands to the attention unit is the
    step context plus the cached graph context, with the same cells, and
    it never has two axes: a query of shape [(B, D)] gets an axis of size
    1 after the batch axis, any other is passed as it is. *)
Theorem attention_query_has_a_starts_axis
    (cached : PrecomputedCache F) (td : TensorDict F) (temp : option F) (ns : Z)
    (fr fr' : frame) (lp : ndarray F) (m : Tensor F) :
  _get_log_p_scores self cached td temp ns fr = (Ok (lp, m), fr') ->
  exists td_unbatch step_context q0 q k v lk,
    unbatchify_td td ns = Ok td_unbatch /\
    context self (node_embeddings cached) td_unbatch = Ok step_context /\
    torch_add step_context (graph_context cached) = Ok q0 /\
    logit_attention self q k v lk m temp = Ok lp /\
    data q = data q0 /\
    ndim q <> 2 /\
    (forall B D, shape q0 = [B; D] -> shape q = [B; 1; D]) /\
    (ndim q0 <> 2 -> q = q0).
Proof.
  unfold _get_log_p_scores. intros H.
  apply bind_ok_inv in H. destruct H as (td_u & fr1 & H1 & H).
  apply lift_ok_inv in H1. destruct H1 as (Hu & ->).
  apply bind_ok_inv in H. destruct H as (ctx & fr1 & H1 & H).
  apply lift_ok_inv in H1. destruct H1 as (Hctx & ->).
  apply bind_ok_inv in H. destruct H as (q0 & fr1 & H1 & H).
  apply lift_ok_inv in H1. destruct H1 as (Hq0 & ->).
  apply bind_ok_inv in H. destruct H as (q & fr1 & Hq & H).
  apply bind_ok_inv in H. destruct H as ([[kd vd] lkd] & fr2 & Hd & H).
  apply bind_ok_inv in H. destruct H as (k & fr3 & _ & H).
  apply bind_ok_inv in H. destruct H as (v & fr4 & _ & H).
  apply bind_ok_inv in H. destruct H as (lk & fr5 & _ & H).
  apply bind_ok_inv in H. destruct H as (am & fr6 & _ & H).
  apply bind_ok_inv in H. destruct H as (mask & fr7 & _ & H).
  apply bind_ok_inv in H. destruct H as (log_p & fr8 & Hatt & H).
  apply lift_ok_inv in Hatt. destruct Hatt as (Hatt & _).
  apply ret_ok_inv in H. destruct H as (E & _). injection E as -> ->.
  exists td_u, ctx, q0, q, k, v, lk. repeat (split; [assumption|]).
  destruct (ndim q0 =? 2) eqn:Hnd.
  - apply lift_ok_inv in Hq. destruct Hq as (Hq & _).
    apply Nat.eqb_eq in Hnd. unfold ndim in Hnd. unfold unsqueeze1 in Hq.
    destruct (shape q0) as [|d0 [|d1 [|? ?]]] eqn:Hs; try discriminate.
    injection Hq as <-. simpl. repeat split.
    + unfold ndim. simpl. discriminate.
    + intros B D HBD. now injection HBD as -> ->.
    + unfold ndim. rewrite Hs. simpl. intros Hne. now elim Hne.
  - apply ret_ok_inv in Hq. destruct Hq as (-> & _).
    apply Nat.eqb_neq in Hnd. repeat split; auto.
    intros B D HBD. unfold ndim in Hnd. rewrite HBD in Hnd. now elim Hnd.
Qed.


End AttentionInputs.

(** ** What a decode returns *)

Section Results.

Context {F : Type} {SO : ScalarOps F}.

Lemma stack1_single {A : Type} (t : ndarray A) (d0 : nat) (rest : list nat) :
  shape t = d0 :: rest -> wf_array t ->
  stack1 [t] = Ok (mkArr (d0 :: 1 :: rest) (data t)).
Proof.
  intros Hs Hwf. unfold stack1. simpl.
  replace (list_nat_eqb (shape t) (shape t)) with true
    by (symmetry; now apply list_nat_eqb_eq).
  simpl. rewrite Hs. f_equal. f_equal.
  rewrite flat_map_ext_in with (g := fun i => chunk (numel rest) i (data t))
    by (intros i _; apply app_nil_r).
  apply (gather_seq_all (numel rest) d0). unfold wf_array in Hwf. now rewrite Hs in Hwf.
Qed.

Lemma torch_stack1_single_bool (a : ndarray bool) (d0 : nat) (rest : list nat) :
  shape a = d0 :: rest -> wf_array a ->
  torch_stack1 [@TBool F a] = Ok (TBool (mkArr (d0 :: 1 :: rest) (data a))).
Proof.
  intros Hs Hwf. unfold torch_stack1.
  change (result_type [@TBool F a]) with DBool.
  change (map as_bool [@TBool F a]) with [a].
  now rewrite stack1_single with (d0 := d0) (rest := rest).
Qed.

Variable imp : Imports F.
Variable self : Decoder F.

(** X10. When the seed actions alone finish every instance, [forward]
    returns a trajectory of length 1: the actions are the seed actions,
    and the outputs are the zeros of the boolean action mask, a boolean
    tensor, since no score of the main loop is stacked with them. *)
Theorem seed_only_trajectory_is_boolean
    (fuel : nat) (td : TensorDict F) (embeddings : ndarray F) (dt : string)
    (temp : option F) (n : Z) (c : PrecomputedCache F) (fr2 : frame)
    (am : ndarray bool) (action : ndarray Z) (done : Tensor F) (d0 : nat) (rest : list nat) :
  (1 < n)%Z ->
  _precompute self embeddings n = Ok c ->
  multistart_seed imp self n (after_precompute td c) = (Ok tt, fr2) ->
  td_get "done" (f_td fr2) = Ok done ->
  torch_all done = true ->
  td_get "action_mask" (f_td fr2) = Ok (TBool am) ->
  shape am = d0 :: rest -> wf_array am ->
  select_start_nodes imp td n (env self) = Ok action ->
  shape action = [d0] -> wf_array action ->
  forward imp self fuel td embeddings dt temp (Some n) false =
    (Ok (TBool (mkArr (d0 :: 1 :: rest) (map (fun _ => false) (data am))),
         mkArr [d0; 1] (data action),
         f_td fr2),
     logged EvStack fr2).
Proof.
  intros Hn Hpre Hseed Hdone Hall Ham Hsam Hwam Hsel Hsact Hwact.
  assert (Hguard : py_in "multistart" dt && (n <=? 1)%Z = false).
  { replace (n <=? 1)%Z with false by (symmetry; apply Z.leb_gt; lia).
    apply andb_false_r. }
  assert (Hc : loop_condition fr2 = (Ok false, fr2)).
  { unfold loop_condition, bind, read_td, lift, ret. now rewrite Hdone, Hall. }
  assert (Hloop : main_loop imp self dt temp n fuel fr2 = (Ok tt, fr2)).
  { destruct fuel; simpl; erewrite bind_ok by exact Hc; reflexivity. }
  assert (Hs : seeding dt n = true).
  { unfold seeding. replace (1 <? n)%Z with true by (symmetry; apply Z.ltb_lt; lia).
    reflexivity. }
  rewrite forward_phases with (c := c) (fr2 := fr2) (fr3 := fr2); auto;
    [|simpl normalize_num_starts; now rewrite Hs].
  pose proof Hseed as Hinv. apply multistart_seed_ok_inv in Hinv.
  destruct Hinv as (action' & td_b & td_a & td_s & am' & Hsel' & _ & _ & _ & Ham' & Hfr2).
  simpl in Hsel'. rewrite Hsel in Hsel'. injection Hsel' as <-.
  assert (Htd : f_td fr2 = td_s) by (now rewrite Hfr2).
  rewrite Htd in Ham. rewrite Ham in Ham'. injection Ham' as <-.
  apply finish_without_reward.
  - rewrite Hfr2. unfold after_precompute. cbn [f_outputs app].
    change (zeros_like (TBool am)) with (@TBool F (zeros_like_arr false am)).
    rewrite torch_stack1_single_bool with (d0 := d0) (rest := rest);
      [reflexivity|exact Hsam|now apply wf_amap].
  - rewrite Hfr2. unfold after_precompute. cbn [f_actions app].
    now rewrite stack1_single with (d0 := d0) (rest := []).
Qed.

(** X11. As soon as the main loop made one iteration, the outputs that
    [forward] returns are a float tensor, also when the first entry is
    the zero entry of the seeding, which is taken from the boolean action
    mask. *)
Theorem outputs_are_float_after_an_iteration
    (fuel : nat) (td : TensorDict F) (embeddings : ndarray F) (dt : string)
    (temp : option F) (ns : option Z) (calc : bool)
    (O : Tensor F) (A : ndarray Z) (td' : TensorDict F) (fr' : frame) :
  forward imp self fuel td embeddings dt temp ns calc = (Ok (O, A, td'), fr') ->
  0 < loop_iterations (f_trace fr') ->
  dtype_of O = DFloat.
Proof.
  intros H Hpos. apply forward_ok_inv in H.
  destruct H as (c & fr2 & fr3 & steps & _ & _ & Hseed & Hrun & _ & HO & _ & Htr).
  apply entry_frame in Hseed. destruct Hseed as (_ & _ & Htr2).
  pose proof (loop_run_frame Hrun) as (_ & Houts & _ & Hiter).
  assert (Hsteps : steps <> []).
  { intros ->. rewrite Htr in Hpos. unfold loop_iterations in *.
    rewrite count_occ_app, Hiter, Htr2 in Hpos.
    destruct (seeding dt (normalize_num_starts ns)), calc; simpl in Hpos; lia. }
  destruct (torch_stack1_ok_inv _ HO) as (-> & _).
  destruct steps as [|[lp a] steps]; [contradiction|].
  apply result_type_float with (x := lp). rewrite Houts. apply in_or_app. right. now left.
Qed.

Hypothesis collaborators_shapes : keeps_shapes imp self.

(** X12. The shapes of what a completed [forward] returns, for
    [num_starts] other than 1, a state of [B] instances and [N] nodes
    and collaborators that keep shapes: outputs of shape [(R, T, N)] and
    actions of shape [(R, T)] with [T >= 1] steps, and a state of batch
    size [R], where [R] is [B * num_starts] with seeding and [B]
    without. *)
Theorem forward_result_shapes
    (fuel : nat) (td : TensorDict F) (embeddings : ndarray F) (dt : string)
    (temp : option F) (ns : option Z) (calc : bool)
    (O : Tensor F) (A : ndarray Z) (td' : TensorDict F) (fr' : frame) (B N : nat) :
  state_ok B N td ->
  normalize_num_starts ns <> 1%Z ->
  forward imp self fuel td embeddings dt temp ns calc = (Ok (O, A, td'), fr') ->
  let n := normalize_num_starts ns in
  let R := if seeding dt n then B * Z.to_nat n else B in
  exists T,
    1 <= T /\
    tshape O = [R; T; N] /\
    shape A = [R; T] /\
    batch_size td' = [R].
Proof.
  intros Hok Hn1 H n R.
  pose proof H as Hf. apply forward_ok_finish in Hf. fold n in Hf.
  destruct Hf as (c & fr2 & fr3 & steps & Hguard & Hpre & Hseed & Hrun & Hfin).
  rewrite (Hfin calc) in H.
  assert (Hst : torch_stack1 (f_outputs fr3) = Ok O /\ stack1 (f_actions fr3) = Ok A /\
                batch_size td' = batch_size (f_td fr3)).
  { destruct calc.
    - apply finish_with_reward_inv in H.
      destruct H as (HO & HA & reward & _ & Hset & _). repeat split; auto.
      eapply td_set_batch_size; eauto.
    - apply finish_without_reward_inv in H. destruct H as (HO & HA & -> & _). auto. }
  destruct Hst as (HO & HA & Hbs).
  assert (Hentry : state_ok R N (f_td fr2) /\
                   Forall (fun t => tshape t = scores_shape n R N) (f_outputs fr2) /\
                   Forall (fun a => shape a = [R]) (f_actions fr2)).
  { subst R. destruct (seeding dt n) eqn:Hs.
    - assert (Hn : (1 < n)%Z).
      { unfold seeding in Hs. destruct (1 <? n)%Z eqn:E; [now apply Z.ltb_lt|].
        simpl in Hs. rewrite Hs in Hguard. simpl in Hguard.
        apply Z.leb_gt in Hguard. exact Hguard. }
      pose proof (@multistart_seed_state F SO imp self collaborators_shapes n
                    (after_precompute td c) fr2 B N) as Hms.
      destruct (Hms ltac:(lia) Hok Hseed)
        as (Hok2 & action & am & _ & _ & Hsam & _ & Hsact & Houts & Hacts & _).
      split; [exact Hok2|]. rewrite Houts, Hacts. simpl.
      unfold scores_shape. replace (n =? 1)%Z with false by (symmetry; apply Z.eqb_neq; lia).
      split; repeat constructor; auto. now rewrite tshape_zeros_like.
    - subst fr2. simpl. auto. }
  destruct Hentry as (Hok2 & Houts2 & Hacts2).
  destruct (loop_run_shapes collaborators_shapes Hrun Hok2) as (Hok3 & Hshapes).
  pose proof (loop_run_frame Hrun) as (_ & Houts & Hacts & _).
  assert (HallO : Forall (fun t => tshape t = scores_shape n R N) (f_outputs fr3)).
  { rewrite Houts. apply Forall_app. split; [assumption|].
    apply Forall_map. eapply Forall_impl; [|exact Hshapes]. intros s (Hs & _). exact Hs. }
  assert (HallA : Forall (fun a => shape a = [R]) (f_actions fr3)).
  { rewrite Hacts. apply Forall_app. split; [assumption|].
    apply Forall_map. eapply Forall_impl; [|exact Hshapes]. intros s (_ & Hs). exact Hs. }
  assert (Hlen : length (f_outputs fr3) = length (f_actions fr3)).
  { rewrite Houts, Hacts, !length_app, !length_map.
    f_equal. clear -Houts2 Hacts2 Hseed.
    destruct (seeding dt n).
    - apply multistart_seed_ok_inv in Hseed.
      destruct Hseed as (? & ? & ? & ? & ? & _ & _ & _ & _ & _ & ->). reflexivity.
    - now subst fr2. }
  exists (length (f_actions fr3)).
  destruct (torch_stack1_ok_inv _ HO) as (_ & t0 & ts' & d0 & rest & Hts & HshO & HsO).
  destruct (stack1_ok_inv _ HA) as (a0 & as' & e0 & rest' & Has & Hsa0 & _ & ->).
  rewrite HsO, Hlen. rewrite Hts in HallO, HshO.
  inversion HallO as [|? ? Ht0 _]. inversion HshO as [|? ? Ht0' _].
  rewrite Ht0 in Ht0'.
  assert (Ha0 : shape a0 = [R]).
  { rewrite Has in HallA. now inversion HallA. }
  rewrite Ha0 in Hsa0. injection Hsa0 as <- <-.
  split; [rewrite Has; simpl; lia|]. split; [|split].
  - unfold scores_shape in Ht0'.
    replace (n =? 1)%Z with false in Ht0' by (symmetry; now apply Z.eqb_neq).
    injection Ht0' as <- <-. reflexivity.
  - reflexivity.
  - rewrite Hbs. apply Hok3.
Qed.

End Results.

(** ** The toy instance meets what the decoder relies on *)

Import Toy.

Lemma toy_step_ok_inv (td td' : TensorDict Z) :
  Toy.step td = Ok td' ->
  exists m m' done,
    td_get "action_mask" td = Ok (TBool m) /\
    shape m' = shape m /\ wf_array m' /\
    td' = mkTD (batch_size td)
            (assoc_set "done" (TBool done) (assoc_set "action_mask" (TBool m') (fields td))).
Proof.
  unfold Toy.step. intros H.
  apply rbind_ok_inv in H. destruct H as (am & Ham & H).
  apply rbind_ok_inv in H. destruct H as (act & Hact & H).
  destruct am as [m| |]; try discriminate. destruct act as [|a|]; try discriminate.
  injection H as <-. do 3 eexists. split; [exact Ham|]. split; [|split; [|reflexivity]].
  - reflexivity.
  - unfold wf_array. simpl. now rewrite length_map, length_seq.
Qed.

Lemma toy_get_action_mask_after_step (bs : list nat) (done m' : Tensor Z)
    (fs : list (string * Tensor Z)) :
  td_get "action_mask" (mkTD bs (assoc_set "done" done (assoc_set "action_mask" m' fs)))
  = Ok m'.
Proof.
  unfold td_get. simpl.
  rewrite assoc_get_set_other by discriminate. now rewrite assoc_get_set_same.
Qed.

Lemma toy_returns_wf : returns_wf toy_imports toy_decoder.
Proof.
  constructor.
  - intros q k v lk m t lp H. simpl in H. unfold toy_attention in H. injection H as <-.
    unfold wf_array. simpl. now rewrite length_map, length_seq.
  - intros p m dt a H. simpl in H. unfold toy_decode_probs in H. injection H as <-.
    unfold wf_array. simpl. rewrite length_map, length_seq. lia.
  - intros td ns e a H. simpl in H. unfold toy_select_start_nodes in H. injection H as <-.
    unfold wf_array. simpl. rewrite length_pairs_major. lia.
  - intros td td' am Hstep Hget. simpl in Hstep.
    apply toy_step_ok_inv in Hstep. destruct Hstep as (m & m' & done & _ & _ & Hwf & ->).
    rewrite toy_get_action_mask_after_step in Hget. now injection Hget as <-.
Qed.

Lemma toy_keeps_shapes : keeps_shapes toy_imports toy_decoder.
Proof.
  constructor.
  - intros q k v lk m t lp H. simpl in H. unfold toy_attention in H. now injection H as <-.
  - intros td td' Hstep. simpl in Hstep.
    apply toy_step_ok_inv in Hstep. destruct Hstep as (m & m' & done & Hm & Hs & _ & ->).
    split; [reflexivity|]. intros am Ham. rewrite Hm in Ham. injection Ham as <-.
    exists (TBool m'). rewrite toy_get_action_mask_after_step. auto.
  - intros p m dt a H. simpl in H. unfold toy_decode_probs in H. now injection H as <-.
  - intros td ns e a H. simpl in H. unfold toy_select_start_nodes in H. now injection H as <-.
Qed.

Lemma toy_policy_ok : seeding_policy_ok toy_imports.
Proof.
  intros td n e action B Hbs H. simpl in H. unfold toy_select_start_nodes in H.
  rewrite Hbs in H. simpl in H. injection H as <-. split; [reflexivity|].
  intros b s1 s2 Hb Hs1 Hs2 Hne. simpl.
  rewrite !nth_pairs_major by assumption. lia.
Qed.

(** ** The claims on the toy instance *)

Lemma toy_state_ok : state_ok 2 3 toy_td.
Proof. split; [reflexivity|]. eexists. repeat split; reflexivity. Qed.

Lemma toy_decoder_init :
  Decoder_init toy_imports toy_env 2 1 (fun j i => Z.of_nat (j + i + 1))
    (fun j i => (Z.of_nat j - Z.of_nat i)%Z) = Ok toy_decoder.
Proof. reflexivity. Qed.

Lemma get_log_p_mask_negates_action_mask_witness :
  exists a lp m fr',
    td_get "action_mask" (f_td toy_frame_starts) = Ok (TBool a) /\
    _get_log_p toy_decoder (toy_cache 3) (f_td toy_frame_starts) None 3 toy_frame_starts
      = (Ok (lp, m), fr') /\
    exists td_unbatch a_u mb,
      unbatchify_td (f_td toy_frame_starts) 3 = Ok td_unbatch /\
      td_get "action_mask" td_unbatch = Ok (TBool a_u) /\
      m = TBool mb /\
      rearrange_bsl_sbl (amap negb a_u) = Ok mb /\
      data mb = map negb (data a) /\
      shape mb = [6; 3].
Proof.
  do 4 eexists. split; [vm_compute; reflexivity|]. split; [vm_compute; reflexivity|].
  eapply (@get_log_p_mask_negates_action_mask Z _ toy_decoder (toy_cache 3)
            (f_td toy_frame_starts) None 3 toy_frame_starts);
    [vm_compute; reflexivity|reflexivity|reflexivity|vm_compute; reflexivity].
Defined.

Lemma get_log_p_fold_starts_major_witness :
  exists lp3 m3 lp m,
    _get_log_p_scores toy_decoder (toy_cache 3) (f_td toy_frame_starts) None 3
      toy_frame_starts = (Ok (lp3, m3), toy_frame_starts) /\
    _get_log_p toy_decoder (toy_cache 3) (f_td toy_frame_starts) None 3 toy_frame_starts
      = (Ok (lp, m), toy_frame_starts) /\
    shape lp = [3 * 2; 3] /\ tshape m = [3 * 2; 3] /\
    forall b s, b < 2 -> s < 3 ->
      chunk 3 (s * 2 + b) (data lp) = chunk 3 (b * 3 + s) (data lp3) /\
      trow 3 (s * 2 + b) m = trow 3 (b * 3 + s) m3.
Proof.
  do 2 eexists.
  assert (Hs : _get_log_p_scores toy_decoder (toy_cache 3) (f_td toy_frame_starts) None 3
                 toy_frame_starts
               = (Ok (?[lp3], ?[m3]), toy_frame_starts)) by (vm_compute; reflexivity).
  destruct (@get_log_p_fold_starts_major Z _ toy_decoder (toy_cache 3)
              (f_td toy_frame_starts) None 3 toy_frame_starts
              _ _ _ 2 3 3 ltac:(lia) Hs eq_refl eq_refl eq_refl eq_refl)
    as (lp & m & H).
  exists lp, m. split; [exact Hs|exact H].
Defined.

Lemma forward_multistart_requires_starts_witness :
  forward toy_imports toy_decoder 10 toy_td toy_embeddings "multistart_greedy" None
    (Some 1%Z) true
  = (Raise (AssertionError "Multi-start decoding requires `num_starts` > 1"),
     mkFrame toy_td None [] [] []).
Proof.
  apply (@forward_multistart_requires_starts Z _ toy_imports toy_decoder 10 toy_td
           toy_embeddings "multistart_greedy" None (Some 1%Z) true);
    [reflexivity|simpl; lia].
Defined.

Lemma seed_is_step_zero_of_the_trajectory_witness :
  exists fr3 steps,
    loop_run toy_imports toy_decoder "multistart_greedy" None 3 toy_frame_starts steps fr3 /\
    exists action td_b td_a am O A,
      select_start_nodes toy_imports toy_td 3 (env toy_decoder) = Ok action /\
      batchify_td toy_td 3 = Ok td_b /\
      td_set "action" (TLong action) td_b = Ok td_a /\
      env_step_next (env toy_decoder) td_a = Ok (f_td toy_frame_starts) /\
      td_get "action_mask" (f_td toy_frame_starts) = Ok am /\
      f_outputs toy_frame_starts = [zeros_like am] /\
      f_actions toy_frame_starts = [action] /\
      torch_stack1 (f_outputs fr3) = Ok O /\
      stack1 (f_actions fr3) = Ok A /\
      forward toy_imports toy_decoder 10 toy_td toy_embeddings "multistart_greedy" None
        (Some 3%Z) false = (Ok (O, A, f_td fr3), logged EvStack fr3) /\
      (forall O' A' td' fr',
          forward toy_imports toy_decoder 10 toy_td toy_embeddings "multistart_greedy" None
            (Some 3%Z) true = (Ok (O', A', td'), fr') ->
          O' = O /\ A' = A) /\
      (exists z, tselect1 0 O = Ok z /\ is_zero_tensor z /\ tshape z = tshape am) /\
      select1 0 A = Ok action.
Proof.
  assert (Hloop : main_loop toy_imports toy_decoder "multistart_greedy" None 3 10
                    toy_frame_starts
                  = (Ok tt, snd (main_loop toy_imports toy_decoder "multistart_greedy" None 3 10
                                   toy_frame_starts))) by (vm_compute; reflexivity).
  apply main_loop_run in Hloop. destruct Hloop as (steps & Hrun & Hlen).
  eexists. exists steps. split; [exact Hrun|].
  apply (@seed_is_step_zero_of_the_trajectory Z _ toy_imports toy_decoder
           toy_returns_wf toy_keeps_shapes 10 toy_td toy_embeddings "multistart_greedy"
           None 3 (toy_cache 3) toy_frame_starts _ steps 2 3);
    [lia|exact toy_state_ok|vm_compute; reflexivity|vm_compute; reflexivity
    |exact Hrun|exact Hlen].
Defined.

Lemma seeding_expands_batch_with_distinct_starts_witness :
  batch_size (f_td toy_frame_starts) = [3 * 2] /\
  (exists action,
     select_start_nodes toy_imports toy_td 3 (env toy_decoder) = Ok action /\
     f_actions toy_frame_starts = [] ++ [action] /\ distinct_starts 2 3 action) /\
  (exists td_b,
     batchify_td toy_td 3 = Ok td_b /\
     batch_size td_b = [3 * 2] /\
     forall key v rest, td_get key toy_td = Ok v -> tshape v = 2 :: rest -> twf v ->
       exists v', td_get key td_b = Ok v' /\
         forall s b, s < 3 -> b < 2 ->
           trow (numel rest) (s * 2 + b) v' = trow (numel rest) b v).
Proof.
  apply (@seeding_expands_batch_with_distinct_starts Z _ toy_imports toy_decoder
           toy_keeps_shapes 3 (after_precompute toy_td (toy_cache 3)) toy_frame_starts 2
           toy_policy_ok);
    [lia|reflexivity|vm_compute; reflexivity].
Defined.

Lemma batch_size_is_kept_without_starts_witness :
  exists c,
    _precompute toy_decoder toy_embeddings 0 = Ok c /\
    hd 0 (shape (node_embeddings c)) = 2 /\
    hd 0 (shape (graph_context c)) = 2 /\
    hd 0 (shape (glimpse_key c)) = 2 /\
    hd 0 (shape (glimpse_val c)) = 2 /\
    hd 0 (shape (logit_key c)) = 2 /\
    numel (shape (graph_context c)) = 2 * 2 /\
    (forall fr, reaches toy_imports toy_decoder "greedy" None 0 (after_precompute toy_td c) fr ->
       f_cached fr = Some c /\
       batch_size (f_td fr) = [2] /\
       forall lp m fr', _get_log_p toy_decoder c (f_td fr) None 0 fr = (Ok (lp, m), fr') ->
         hd 0 (shape lp) = 2 /\ hd 0 (tshape m) = 2 /\
         numel (shape lp) = 2 * 3 /\ numel (tshape m) = 2 * 3) /\
    (forall fuel calc O A td' fr',
       forward toy_imports toy_decoder fuel toy_td toy_embeddings "greedy" None (Some 0%Z) calc
         = (Ok (O, A, td'), fr') ->
       exists steps fr3,
         loop_run toy_imports toy_decoder "greedy" None 0 (after_precompute toy_td c) steps fr3 /\
         batch_size (f_td fr3) = [2] /\
         Forall (fun s => hd 0 (shape (fst s)) = 2 /\ numel (shape (fst s)) = 2 * 3 /\
                          shape (snd s) = [2]) steps /\
         hd 0 (tshape O) = 2 /\ hd 0 (shape A) = 2).
Proof.
  apply (@batch_size_is_kept_without_starts Z _ toy_imports toy_decoder toy_keeps_shapes
           toy_env 2 1 (fun j i => Z.of_nat (j + i + 1))
           (fun j i => (Z.of_nat j - Z.of_nat i)%Z) toy_td toy_embeddings "greedy" None
           0 2 3 3);
    [exact toy_decoder_init|now left|reflexivity|reflexivity|exact toy_state_ok].
Defined.

Lemma cache_is_never_mutated_witness :
  (forall cached td' fr, snd (_get_log_p toy_decoder cached td' None 3 fr) = fr) /\
  (forall k fr,
      f_cached (snd (main_loop toy_imports toy_decoder "multistart_greedy" None 3 k fr))
      = f_cached fr) /\
  f_cached (snd (forward toy_imports toy_decoder 10 toy_td toy_embeddings "multistart_greedy"
                   None (Some 3%Z) true)) = Some (toy_cache 3).
Proof.
  apply (@cache_is_never_mutated Z _ toy_imports toy_decoder 10 toy_td toy_embeddings
           "multistart_greedy" None (Some 3%Z) true (toy_cache 3));
    [reflexivity|vm_compute; reflexivity].
Defined.


Lemma forward_trajectory_is_the_trace_witness :
  exists O A td' fr',
    forward toy_imports toy_decoder 10 toy_td toy_embeddings "multistart_greedy" None
      (Some 3%Z) true = (Ok (O, A, td'), fr') /\
    exists c steps fr2 fr3,
      _precompute toy_decoder toy_embeddings 3 = Ok c /\
      multistart_seed toy_imports toy_decoder 3 (after_precompute toy_td c) = (Ok tt, fr2) /\
      loop_run toy_imports toy_decoder "multistart_greedy" None 3 fr2 steps fr3 /\
      loop_iterations (f_trace fr') = length steps /\
      nth 1 (tshape O) 0 = 1 + length steps /\
      nth 1 (shape A) 0 = 1 + length steps /\
      (forall j dflt, j < length steps ->
         tselect1 (1 + j) O = Ok (TFloat (fst (nth j steps dflt))) /\
         select1 (1 + j) A = Ok (snd (nth j steps dflt))) /\
      (true = true ->
       exists action, select_start_nodes toy_imports toy_td 3 (env toy_decoder) = Ok action /\
                      select1 0 A = Ok action).
Proof.
  do 4 eexists. split; [vm_compute; reflexivity|].
  eapply (@forward_trajectory_is_the_trace Z _ toy_imports toy_decoder toy_returns_wf
            10 toy_td toy_embeddings "multistart_greedy" None (Some 3%Z) true).
  vm_compute. reflexivity.
Defined.

Lemma forward_none_is_zero_starts_witness :
  forward toy_imports toy_decoder 10 toy_td toy_embeddings "greedy" None None true
  = forward toy_imports toy_decoder 10 toy_td toy_embeddings "greedy" None (Some 0%Z) true /\
  Forall not_seeding
    (f_trace (snd (forward toy_imports toy_decoder 10 toy_td toy_embeddings "greedy" None None
                     true))).
Proof.
  destruct (@forward_none_is_zero_starts Z _ toy_imports toy_decoder 10 toy_td toy_embeddings
              "greedy" None true) as (H1 & H2).
  split; [exact H1|]. apply (H2 eq_refl).
Defined.

(** C9, as stated, fails with seeding: with three starts the toy decode
    makes two iterations of the main loop and returns trajectories of
    length three, whose first actions are the seeds [0, 0, 1, 1, 2, 2] that
    no iteration selected. *)
Lemma forward_trajectory_length_counterexample :
  exists O A td' fr',
    forward toy_imports toy_decoder 10 toy_td toy_embeddings "multistart_greedy" None
      (Some 3%Z) true = (Ok (O, A, td'), fr') /\
    loop_iterations (f_trace fr') = 2 /\
    tshape O = [6; 3; 3] /\
    shape A = [6; 3] /\
    select1 0 A = Ok (mkArr [6] [0; 0; 1; 1; 2; 2]%Z) /\
    nth 1 (tshape O) 0 <> loop_iterations (f_trace fr') /\
    nth 1 (shape A) 0 <> loop_iterations (f_trace fr').
Proof.
  do 4 eexists. split; [vm_compute; reflexivity|].
  vm_compute. repeat split; discriminate.
Qed.

(** ** The further properties on the toy instance *)

Lemma reward_is_added_to_the_decode_witness :
  exists O A td' fr',
    forward toy_imports toy_decoder 10 toy_td toy_embeddings "greedy" None None true
      = (Ok (O, A, td'), fr') /\
    exists td0 fr0 reward,
      forward toy_imports toy_decoder 10 toy_td toy_embeddings "greedy" None None false
        = (Ok (O, A, td0), fr0) /\
      env_get_reward (env toy_decoder) td0 A = Ok reward /\
      td_get "reward" td' = Ok reward /\
      (forall key, key <> "reward"%string -> td_get key td' = td_get key td0) /\
      batch_size td' = batch_size td0 /\
      f_trace fr' = f_trace fr0 ++ [EvGetReward].
Proof.
  do 4 eexists. split; [vm_compute; reflexivity|].
  eapply (@reward_is_added_to_the_decode Z _ toy_imports toy_decoder 10 toy_td toy_embeddings
            "greedy" None None).
  vm_compute. reflexivity.
Defined.

Lemma forward_returns_finished_instances_witness :
  exists O A td' fr',
    forward toy_imports toy_decoder 10 toy_td toy_embeddings "greedy" None None true
      = (Ok (O, A, td'), fr') /\
    (exists done, td_get "done" td' = Ok done /\ torch_all done = true) /\
    1 <= nth 1 (shape A) 0 /\
    nth 1 (tshape O) 0 = nth 1 (shape A) 0.
Proof.
  do 4 eexists. split; [vm_compute; reflexivity|].
  eapply (@forward_returns_finished_instances Z _ toy_imports toy_decoder 10 toy_td
            toy_embeddings "greedy" None None true).
  vm_compute. reflexivity.
Defined.

Lemma forward_call_sequence_witness :
  exists O A td' fr',
    forward toy_imports toy_decoder 10 toy_td toy_embeddings "multistart_greedy" None
      (Some 3%Z) true = (Ok (O, A, td'), fr') /\
    exists T,
      f_trace fr' = forward_calls true T true /\
      nth 1 (shape A) 0 = 1 + T /\
      count_occ event_eq_dec (f_trace fr') EvEnvStep = nth 1 (shape A) 0 /\
      count_occ event_eq_dec (f_trace fr') EvPrecompute = 1.
Proof.
  do 4 eexists. split; [vm_compute; reflexivity|].
  eapply (@forward_call_sequence Z _ toy_imports toy_decoder 10 toy_td toy_embeddings
            "multistart_greedy" None (Some 3%Z) true).
  vm_compute. reflexivity.
Defined.

Lemma forward_on_finished_state_raises_witness :
  forward toy_imports toy_decoder 10 toy_td_done toy_embeddings "greedy" None None true =
    (Raise (RuntimeError "stack expects a non-empty TensorList"),
     mkFrame toy_td_done (Some (toy_cache 0)) [] [] [EvPrecompute; EvStack]).
Proof.
  apply (@forward_on_finished_state_raises Z _ toy_imports toy_decoder 10 toy_td_done
           toy_embeddings "greedy" None None true (toy_cache 0)
           (TBool (mkArr [2] [true; true])));
    [reflexivity|simpl; lia|vm_compute; reflexivity|reflexivity|reflexivity].
Defined.

Lemma forward_needs_the_done_flag_witness :
  forward toy_imports toy_decoder 10 toy_td_unset toy_embeddings "greedy" None None true =
    (Raise (KeyError "done"), after_precompute toy_td_unset (toy_cache 0)).
Proof.
  apply (@forward_needs_the_done_flag Z _ toy_imports toy_decoder 10 toy_td_unset
           toy_embeddings "greedy" None None true (toy_cache 0));
    [reflexivity|simpl; lia|vm_compute; reflexivity|reflexivity].
Defined.

Lemma forward_rejects_other_embedding_widths_witness :
  _precompute toy_decoder toy_embeddings_wide 0
    = Raise (RuntimeError "mat1 and mat2 shapes cannot be multiplied") /\
  forward toy_imports toy_decoder 10 toy_td toy_embeddings_wide "greedy" None None true =
    (Raise (RuntimeError "mat1 and mat2 shapes cannot be multiplied"),
     mkFrame toy_td None [] [] [EvPrecompute]).
Proof.
  apply (@forward_rejects_other_embedding_widths Z _ toy_imports toy_env 2 1
           (fun j i => Z.of_nat (j + i + 1)) (fun j i => (Z.of_nat j - Z.of_nat i)%Z)
           toy_decoder 10 toy_td toy_embeddings_wide "greedy" None None true [2; 3] 3);
    [exact toy_decoder_init|reflexivity|discriminate|reflexivity].
Defined.

Lemma attention_query_has_a_starts_axis_witness :
  exists lp m,
    _get_log_p_scores toy_decoder (toy_cache 0) toy_td None 0 (init_frame toy_td)
      = (Ok (lp, m), init_frame toy_td) /\
    exists td_unbatch step_context q0 q k v lk,
      unbatchify_td toy_td 0 = Ok td_unbatch /\
      context toy_decoder (node_embeddings (toy_cache 0)) td_unbatch = Ok step_context /\
      torch_add step_context (graph_context (toy_cache 0)) = Ok q0 /\
      logit_attention toy_decoder q k v lk m None = Ok lp /\
      data q = data q0 /\
      ndim q <> 2 /\
      (forall B D, shape q0 = [B; D] -> shape q = [B; 1; D]) /\
      (ndim q0 <> 2 -> q = q0).
Proof.
  do 2 eexists. split; [vm_compute; reflexivity|].
  eapply (@attention_query_has_a_starts_axis Z _ toy_decoder (toy_cache 0) toy_td None 0
            (init_frame toy_td) (init_frame toy_td)).
  vm_compute. reflexivity.
Defined.


Lemma seed_only_trajectory_is_boolean_witness :
  exists c fr2 am action done,
    _precompute toy_decoder toy_embeddings_spent 2 = Ok c /\
    multistart_seed toy_imports toy_decoder 2 (after_precompute toy_td_spent c) = (Ok tt, fr2) /\
    td_get "done" (f_td fr2) = Ok done /\
    torch_all done = true /\
    td_get "action_mask" (f_td fr2) = Ok (TBool am) /\
    select_start_nodes toy_imports toy_td_spent 2 (env toy_decoder) = Ok action /\
    forward toy_imports toy_decoder 10 toy_td_spent toy_embeddings_spent "multistart_greedy"
      None (Some 2%Z) false =
      (Ok (TBool (mkArr [2; 1; 2] (map (fun _ => false) (data am))),
           mkArr [2; 1] (data action),
           f_td fr2),
       logged EvStack fr2).
Proof.
  do 5 eexists.
  split; [vm_compute; reflexivity|]. split; [vm_compute; reflexivity|].
  split; [vm_compute; reflexivity|]. split; [reflexivity|].
  split; [vm_compute; reflexivity|]. split; [vm_compute; reflexivity|].
  eapply (@seed_only_trajectory_is_boolean Z _ toy_imports toy_decoder 10 toy_td_spent
            toy_embeddings_spent "multistart_greedy" None 2);
    [lia|vm_compute; reflexivity|vm_compute; reflexivity|vm_compute; reflexivity
    |reflexivity|vm_compute; reflexivity|reflexivity|reflexivity|vm_compute; reflexivity
    |reflexivity|reflexivity].
Defined.

Lemma outputs_are_float_after_an_iteration_witness :
  exists O A td' fr',
    forward toy_imports toy_decoder 10 toy_td toy_embeddings "multistart_greedy" None
      (Some 3%Z) true = (Ok (O, A, td'), fr') /\
    0 < loop_iterations (f_trace fr') /\
    dtype_of O = DFloat.
Proof.
  do 4 eexists. split; [vm_compute; reflexivity|]. split; [vm_compute; lia|].
  eapply (@outputs_are_float_after_an_iteration Z _ toy_imports toy_decoder 10 toy_td
            toy_embeddings "multistart_greedy" None (Some 3%Z) true);
    [vm_compute; reflexivity|vm_compute; lia].
Defined.

Lemma forward_result_shapes_witness :
  exists O A td' fr',
    forward toy_imports toy_decoder 10 toy_td toy_embeddings "multistart_greedy" None
      (Some 3%Z) true = (Ok (O, A, td'), fr') /\
    exists T,
      1 <= T /\
      tshape O = [2 * 3; T; 3] /\
      shape A = [2 * 3; T] /\
      batch_size td' = [2 * 3].
Proof.
  do 4 eexists. split; [vm_compute; reflexivity|].
  eapply (@forward_result_shapes Z _ toy_imports toy_decoder toy_keeps_shapes 10 toy_td
            toy_embeddings "multistart_greedy" None (Some 3%Z) true);
    [exact toy_state_ok|discriminate|vm_compute; reflexivity].
Defined.
